(** * humanize-ai-detector: the analysis and scoring engine of [humanize.js]

    A shallow embedding of [PATTERNS], [analyzeText], [getContext],
    [calculateScore], [getScoreLabel] and [formatScore], together with
    the part of the JavaScript run-time they rely on:
    - Numbers, with [NaN] and the infinities, finite values as exact
      rationals;
    - strings as lists of UTF-16 code units;
    - RegExp objects with their [lastIndex], and the backtracking
      matcher behind [String.prototype.matchAll] and
      [String.prototype.split], for the regex syntax that the catalog
      uses.

    The definitions come first, in the order of the source file; the
    lemmas and the theorems on the claims C1 to C10 follow, and after
    them the further properties; the theorem on C7 comes last. *)

From Stdlib Require Import List Sorted String Ascii Bool Arith ZArith NArith QArith Qround Lia Lqa.
From Stdlib Require DecimalString DecimalNat.
Import ListNotations.
Close Scope Q_scope.

Set Implicit Arguments.

(* ================================================================== *)
(** * JavaScript Numbers *)
(* ================================================================== *)

(** A Number is [NaN], one of the two infinities, or a finite value.
    Finite values are represented by the rational they denote: the
    arithmetic below is the real-number arithmetic that binary64
    approximates, and the rounding error of [/] and [*] is not modelled
    (nor is the sign of zero).  In binary64 each of the two is the exact
    operation followed by a rounding that is monotone and keeps the
    integers below 2^53; the counts that [calculateScore] reads stay
    below that bound. *)
Module Number.

Inductive number : Type :=
| NaN
| PosInf
| NegInf
| Num (q : Q).

Definition of_Z (z : Z) : number := Num (inject_Z z).
Definition of_nat (n : nat) : number := of_Z (Z.of_nat n).

Definition Qneg_bool (q : Q) : bool := negb (Qle_bool 0 q).
Definition Qzero_bool (q : Q) : bool := Qeq_bool q 0.

(** [a / b] *)
Definition div (a b : number) : number :=
  match a, b with
  | NaN, _ | _, NaN => NaN
  | Num x, Num y =>
      if Qzero_bool y then
        if Qzero_bool x then NaN
        else if Qneg_bool x then NegInf else PosInf
      else Num (x / y)%Q
  | Num _, (PosInf | NegInf) => Num 0
  | (PosInf | NegInf), (PosInf | NegInf) => NaN
  | PosInf, Num y => if Qneg_bool y then NegInf else PosInf
  | NegInf, Num y => if Qneg_bool y then PosInf else NegInf
  end.

(** [a * b] *)
Definition mul (a b : number) : number :=
  let inf_times (pos : bool) (y : Q) :=
    if Qzero_bool y then NaN
    else if xorb pos (Qneg_bool y) then PosInf else NegInf in
  match a, b with
  | NaN, _ | _, NaN => NaN
  | Num x, Num y => Num (x * y)%Q
  | PosInf, Num y | Num y, PosInf => inf_times true y
  | NegInf, Num y | Num y, NegInf => inf_times false y
  | PosInf, PosInf | NegInf, NegInf => PosInf
  | PosInf, NegInf | NegInf, PosInf => NegInf
  end.

(** [a <= b]: false as soon as one side is [NaN]. *)
Definition leb (a b : number) : bool :=
  match a, b with
  | NaN, _ | _, NaN => false
  | NegInf, _ | _, PosInf => true
  | PosInf, _ | _, NegInf => false
  | Num x, Num y => Qle_bool x y
  end.

(** [a < b] *)
Definition ltb (a b : number) : bool :=
  match a, b with
  | NaN, _ | _, NaN => false
  | _, _ => negb (leb b a)
  end.

(** [Math.min(a, b)] and [Math.max(a, b)]: [NaN] if either is. *)
Definition min (a b : number) : number :=
  match a, b with
  | NaN, _ | _, NaN => NaN
  | _, _ => if leb a b then a else b
  end.

Definition max (a b : number) : number :=
  match a, b with
  | NaN, _ | _, NaN => NaN
  | _, _ => if leb a b then b else a
  end.

(** [Math.round(a)]: the nearest integer, halves going up. *)
Definition round (a : number) : number :=
  match a with
  | Num x => of_Z (Qfloor (x + (1 # 2))%Q)
  | _ => a
  end.

End Number.

(* ================================================================== *)
(** * JavaScript strings *)
(* ================================================================== *)

(** A string is a sequence of UTF-16 code units; lengths and indices
    count code units. *)
Definition char : Type := N.

(** An ASCII literal as a JavaScript string. *)
Definition str (s : string) : list char :=
  map N_of_ascii (list_ascii_of_string s).

Definition in_range (lo hi c : N) : bool := ((lo <=? c) && (c <=? hi))%N.

(** WhiteSpace and LineTerminator code units: what [\s] matches and what
    [trim] removes. *)
Definition is_space (c : char) : bool :=
  in_range 9 13 c || N.eqb c 32 || N.eqb c 160 || N.eqb c 5760
  || in_range 8192 8202 c || N.eqb c 8232 || N.eqb c 8233
  || N.eqb c 8239 || N.eqb c 8287 || N.eqb c 12288 || N.eqb c 65279.

(** The characters of [\w]: letters, digits and the underscore. *)
Definition is_word (c : char) : bool :=
  in_range 97 122 c || in_range 65 90 c || in_range 48 57 c || N.eqb c 95.

(** LineTerminator: what [.] does not match. *)
Definition is_line_terminator (c : char) : bool :=
  N.eqb c 10 || N.eqb c 13 || N.eqb c 8232 || N.eqb c 8233.

(** [s.slice(a, b)] for [0 <= a] and [0 <= b]. *)
Definition slice (s : list char) (a b : nat) : list char :=
  firstn (b - a) (skipn a s).

(** [s.trim()] is empty exactly for such strings. *)
Definition whitespace_only (s : list char) : bool := forallb is_space s.

(* ================================================================== *)
(** * Regular expressions *)
(* ================================================================== *)

(** The members of a character class: a literal, [\s] or [\w]. *)
Inductive cset : Type :=
| CsChar (c : char)
| CsSpace
| CsWord.

(** The patterns of the catalog use literals, [.], classes, [\b],
    sequence, alternation, groups and the greedy quantifiers [?], [*]
    and [+].  A group only brackets its body here: the program reads
    the whole match and its index, never a capture. *)
Inductive regex : Type :=
| Empty
| Chr (c : char)
| Dot
| Class (negated : bool) (items : list cset)
| WordB
| Seq (r1 r2 : regex)
| Alt (r1 r2 : regex)
| Opt (r : regex)
| Star (r : regex)
| Plus (r : regex).

(** Canonicalize of a regex without the [u] flag.  With [i] the ASCII
    letters are upper-cased; a code unit from 128 on never becomes an
    ASCII one, and is left as it is here, which decides every
    comparison against the ASCII characters of the [i] patterns. *)
Definition canonicalize (ic : bool) (c : char) : char :=
  if ic && in_range 97 122 c then (c - 32)%N else c.

Definition cset_mem (ic : bool) (t : char) (item : cset) : bool :=
  match item with
  | CsChar a => N.eqb (canonicalize ic a) (canonicalize ic t)
  | CsSpace => is_space t
  | CsWord => is_word t
  end.

(** ** The backtracking matcher

    [ends r i] lists the end positions of the matches of [r] that start
    at [i], in the order in which backtracking tries them; the match
    that the engine reports is the first one. *)
Section Matcher.

Variable ic : bool.
Variable s : list char.

Definition word_at (i : nat) : bool :=
  match nth_error s i with
  | Some c => is_word c
  | None => false
  end.

(** [\b]: the characters before and after [i] differ in being word
    characters; outside of the string counts as not a word character. *)
Definition is_word_boundary (i : nat) : bool :=
  xorb (match i with O => false | S j => word_at j end) (word_at i).

Definition step_char (p : char -> bool) (i : nat) : list nat :=
  match nth_error s i with
  | Some c => if p c then [S i] else []
  | None => []
  end.

(** Greedy repetition: one more round of [m] first, dropping a round
    that consumed nothing, then the exit.  Every round kept moves on,
    so as many rounds as there are characters left are enough. *)
Fixpoint repeat_greedy (m : nat -> list nat) (fuel i : nat) : list nat :=
  match fuel with
  | O => [i]
  | S fuel' =>
      flat_map (fun j => if i <? j then repeat_greedy m fuel' j else []) (m i)
      ++ [i]
  end.

Fixpoint ends (r : regex) (i : nat) : list nat :=
  match r with
  | Empty => [i]
  | Chr c => step_char (fun t => N.eqb (canonicalize ic t) (canonicalize ic c)) i
  | Dot => step_char (fun t => negb (is_line_terminator t)) i
  | Class negated items =>
      step_char (fun t => xorb negated (existsb (cset_mem ic t) items)) i
  | WordB => if is_word_boundary i then [i] else []
  | Seq r1 r2 => flat_map (ends r2) (ends r1 i)
  | Alt r1 r2 => ends r1 i ++ ends r2 i
  | Opt r1 => filter (fun j => i <? j) (ends r1 i) ++ [i]
  | Star r1 => repeat_greedy (ends r1) (List.length s - i) i
  | Plus r1 =>
      flat_map (fun j => repeat_greedy (ends r1) (List.length s - j) j) (ends r1 i)
  end.

Definition match_at (r : regex) (i : nat) : option nat := hd_error (ends r i).

(** The leftmost start from [i] on at which [r] matches. *)
Fixpoint search (r : regex) (fuel i : nat) : option (nat * nat) :=
  match match_at r i with
  | Some e => Some (i, e)
  | None =>
      match fuel with
      | O => None
      | S fuel' => search r fuel' (S i)
      end
  end.

(** [exec] of a global regex whose [lastIndex] is [lastIndex]: the match
    as (index, end), the end being the new [lastIndex]. *)
Definition exec (r : regex) (lastIndex : nat) : option (nat * nat) :=
  if List.length s <? lastIndex then None
  else search r (List.length s - lastIndex) lastIndex.

(** The iterator of [matchAll]: [exec] until it fails; after an empty
    match [lastIndex] is advanced by one. *)
Fixpoint iterate (r : regex) (fuel lastIndex : nat) : list (nat * nat) :=
  match fuel with
  | O => []
  | S fuel' =>
      match exec r lastIndex with
      | None => []
      | Some (i, e) => (i, e) :: iterate r fuel' (if e =? i then S e else e)
      end
  end.

(** [split] with a regex separator (no limit, no captures). *)
Fixpoint split_loop (r : regex) (fuel p q : nat) : list (list char) :=
  match fuel with
  | O => [slice s p (List.length s)]
  | S fuel' =>
      if q <? List.length s then
        match match_at r q with
        | None => split_loop r fuel' p (S q)
        | Some e0 =>
            let e := Nat.min e0 (List.length s) in
            if e =? p then split_loop r fuel' p (S q)
            else slice s p q :: split_loop r fuel' e e
        end
      else [slice s p (List.length s)]
  end.

Definition split (r : regex) : list (list char) :=
  match s with
  | [] => match match_at r 0 with Some _ => [] | None => [s] end
  | _ => split_loop r (2 * List.length s) 0 0
  end.

End Matcher.

(** A RegExp object. *)
Record RegExp : Type := {
  source : regex;
  global : bool;
  ignoreCase : bool;
  lastIndex : nat
}.

(** [text.matchAll(rx)] for a global [rx]: the matches, as (index, end),
    of a clone of [rx] that starts from [rx.lastIndex], and [rx] as the
    call leaves it.  Only the clone is run. *)
Definition matchAll (text : list char) (rx : RegExp) : list (nat * nat) * RegExp :=
  let matcher := rx in
  (iterate (ignoreCase matcher) text (source matcher)
     (List.length text + 2) (lastIndex matcher),
   rx).

(** ** Regex literals

    The syntax of the literals of the catalog, so that it can be
    written as in the source. *)
Open Scope char_scope.

Definition syntax_char (c : ascii) : bool :=
  existsb (Ascii.eqb c)
    ["^"; "$"; "\"; "."; "*"; "+"; "?"; "("; ")"; "["; "]"; "{"; "}"; "|"; "/"].

Definition seq (a b : regex) : regex :=
  match b with
  | Empty => a
  | _ => Seq a b
  end.

Definition quantified (a : regex) (cs : list ascii) : regex * list ascii :=
  match cs with
  | "?" :: rest => (Opt a, rest)
  | "*" :: rest => (Star a, rest)
  | "+" :: rest => (Plus a, rest)
  | _ => (a, cs)
  end.

Fixpoint parse_class (cs : list ascii) : option (list cset * list ascii) :=
  let cons (x : cset) (r : option (list cset * list ascii)) :=
    match r with
    | Some (l, rest) => Some (x :: l, rest)
    | None => None
    end in
  match cs with
  | [] => None
  | "]" :: rest => Some ([], rest)
  | "\" :: "s" :: rest => cons CsSpace (parse_class rest)
  | "\" :: "w" :: rest => cons CsWord (parse_class rest)
  | "\" :: _ => None
  | "-" :: _ => None
  | c :: rest => cons (CsChar (N_of_ascii c)) (parse_class rest)
  end.

Fixpoint parse_disjunction (fuel : nat) (cs : list ascii) : option (regex * list ascii) :=
  match fuel with
  | O => None
  | S fuel' =>
      match parse_alternative fuel' cs with
      | Some (a, "|" :: rest) =>
          match parse_disjunction fuel' rest with
          | Some (b, rest') => Some (Alt a b, rest')
          | None => None
          end
      | other => other
      end
  end
with parse_alternative (fuel : nat) (cs : list ascii) : option (regex * list ascii) :=
  match fuel with
  | O => None
  | S fuel' =>
      match cs with
      | [] | "|" :: _ | ")" :: _ => Some (Empty, cs)
      | _ =>
          match parse_term fuel' cs with
          | Some (t, rest) =>
              match parse_alternative fuel' rest with
              | Some (a, rest') => Some (seq t a, rest')
              | None => None
              end
          | None => None
          end
      end
  end
with parse_term (fuel : nat) (cs : list ascii) : option (regex * list ascii) :=
  match fuel with
  | O => None
  | S fuel' =>
      match cs with
      | "\" :: "b" :: rest => Some (WordB, rest)
      | "\" :: "s" :: rest => Some (quantified (Class false [CsSpace]) rest)
      | "\" :: "w" :: rest => Some (quantified (Class false [CsWord]) rest)
      | "." :: rest => Some (quantified Dot rest)
      | "[" :: "^" :: rest =>
          match parse_class rest with
          | Some (items, rest') => Some (quantified (Class true items) rest')
          | None => None
          end
      | "[" :: rest =>
          match parse_class rest with
          | Some (items, rest') => Some (quantified (Class false items) rest')
          | None => None
          end
      | "(" :: "?" :: _ => None
      | "(" :: rest =>
          match parse_disjunction fuel' rest with
          | Some (d, ")" :: rest') => Some (quantified d rest')
          | _ => None
          end
      | c :: rest =>
          if syntax_char c then None
          else Some (quantified (Chr (N_of_ascii c)) rest)
      | [] => None
      end
  end.

Close Scope char_scope.

Definition parse_regex (src : string) : option regex :=
  let cs := list_ascii_of_string src in
  match parse_disjunction (4 * List.length cs + 8) cs with
  | Some (r, []) => Some r
  | _ => None
  end.

Definition has_flag (f : ascii) (flags : string) : bool :=
  existsb (Ascii.eqb f) (list_ascii_of_string flags).

(** The literal [/src/flags], freshly created. *)
Definition rx (src flags : string) : option RegExp :=
  match parse_regex src with
  | Some r =>
      Some {| source := r;
              global := has_flag "g"%char flags;
              ignoreCase := has_flag "i"%char flags;
              lastIndex := 0 |}
  | None => None
  end.

(** The literal [/c1c2.../flags] of the given code units, for a pattern
    outside of ASCII. *)
Definition rx_of_chars (cs : list char) (flags : string) : option RegExp :=
  Some {| source := fold_right (fun c r => seq (Chr c) r) Empty cs;
          global := has_flag "g"%char flags;
          ignoreCase := has_flag "i"%char flags;
          lastIndex := 0 |}.

(* ================================================================== *)
(** * AI pattern definitions (humanize.js, [PATTERNS]) *)
(* ================================================================== *)

Module Category.
Record t : Type := {
  name : string;
  description : string;
  weight : nat;
  patterns : list RegExp
}.
End Category.

Fixpoint all_some {A : Type} (l : list (option A)) : option (list A) :=
  match l with
  | [] => Some []
  | Some x :: l' => option_map (cons x) (all_some l')
  | None :: _ => None
  end.

Definition category (name description : string) (weight : nat)
  (patterns : list (option RegExp)) : option Category.t :=
  option_map (Category.Build_t name description weight) (all_some patterns).

Open Scope string_scope.

Definition dquote : string := String (ascii_of_nat 34) EmptyString.

(** The object literal, entry by entry as in the source.  The em dash of
    category 8 is stored in the file as the three characters U+00E2,
    U+20AC, U+201D. *)
Definition PATTERNS_literal : list (string * option Category.t) := [
  (* Category 1: Inflated significance *)
  ("inflated_significance", category
    "Inflated Significance"
    "Puffs up importance with vague significance claims"
    3 [
      rx "\bstands?\s+as\b" "gi";
      rx "\bserves?\s+as\b" "gi";
      rx "\b(is|are)\s+a\s+testament\b" "gi";
      rx "\bunderscores?\s+(its|the|their)\s+importance\b" "gi";
      rx "\bhighlights?\s+(its|the|their)\s+significance\b" "gi";
      rx "\breflects?\s+broader\b" "gi";
      rx "\bsymboliz(es?|ing)\s+(its|the|their)\s+(ongoing|enduring|lasting)\b" "gi";
      rx "\bsetting\s+the\s+stage\s+for\b" "gi";
      rx "\bmarking\s+a\s+(pivotal|key|crucial)\s+moment\b" "gi";
      rx "\brepresents?\s+a\s+shift\b" "gi";
      rx "\bevolving\s+landscape\b" "gi";
      rx "\bindelible\s+mark\b" "gi";
      rx "\bdeeply\s+rooted\b" "gi"
    ]);
  (* Category 2: Superficial -ing analyses *)
  ("superficial_ing", category
    "Superficial -ing Endings"
    "Tacks -ing phrases for fake depth"
    2 [
      rx ",\s*(highlighting|underscoring|emphasizing|reflecting|symbolizing|showcasing|encompassing|cultivating|fostering)\s+" "gi";
      rx ",\s*ensuring\s+(that\s+)?[^,.]+[,.]" "gi";
      rx ",\s*contributing\s+to\s+" "gi"
    ]);
  (* Category 3: Promotional language *)
  ("promotional", category
    "Promotional Language"
    "Advertisement-like, non-neutral tone"
    3 [
      rx "\bboasts?\s+a\b" "gi";
      rx "\bvibrant\b" "gi";
      rx "\bprofound\b" "gi";
      rx "\bgroundbreaking\b" "gi";
      rx "\brenowned\b" "gi";
      rx "\bbreathtaking\b" "gi";
      rx "\bmust-visit\b" "gi";
      rx "\bstunning\b" "gi";
      rx "\bnestled\b" "gi";
      rx "\bin\s+the\s+heart\s+of\b" "gi";
      rx "\brich\s+(cultural\s+)?heritage\b" "gi";
      rx "\bnatural\s+beauty\b" "gi";
      rx "\bexemplif(y|ies)\b" "gi";
      rx "\bcommitment\s+to\b" "gi"
    ]);
  (* Category 4: AI vocabulary words *)
  ("ai_vocabulary", category
    "AI Vocabulary"
    "Words overused by AI models"
    2 [
      rx "\bAdditionally\b" "g";
      rx "\balign\s+with\b" "gi";
      rx "\bcrucial\b" "gi";
      rx "\bdelve\b" "gi";
      rx "\benduring\b" "gi";
      rx "\benhance[ds]?\b" "gi";
      rx "\bfostering\b" "gi";
      rx "\bgarner[s]?\b" "gi";
      rx "\binterplay\b" "gi";
      rx "\bintricat(e|es|ies)\b" "gi";
      rx "\blandscape\b" "gi"; (* abstract use *)
      rx "\bpivotal\b" "gi";
      rx "\bshowcas(e|es|ing)\b" "gi";
      rx "\btapestry\b" "gi"; (* abstract use *)
      rx "\bunderscore[sd]?\b" "gi";
      rx "\bvaluable\b" "gi";
      rx "\bseamless(ly)?\b" "gi";
      rx "\brobust\b" "gi";
      rx "\bleverag(e|es|ing)\b" "gi";
      rx "\bfacilitat(e|es|ing)\b" "gi";
      rx "\boptimiz(e|es|ing)\b" "gi";
      rx "\bholistic\b" "gi";
      rx "\bsynerg(y|ies|istic)\b" "gi";
      rx "\bparadigm\b" "gi";
      rx "\bmeticulously\b" "gi";
      rx "\bcomprehensive\b" "gi";
      rx "\bnavigat(e|es|ing)\b" "gi";
      rx "\bunravel\b" "gi";
      rx "\bembark\s+on\b" "gi";
      rx "\bdelve\s+into\b" "gi";
      rx "\btestament\b" "gi";
      rx "\bundeniably\b" "gi";
      rx "\bintricate\b" "gi";
      rx "\bpivot\b" "gi"
    ]);
  (* Category 5: Vague attributions *)
  ("vague_attribution", category
    "Vague Attributions"
    "Attributes claims to unnamed experts"
    3 [
      rx "\b(Industry|Some|Many)\s+experts?\s+(believe|argue|suggest|say)\b" "gi";
      rx "\bObservers\s+have\s+cited\b" "gi";
      rx "\b(Some|Many)\s+critics\s+argue\b" "gi";
      rx "\bseveral\s+(sources|publications)\b" "gi";
      rx "\bwidely\s+(believed|considered|regarded)\b" "gi"
    ]);
  (* Category 6: Negative parallelisms *)
  ("negative_parallelism", category
    "Negative Parallelism"
    ("Overused " ++ dquote ++ "not only...but also" ++ dquote ++ " constructions")
    2 [
      rx "\bNot\s+only\b.*\bbut\s+(also\s+)?" "gi";
      rx "\bIt'?s\s+not\s+just\s+about\b.*\bit'?s\s+(about\s+)?" "gi";
      rx "\bIt'?s\s+not\s+(merely|simply)\b.*\bit'?s\b" "gi"
    ]);
  (* Category 7: Rule of three *)
  ("rule_of_three", category
    "Rule of Three"
    "Forced groupings of three items"
    1 [
      rx "\b\w+,\s+\w+,\s+and\s+\w+\b" "gi" (* Only count when very close together *)
    ]);
  (* Category 8: Em dash overuse *)
  ("em_dash", category
    "Em Dash Overuse"
    "Excessive use of em dashes"
    1 [
      rx_of_chars [226; 8364; 8221]%N "g"; (* Unicode em dash *)
      rx "--" "g" (* Double hyphen as em dash *)
    ]);
  (* Category 9: Copula avoidance *)
  ("copula_avoidance", category
    "Copula Avoidance"
    ("Substitutes " ++ dquote ++ "serves as" ++ dquote ++ " for simple " ++ dquote ++ "is" ++ dquote)
    2 [
      rx "\bserves?\s+as\s+(a|an|the)\b" "gi";
      rx "\bstands?\s+as\s+(a|an|the)\b" "gi";
      rx "\bmarks?\s+(a|an|the)\b" "gi";
      rx "\brepresents?\s+(a|an|the)\b" "gi";
      rx "\bfeatures?\s+(a|an|the)\b" "gi"; (* when "has" would work *)
      rx "\boffers?\s+(a|an|the)\b" "gi"
    ]);
  (* Category 10: Sycophantic tone *)
  ("sycophantic", category
    "Sycophantic Tone"
    "Overly positive, people-pleasing language"
    3 [
      rx "\bGreat\s+question!?\b" "gi";
      rx "\bExcellent\s+point!?\b" "gi";
      rx "\bYou'?re\s+absolutely\s+right\b" "gi";
      rx "\bOf\s+course!\b" "g";
      rx "\bCertainly!\b" "g";
      rx "\bI\s+hope\s+this\s+helps\b" "gi";
      rx "\blet\s+me\s+know\s+if\b" "gi";
      rx "\bI('d| would)\s+be\s+happy\s+to\b" "gi";
      rx "\bWould\s+you\s+like\s+me\s+to\b" "gi";
      rx "\bhappy\s+to\s+help\b" "gi"
    ]);
  (* Category 11: Filler phrases *)
  ("filler", category
    "Filler Phrases"
    "Unnecessary wordy constructions"
    2 [
      rx "\bIn\s+order\s+to\b" "gi";
      rx "\bDue\s+to\s+the\s+fact\s+that\b" "gi";
      rx "\bAt\s+this\s+point\s+in\s+time\b" "gi";
      rx "\bIn\s+the\s+event\s+that\b" "gi";
      rx "\bhas\s+the\s+ability\s+to\b" "gi";
      rx "\bIt\s+is\s+important\s+to\s+note\s+that\b" "gi";
      rx "\bIt\s+should\s+be\s+noted\s+that\b" "gi";
      rx "\bIt\s+is\s+worth\s+mentioning\s+that\b" "gi"
    ]);
  (* Category 12: Generic conclusions *)
  ("generic_conclusion", category
    "Generic Conclusions"
    "Vague upbeat endings"
    2 [
      rx "\bThe\s+future\s+looks\s+bright\b" "gi";
      rx "\bExciting\s+times\s+(lie|lay)\s+ahead\b" "gi";
      rx "\bcontinue\s+their\s+journey\b" "gi";
      rx "\bmajor\s+step\s+in\s+the\s+right\s+direction\b" "gi";
      rx "\bpave\s+the\s+way\s+for\b" "gi"
    ]);
  (* Category 13: Challenges and prospects *)
  ("challenges_prospects", category
    "Challenges & Prospects"
    "Formulaic structure common in AI text"
    2 [
      rx "\bDespite\s+(its|these|their)\s+\w+,\s+faces?\s+several\s+challenges\b" "gi";
      rx "\bDespite\s+these\s+challenges\b" "gi";
      rx "\bFuture\s+Outlook\b" "g";
      rx "\bChallenges\s+and\s+(Legacy|Opportunities|Future)\b" "gi"
    ])
].

Close Scope string_scope.

Definition catalog_of (l : list (string * option Category.t)) : option (list (string * Category.t)) :=
  all_some (map (fun e => option_map (pair (fst e)) (snd e)) l).

(** [PATTERNS]: the catalog with its regexes compiled. *)
Definition PATTERNS : list (string * Category.t) :=
  Eval vm_compute in
    match catalog_of PATTERNS_literal with
    | Some c => c
    | None => []
    end.

(* ================================================================== *)
(** * Analysis functions (humanize.js) *)
(* ================================================================== *)

(** [{text, index, context}] *)
Module Match.
Record t : Type := {
  text : list char;
  index : nat;
  context : list char
}.
End Match.

(** [{...m, category}] *)
Module TaggedMatch.
Record t : Type := {
  text : list char;
  index : nat;
  context : list char;
  category : string
}.
End TaggedMatch.

Module CategoryResult.
Record t : Type := {
  name : string;
  description : string;
  matches : list Match.t;
  weight : nat;
  count : nat
}.
End CategoryResult.

(** The object that [analyzeText] returns; [patterns] is an object used
    as a map, its entries in insertion order. *)
Module AnalysisResult.
Record t : Type := {
  patterns : list (string * CategoryResult.t);
  matches : list TaggedMatch.t;
  totalWeight : nat;
  wordCount : nat
}.
End AnalysisResult.

(** [obj[key] = v]: replaces the value of an existing key in place,
    appends a new key. *)
Fixpoint obj_set {A : Type} (obj : list (string * A)) (key : string) (v : A) : list (string * A) :=
  match obj with
  | [] => [(key, v)]
  | (k, x) :: rest =>
      if String.eqb k key then (k, v) :: rest else (k, x) :: obj_set rest key v
  end.

Fixpoint obj_get {A : Type} (obj : list (string * A)) (key : string) : option A :=
  match obj with
  | [] => None
  | (k, x) :: rest => if String.eqb k key then Some x else obj_get rest key
  end.

Definition contextSize_default : Z := 40.

(** [getContext(text, index, matchLength, contextSize = 40)] *)
Definition getContext (text : list char) (index matchLength : nat) (contextSize : Z) : list char :=
  let len := Z.of_nat (List.length text) in
  let start := Z.max 0 (Z.of_nat index - contextSize) in
  let end_ := Z.min len (Z.of_nat index + Z.of_nat matchLength + contextSize) in
  let context := slice text (Z.to_nat start) (Z.to_nat end_) in
  let context := if (0 <? start)%Z then str "..." ++ context else context in
  let context := if (end_ <? len)%Z then context ++ str "..." else context in
  context.

(** The separator [/\s+/] of the word count. *)
Definition whitespace_run : regex := Plus (Class false [CsSpace]).

(** [text.split(/\s+/).filter(w => w.length > 0).length] *)
Definition count_words (text : list char) : nat :=
  List.length
    (filter (fun w => 0 <? List.length w) (split false text whitespace_run)).

(** The match object of one iteration, as [analyzeText] records it. *)
Definition record_match (text : list char) (m : nat * nat) : Match.t :=
  let '(i, e) := m in
  {| Match.text := slice text i e;
     Match.index := i;
     Match.context := getContext text i (List.length (slice text i e)) contextSize_default |}.

(** The loop over [category.patterns]: the matches pushed to
    [categoryMatches], and the regexes as the loop leaves them. *)
Definition scan_patterns (text : list char) (patterns : list RegExp) : list Match.t * list RegExp :=
  fold_left
    (fun (acc : list Match.t * list RegExp) pattern =>
       let '(categoryMatches, done) := acc in
       let '(found, pattern') := matchAll text pattern in
       (categoryMatches ++ map (record_match text) found, done ++ [pattern']))
    patterns ([], []).

Definition tag (category : Category.t) (m : Match.t) : TaggedMatch.t :=
  {| TaggedMatch.text := Match.text m;
     TaggedMatch.index := Match.index m;
     TaggedMatch.context := Match.context m;
     TaggedMatch.category := Category.name category |}.

(** One round of the loop over [Object.entries(PATTERNS)]. *)
Definition scan_category (text : list char)
  (acc : AnalysisResult.t * list (string * Category.t))
  (entry : string * Category.t) : AnalysisResult.t * list (string * Category.t) :=
  let '(results, done) := acc in
  let '(key, category) := entry in
  let '(categoryMatches, patterns') := scan_patterns text (Category.patterns category) in
  let category' :=
    {| Category.name := Category.name category;
       Category.description := Category.description category;
       Category.weight := Category.weight category;
       Category.patterns := patterns' |} in
  let results' :=
    if 0 <? List.length categoryMatches then
      {| AnalysisResult.patterns :=
           obj_set (AnalysisResult.patterns results) key
             {| CategoryResult.name := Category.name category;
                CategoryResult.description := Category.description category;
                CategoryResult.matches := categoryMatches;
                CategoryResult.weight := Category.weight category;
                CategoryResult.count := List.length categoryMatches |};
         AnalysisResult.matches :=
           AnalysisResult.matches results ++ map (tag category) categoryMatches;
         AnalysisResult.totalWeight :=
           AnalysisResult.totalWeight results
           + Category.weight category * List.length categoryMatches;
         AnalysisResult.wordCount := AnalysisResult.wordCount results |}
    else results in
  (results', done ++ [(key, category')]).

(** [analyzeText(text)], run with the catalog object in state [catalog];
    returned with the result is the catalog as the run leaves it. *)
Definition analyzeText_in (catalog : list (string * Category.t)) (text : list char)
  : AnalysisResult.t * list (string * Category.t) :=
  let results :=
    {| AnalysisResult.patterns := [];
       AnalysisResult.matches := [];
       AnalysisResult.totalWeight := 0;
       AnalysisResult.wordCount := count_words text |} in
  fold_left (scan_category text) catalog (results, []).

(** [analyzeText(text)] in a freshly loaded module. *)
Definition analyzeText (text : list char) : AnalysisResult.t :=
  fst (analyzeText_in PATTERNS text).

(** [calculateScore(analysis)] *)
Definition calculateScore (analysis : AnalysisResult.t) : Number.number :=
  let weightPerHundredWords :=
    Number.mul
      (Number.div (Number.of_nat (AnalysisResult.totalWeight analysis))
                  (Number.of_nat (AnalysisResult.wordCount analysis)))
      (Number.of_Z 100) in
  let score :=
    Number.min (Number.of_Z 100)
      (Number.round (Number.mul weightPerHundredWords (Number.of_Z 5))) in
  score.

Open Scope string_scope.

(** [getScoreLabel(score)].  The file stores the emoji that starts each
    label as the characters written here. *)
Definition getScoreLabel (score : Number.number) : string :=
  if Number.leb score (Number.of_Z 10) then "âœ… Very Human"
  else if Number.leb score (Number.of_Z 25) then "ðŸ‘ Mostly Human"
  else if Number.leb score (Number.of_Z 50) then "âš ï¸ Some AI Patterns"
  else if Number.leb score (Number.of_Z 75) then "ðŸ¤– Likely AI"
  else "ðŸš¨ Very AI-like".

Close Scope string_scope.

(* ================================================================== *)
(** * Input check of [main] (humanize.js) *)
(* ================================================================== *)

Fixpoint trimStart (s : list char) : list char :=
  match s with
  | [] => []
  | c :: s' => if is_space c then trimStart s' else s
  end.

(** [s.trim()] *)
Definition trim (s : list char) : list char :=
  rev (trimStart (rev (trimStart s))).

(** The test [!text || text.trim().length === 0] of [main]: when it
    holds, [main] reports that no text was provided and exits before
    it calls [analyzeText]. *)
Definition no_text_provided (text : list char) : bool :=
  (List.length text =? 0) || (List.length (trim text) =? 0).

(* ================================================================== *)
(** * Definitions used in the statements *)
(* ================================================================== *)

(** The five labels. *)
Definition label_very_human : string := "âœ… Very Human".
Definition label_mostly_human : string := "ðŸ‘ Mostly Human".
Definition label_some_ai_patterns : string := "âš ï¸ Some AI Patterns".
Definition label_likely_ai : string := "ðŸ¤– Likely AI".
Definition label_very_ai_like : string := "ðŸš¨ Very AI-like".

(** The scorer as the specification words it: density over
    [max(wordCount, 1)], times 5, clamped to [0, 100], then rounded. *)
Definition spec_score (analysis : AnalysisResult.t) : Number.number :=
  let weightedDensity :=
    Number.mul
      (Number.div (Number.of_nat (AnalysisResult.totalWeight analysis))
                  (Number.of_nat (Nat.max (AnalysisResult.wordCount analysis) 1)))
      (Number.of_Z 100) in
  let rawScore := Number.mul weightedDensity (Number.of_Z 5) in
  Number.round (Number.min (Number.of_Z 100) (Number.max (Number.of_Z 0) rawScore)).

(** What the two inner loops of [analyzeText] push for one pattern and
    for one category. *)
Definition pattern_matches (text : list char) (p : RegExp) : list Match.t :=
  map (record_match text) (fst (matchAll text p)).

Definition category_matches (text : list char) (c : Category.t) : list Match.t :=
  flat_map (pattern_matches text) (Category.patterns c).

Definition category_result (c : Category.t) (ms : list Match.t) : CategoryResult.t :=
  {| CategoryResult.name := Category.name c;
     CategoryResult.description := Category.description c;
     CategoryResult.matches := ms;
     CategoryResult.weight := Category.weight c;
     CategoryResult.count := List.length ms |}.

Definition has_matches (text : list char) (e : string * Category.t) : bool :=
  0 <? List.length (category_matches text (snd e)).

(** The three accumulated fields after the categories [P]. *)
Definition entries (text : list char) (P : list (string * Category.t))
  : list (string * CategoryResult.t) :=
  map (fun e => (fst e, category_result (snd e) (category_matches text (snd e))))
      (filter (has_matches text) P).

Definition tagged (text : list char) (P : list (string * Category.t)) : list TaggedMatch.t :=
  flat_map (fun e => map (tag (snd e)) (category_matches text (snd e))) P.

Definition weights (text : list char) (P : list (string * Category.t)) : nat :=
  list_sum
    (map (fun e => Category.weight (snd e) * List.length (category_matches text (snd e))) P).

(** The code units for which [is_space] holds. *)
Definition all_spaces : list char :=
  [9; 10; 11; 12; 13; 32; 160; 5760; 8192; 8193; 8194; 8195; 8196; 8197;
   8198; 8199; 8200; 8201; 8202; 8232; 8233; 8239; 8287; 12288; 65279]%N.

(** A sufficient test for a regex to match nowhere in a string of
    whitespace: some part that every match goes through asks for a
    character that is not whitespace, or for a word boundary. *)
Fixpoint fails_on_blank (ic : bool) (r : regex) : bool :=
  match r with
  | Empty | Dot | Opt _ | Star _ => false
  | Chr c =>
      forallb (fun t => negb (N.eqb (canonicalize ic t) (canonicalize ic c))) all_spaces
  | Class negated items =>
      forallb (fun t => negb (xorb negated (existsb (cset_mem ic t) items))) all_spaces
  | WordB => true
  | Seq r1 r2 => fails_on_blank ic r1 || fails_on_blank ic r2
  | Alt r1 r2 => fails_on_blank ic r1 && fails_on_blank ic r2
  | Plus r1 => fails_on_blank ic r1
  end.

Definition regexp_fails_on_blank (p : RegExp) : bool :=
  fails_on_blank (ignoreCase p) (source p).

(** The marker that [getContext] adds, and tests for it. *)
Definition ellipsis : list char := str "...".

Fixpoint chars_eqb (a b : list char) : bool :=
  match a, b with
  | [], [] => true
  | x :: a', y :: b' => N.eqb x y && chars_eqb a' b'
  | _, _ => false
  end.

Definition starts_with (p l : list char) : bool :=
  chars_eqb (firstn (List.length p) l) p.

Definition ends_with (p l : list char) : bool :=
  chars_eqb (skipn (List.length l - List.length p) l) p.

(** The window of 40 characters on each side of a match goes past the
    start, or past the end, of the document. *)
Definition clipped_at_start (index : nat) : bool :=
  (Z.of_nat index - contextSize_default <? 0)%Z.

Definition clipped_at_end (text : list char) (index matchLength : nat) : bool :=
  (Z.of_nat (List.length text)
   <? Z.of_nat index + Z.of_nat matchLength + contextSize_default)%Z.

(** The context of a match, described from the text: the slice from 40
    characters before the match to 40 after it, cut at the ends of the
    text, with the marker in front when text before the slice is left
    out and behind when text after it is. *)
Definition window (text : list char) (index : nat) (matched : list char) : list char :=
  let i := Z.of_nat index in
  let l := Z.of_nat (List.length matched) in
  let n := Z.of_nat (List.length text) in
  (if (40 <? i)%Z then ellipsis else [])
  ++ slice text (Z.to_nat (Z.max 0 (i - 40))) (Z.to_nat (Z.min n (i + l + 40)))
  ++ (if (i + l + 40 <? n)%Z then ellipsis else []).

(** The indices at which one pattern matches. *)
Definition match_indices (text : list char) (p : RegExp) : list nat :=
  map fst (fst (matchAll text p)).

(** The value that [calculateScore] rounds, for a word count that is
    not zero. *)
Definition raw_score (tw wc : nat) : Q :=
  (inject_Z (Z.of_nat tw) / inject_Z (Z.of_nat wc) * inject_Z 100 * inject_Z 5)%Q.

(** The two texts of the test suite. *)
Definition aiText : list char :=
  str "This groundbreaking innovation serves as a testament to our commitment to excellence".

Definition humanText : list char :=
  str "The company released a product. It costs fifty dollars.".

(** The keys of the [patterns] object of an analysis. *)
Definition detected (text : list char) : list string :=
  map fst (AnalysisResult.patterns (analyzeText text)).

(* ================================================================== *)
(** * Definitions used in the further properties *)
(* ================================================================== *)

(** A lower bound on the length of what a regex matches. *)
Fixpoint min_length (r : regex) : nat :=
  match r with
  | Empty | WordB | Opt _ | Star _ => 0
  | Chr _ | Dot | Class _ _ => 1
  | Seq r1 r2 => min_length r1 + min_length r2
  | Alt r1 r2 => Nat.min (min_length r1) (min_length r2)
  | Plus r1 => min_length r1
  end.

(** All the regexes of the catalog, in order. *)
Definition all_patterns : list RegExp :=
  flat_map (fun e => Category.patterns (snd e)) PATTERNS.

(** The first match ends before the second starts. *)
Definition no_overlap (m m' : Match.t) : Prop :=
  Match.index m + List.length (Match.text m) <= Match.index m'.

(** [{...m, category: name}] *)
Definition tag_with (name : string) (m : Match.t) : TaggedMatch.t :=
  {| TaggedMatch.text := Match.text m;
     TaggedMatch.index := Match.index m;
     TaggedMatch.context := Match.context m;
     TaggedMatch.category := name |}.

(** The number of maximal runs of characters that are not whitespace;
    [in_word] says that the character before was in such a run. *)
Fixpoint count_runs (in_word : bool) (s : list char) : nat :=
  match s with
  | [] => 0
  | c :: s' =>
      if is_space c then count_runs false s'
      else (if in_word then 0 else 1) + count_runs true s'
  end.

(** The number of whitespace characters that [s] starts with. *)
Fixpoint span_spaces (s : list char) : nat :=
  match s with
  | [] => 0
  | c :: s' => if is_space c then S (span_spaces s') else 0
  end.

(** Two texts that differ at most in the case of ASCII letters. *)
Definition same_letters (t t' : list char) : Prop :=
  map (canonicalize true) t = map (canonicalize true) t'.

(** Whether the regex of [p] matches in [text] from index [i] on. *)
Definition occurs_at (text : list char) (p : RegExp) (i : nat) : bool :=
  match match_at (ignoreCase p) text (source p) i with
  | Some _ => true
  | None => false
  end.

(* ================================================================== *)
(** * Output functions (humanize.js) *)
(* ================================================================== *)

(** The code units of a string literal of the source file, which is
    well-formed UTF-8: a byte below 128 is a code unit, a sequence of
    two or three bytes gives one code unit, one of four bytes a
    surrogate pair. *)
Fixpoint utf8_decode (bytes : list N) : list char :=
  match bytes with
  | [] => []
  | b0 :: rest =>
      if (b0 <? 128)%N then b0 :: utf8_decode rest
      else if (b0 <? 224)%N then
        match rest with
        | b1 :: rest' => ((b0 - 192) * 64 + (b1 - 128))%N :: utf8_decode rest'
        | _ => [65533%N]
        end
      else if (b0 <? 240)%N then
        match rest with
        | b1 :: b2 :: rest' =>
            ((b0 - 224) * 4096 + (b1 - 128) * 64 + (b2 - 128))%N :: utf8_decode rest'
        | _ => [65533%N]
        end
      else
        match rest with
        | b1 :: b2 :: b3 :: rest' =>
            let cp := ((b0 - 240) * 262144 + (b1 - 128) * 4096
                       + (b2 - 128) * 64 + (b3 - 128))%N in
            (55296 + (cp - 65536) / 1024)%N
              :: (56320 + (cp - 65536) mod 1024)%N :: utf8_decode rest'
        | _ => [65533%N]
        end
  end.

Definition js (s : string) : list char :=
  utf8_decode (map N_of_ascii (list_ascii_of_string s)).

(** ToString of a length or a count: its decimal digits. *)
Definition decimal (n : nat) : list char :=
  str (DecimalString.NilZero.string_of_uint (Nat.to_uint n)).

(** ToString of a Number, for NaN, the infinities and the integers
    below 10^21 in absolute value, which print as their decimal digits.
    Any other number prints as the shortest decimal expansion that reads
    back as the same binary64 value, which is not modelled: [None]. *)
Definition number_to_string (x : Number.number) : option (list char) :=
  match x with
  | Number.NaN => Some (str "NaN")
  | Number.PosInf => Some (str "Infinity")
  | Number.NegInf => Some (str "-Infinity")
  | Number.Num q =>
      let z := Qfloor q in
      if Qeq_bool (inject_Z z) q && (Z.abs z <? 10 ^ 21)%Z then
        Some ((if (z <? 0)%Z then str "-" else []) ++ decimal (Z.abs_nat z))
      else None
  end.

Definition tab : list char := [9%N].

(** [formatScore(analysis)] *)
Definition formatScore (analysis : AnalysisResult.t) : option (list char) :=
  let score := calculateScore analysis in
  match number_to_string score with
  | Some score_string =>
      Some (score_string ++ tab ++ js (getScoreLabel score) ++ tab
            ++ decimal (AnalysisResult.wordCount analysis) ++ str " words" ++ tab
            ++ decimal (List.length (AnalysisResult.matches analysis))
            ++ str " patterns")
  | None => None
  end.

(* ================================================================== *)
(** * Reading the score line (test suite) *)
(* ================================================================== *)

(** [s.split(sep)] for a separator of one code unit. *)
Fixpoint split_on (sep : char) (s : list char) : list (list char) :=
  match s with
  | [] => [[]]
  | c :: s' =>
      if N.eqb c sep then [] :: split_on sep s'
      else match split_on sep s' with
           | field :: fields => (c :: field) :: fields
           | [] => [[c]]
           end
  end.

Definition is_digit (c : char) : bool := in_range 48 57 c.

(** The value of a digit of [parseInt]: [0-9], then [a-z] or [A-Z] from
    10 on. *)
Definition digit_value (c : char) : option N :=
  if in_range 48 57 c then Some (c - 48)%N
  else if in_range 97 122 c then Some (c - 87)%N
  else if in_range 65 90 c then Some (c - 55)%N
  else None.

(** The digits below [radix] that [s] starts with. *)
Fixpoint leading_digits (radix : N) (s : list char) : list N :=
  match s with
  | [] => []
  | c :: s' =>
      match digit_value c with
      | Some d => if (d <? radix)%N then d :: leading_digits radix s' else []
      | None => []
      end
  end.

Definition digits_value (radix : N) (digits : list N) : N :=
  fold_left (fun acc d => radix * acc + d)%N digits 0%N.

(** [parseInt(s)], without a radix: leading whitespace, a sign, [0x] or
    [0X] for radix 16, then the digits; NaN without a digit. *)
Definition parseInt (s : list char) : Number.number :=
  let s := trimStart s in
  let '(negative, s) :=
    match s with
    | 45%N :: s' => (true, s')
    | 43%N :: s' => (false, s')
    | _ => (false, s)
    end in
  let '(radix, s) :=
    match s with
    | 48%N :: 120%N :: s' => (16%N, s')
    | 48%N :: 88%N :: s' => (16%N, s')
    | _ => (10%N, s)
    end in
  match leading_digits radix s with
  | [] => Number.NaN
  | digits =>
      let n := Z.of_N (digits_value radix digits) in
      Number.of_Z (if negative then - n else n)
  end.

(** [isNaN(x)] for a Number. *)
Definition isNaN (x : Number.number) : bool :=
  match x with
  | Number.NaN => true
  | _ => false
  end.

(* ================================================================== *)
(** * Properties of an object literal *)
(* ================================================================== *)

(** [obj_get] finds the own property of an object.  An object literal
    also inherits the properties of [Object.prototype]. *)
Open Scope string_scope.

(** The names of the properties of [Object.prototype]. *)
Definition Object_prototype : list string :=
  ["constructor"; "__defineGetter__"; "__defineSetter__"; "hasOwnProperty";
   "__lookupGetter__"; "__lookupSetter__"; "isPrototypeOf";
   "propertyIsEnumerable"; "toString"; "valueOf"; "__proto__"; "toLocaleString"].

Close Scope string_scope.

(** What [obj[key]] is for an object literal [obj] and a string [key]:
    the value of the own property, a property of [Object.prototype], or
    [undefined]. *)
Inductive property (A : Type) : Type :=
| Own (value : A)
| Inherited
| Undefined.

Arguments Inherited {A}.
Arguments Undefined {A}.

Definition get_property {A : Type} (obj : list (string * A)) (key : string) : property A :=
  match obj_get obj key with
  | Some value => Own value
  | None => if existsb (String.eqb key) Object_prototype then Inherited else Undefined
  end.

(* ================================================================== *)
(** * Checks on a regex for text that is appended *)
(* ================================================================== *)

(** A marker is a set of characters: the characters that are not
    whitespace, or the ones whose canonical form is in a list.  The
    number of marked characters in a match bounds what a match can
    hold. *)
Inductive marker : Type :=
| NonSpace
| OneOf (l : list char).

Definition marks (ic : bool) (M : marker) (t : char) : bool :=
  match M with
  | NonSpace => negb (is_space t)
  | OneOf l => existsb (N.eqb (canonicalize ic t)) l
  end.

Definition count_marks (ic : bool) (M : marker) (l : list char) : nat :=
  List.length (filter (marks ic M) l).

(** Whether a member of a class can be a marked character. *)
Definition item_may (ic : bool) (M : marker) (item : cset) : bool :=
  match M, item with
  | NonSpace, CsChar a => negb (is_space a)
  | NonSpace, CsSpace => false
  | NonSpace, CsWord => true
  | OneOf l, CsChar a => existsb (N.eqb (canonicalize ic a)) l
  | OneOf l, CsSpace => existsb is_space l
  | OneOf l, CsWord => existsb is_word l
  end.

(** Whether every character that the member stands for is marked. *)
Definition item_must (ic : bool) (M : marker) (item : cset) : bool :=
  match M, item with
  | NonSpace, CsChar a => negb (is_space a)
  | NonSpace, CsSpace => false
  | NonSpace, CsWord => true
  | OneOf l, CsChar a => existsb (N.eqb (canonicalize ic a)) l
  | OneOf l, _ => false
  end.

(** Whether every marked character is a member of the class. *)
Definition covers (ic : bool) (M : marker) (items : list cset) : bool :=
  match M with
  | NonSpace => false
  | OneOf l =>
      forallb (fun x => existsb (fun item => match item with
                                             | CsChar a => N.eqb (canonicalize ic a) x
                                             | _ => false
                                             end) items) l
  end.

Definition option_add (a b : option nat) : option nat :=
  match a, b with
  | Some x, Some y => Some (x + y)
  | _, _ => None
  end.

Definition option_max (a b : option nat) : option nat :=
  match a, b with
  | Some x, Some y => Some (Nat.max x y)
  | _, _ => None
  end.

Definition repeated (a : option nat) : option nat :=
  match a with
  | Some O => Some O
  | _ => None
  end.

(** The least number of marked characters in a match of [r], and the
    greatest when there is one. *)
Fixpoint min_marks (ic : bool) (M : marker) (r : regex) : nat :=
  match r with
  | Empty | WordB | Dot | Class true _ | Opt _ | Star _ => 0
  | Chr c => if marks ic M c then 1 else 0
  | Class false items => if forallb (item_must ic M) items then 1 else 0
  | Seq r1 r2 => min_marks ic M r1 + min_marks ic M r2
  | Alt r1 r2 => Nat.min (min_marks ic M r1) (min_marks ic M r2)
  | Plus r1 => min_marks ic M r1
  end.

Fixpoint max_marks (ic : bool) (M : marker) (r : regex) : option nat :=
  match r with
  | Empty | WordB => Some 0
  | Chr c => Some (if marks ic M c then 1 else 0)
  | Dot => Some 1
  | Class false items => Some (if existsb (item_may ic M) items then 1 else 0)
  | Class true items => Some (if covers ic M items then 0 else 1)
  | Seq r1 r2 => option_add (max_marks ic M r1) (max_marks ic M r2)
  | Alt r1 r2 => option_max (max_marks ic M r1) (max_marks ic M r2)
  | Opt r1 => max_marks ic M r1
  | Star r1 | Plus r1 => repeated (max_marks ic M r1)
  end.

(** Every match of [r] has the same number of marked characters. *)
Definition exact_marks (ic : bool) (M : marker) (r : regex) : bool :=
  match max_marks ic M r with
  | Some k => k =? min_marks ic M r
  | None => false
  end.

(** No match of [r] has room for two matches of [r]. *)
Definition no_room_for_two (ic : bool) (M : marker) (r : regex) : bool :=
  match max_marks ic M r with
  | Some k => k <? 2 * min_marks ic M r
  | None => false
  end.

Fixpoint zero_width (r : regex) : bool :=
  match r with
  | Empty | WordB => true
  | Seq r1 r2 => zero_width r1 && zero_width r2
  | _ => false
  end.

(** Every match of [r] starts, or ends, with a marked character. *)
Fixpoint first_marked (ic : bool) (M : marker) (r : regex) : bool :=
  match r with
  | Chr c => marks ic M c
  | Seq r1 r2 => first_marked ic M r1 || (zero_width r1 && first_marked ic M r2)
  | Alt r1 r2 => first_marked ic M r1 && first_marked ic M r2
  | Plus r1 => first_marked ic M r1
  | _ => false
  end.

Fixpoint last_marked (ic : bool) (M : marker) (r : regex) : bool :=
  match r with
  | Chr c => marks ic M c
  | Seq r1 r2 => last_marked ic M r2 || (zero_width r2 && last_marked ic M r1)
  | Alt r1 r2 => last_marked ic M r1 && last_marked ic M r2
  | _ => false
  end.

(** The markers that are tried: the characters that are not whitespace,
    one printable ASCII character, the comma and the full stop. *)
Definition markers : list marker :=
  NonSpace :: OneOf [44%N; 46%N] :: map (fun c => OneOf [N.of_nat c]) (List.seq 33 94).

Definition is_dot_star (r : regex) : bool :=
  match r with
  | Star Dot => true
  | _ => false
  end.

(** A regex [A.*B] as [A] and [B]. *)
Fixpoint split_dot_star (r : regex) : option (regex * regex) :=
  match r with
  | Seq x rest =>
      if is_dot_star x then Some (Empty, rest)
      else match split_dot_star rest with
           | Some (A, B) => Some (Seq x A, B)
           | None => None
           end
  | _ => None
  end.

Definition dot_star_stable (ic : bool) (r : regex) : bool :=
  match split_dot_star r with
  | Some (A, B) =>
      existsb (fun M => exact_marks ic M A && last_marked ic M A) markers
      && existsb (fun M => exact_marks ic M B && first_marked ic M B) markers
  | None => false
  end.

(** The check that a regex keeps its matches when text is appended. *)
Definition append_stable (p : RegExp) : bool :=
  existsb (fun M => no_room_for_two (ignoreCase p) M (source p)) markers
  || dot_star_stable (ignoreCase p) (source p).

(** The ends that lie in the first [n] characters. *)
Definition keep (n : nat) (l : list nat) : list nat :=
  filter (fun e => e <=? n) l.

(** A regex for which a match that runs into appended text never takes
    the place of two matches of the text before it. *)
Definition swallow_free (ic : bool) (r : regex) : Prop :=
  forall (s suffix : list char) (c : char) (lastIndex a e a' e' : nat),
    is_word c = false ->
    exec ic s r lastIndex = Some (a, e) ->
    exec ic (s ++ c :: suffix) r lastIndex = Some (a', e') ->
    List.length s < e' ->
    exec ic s r e = None.

(* ================================================================== *)
(** * Numbers: comparison and rounding *)
(* ================================================================== *)

Lemma Qle_bool_inject_Z (a b : Z) :
  Qle_bool (inject_Z a) (inject_Z b) = (a <=? b)%Z.
Proof.
  unfold Qle_bool; simpl. now rewrite !Z.mul_1_r.
Qed.

Lemma leb_of_Z (a b : Z) :
  Number.leb (Number.of_Z a) (Number.of_Z b) = (a <=? b)%Z.
Proof. apply Qle_bool_inject_Z. Qed.

Lemma Qle_bool_false (x y : Q) : Qle_bool x y = false <-> (y < x)%Q.
Proof.
  split; intro H.
  - apply Qnot_le_lt. intro L. apply Qle_bool_iff in L. congruence.
  - destruct (Qle_bool x y) eqn:E; [|reflexivity].
    apply Qle_bool_iff in E. exfalso. eapply Qlt_not_le; eassumption.
Qed.


(* ================================================================== *)
(** * Labels *)
(* ================================================================== *)

(** C4.  An integer score from 0 to 10 is labelled Very Human, from 11
    to 25 Mostly Human, from 26 to 50 Some AI Patterns, from 51 to 75
    Likely AI and from 76 to 100 Very AI-like; the cut points 10, 11,
    25, 26, 50, 51, 75 and 76 fall on the side the bands say. *)
Theorem label_bands (k : Z) :
  ((0 <= k <= 10)%Z -> getScoreLabel (Number.of_Z k) = label_very_human) /\
  ((11 <= k <= 25)%Z -> getScoreLabel (Number.of_Z k) = label_mostly_human) /\
  ((26 <= k <= 50)%Z -> getScoreLabel (Number.of_Z k) = label_some_ai_patterns) /\
  ((51 <= k <= 75)%Z -> getScoreLabel (Number.of_Z k) = label_likely_ai) /\
  ((76 <= k <= 100)%Z -> getScoreLabel (Number.of_Z k) = label_very_ai_like) /\
  map (fun b => getScoreLabel (Number.of_Z b)) [10; 11; 25; 26; 50; 51; 75; 76]%Z
  = [label_very_human; label_mostly_human;
     label_mostly_human; label_some_ai_patterns;
     label_some_ai_patterns; label_likely_ai;
     label_likely_ai; label_very_ai_like].
Proof.
  unfold getScoreLabel. rewrite !leb_of_Z.
  repeat split; try reflexivity; intros [L U];
    repeat match goal with
    | |- context [(?a <=? ?b)%Z] => destruct (Z.leb_spec a b); try lia
    end; reflexivity.
Qed.

Lemma label_bands_witness :
  getScoreLabel (Number.of_Z 50) = label_some_ai_patterns
  /\ getScoreLabel (Number.of_Z 51) = label_likely_ai.
Proof.
  split.
  - apply (proj1 (proj2 (proj2 (label_bands 50)))). lia.
  - apply (proj1 (proj2 (proj2 (proj2 (label_bands 51))))). lia.
Defined.

(** C10.  [getScoreLabel] labels every Number: one for which none of the
    four comparisons holds gets the top band, as do [NaN] and every
    value above 100; every negative value gets Very Human. *)
Theorem label_total (score : Number.number) :
  (Number.leb score (Number.of_Z 10) = false ->
   Number.leb score (Number.of_Z 25) = false ->
   Number.leb score (Number.of_Z 50) = false ->
   Number.leb score (Number.of_Z 75) = false ->
   getScoreLabel score = label_very_ai_like) /\
  (Number.ltb (Number.of_Z 100) score = true ->
   getScoreLabel score = label_very_ai_like) /\
  (Number.ltb score (Number.of_Z 0) = true ->
   getScoreLabel score = label_very_human) /\
  getScoreLabel Number.NaN = label_very_ai_like.
Proof.
  repeat split; try reflexivity.
  - intros H1 H2 H3 H4. unfold getScoreLabel. now rewrite H1, H2, H3, H4.
  - destruct score as [| | |q]; simpl; try discriminate; try reflexivity.
    intro H. apply Bool.negb_true_iff, Qle_bool_false in H.
    unfold getScoreLabel; simpl.
    assert (F : forall z, (z <= 100)%Z -> Qle_bool q (inject_Z z) = false).
    { intros z Hz. apply Qle_bool_false.
      eapply Qle_lt_trans; [|exact H]. rewrite <- Zle_Qle. exact Hz. }
    rewrite !F by lia. reflexivity.
  - destruct score as [| | |q]; simpl; try discriminate; try reflexivity.
    intro H. apply Bool.negb_true_iff, Qle_bool_false in H.
    unfold getScoreLabel; simpl.
    assert (T : Qle_bool q (inject_Z 10) = true).
    { apply Qle_bool_iff. apply Qlt_le_weak. eapply Qlt_trans; [exact H|].
      reflexivity. }
    now rewrite T.
Qed.

Lemma label_total_witness :
  getScoreLabel Number.PosInf = label_very_ai_like
  /\ getScoreLabel (Number.of_Z 101) = label_very_ai_like
  /\ getScoreLabel Number.NegInf = label_very_human.
Proof.
  split; [|split].
  - apply (proj1 (label_total Number.PosInf)); reflexivity.
  - apply (proj1 (proj2 (label_total (Number.of_Z 101)))); reflexivity.
  - apply (proj1 (proj2 (proj2 (label_total Number.NegInf)))); reflexivity.
Defined.

(* ================================================================== *)
(** * The score *)
(* ================================================================== *)

Lemma Qzero_bool_of_nat (n : nat) :
  Number.Qzero_bool (inject_Z (Z.of_nat n)) = (n =? 0).
Proof.
  unfold Number.Qzero_bool, Qeq_bool; simpl. rewrite Z.mul_1_r.
  destruct n; reflexivity.
Qed.

Lemma Qneg_bool_of_nat (n : nat) :
  Number.Qneg_bool (inject_Z (Z.of_nat n)) = false.
Proof.
  unfold Number.Qneg_bool. apply Bool.negb_false_iff.
  change 0%Q with (inject_Z 0). rewrite Qle_bool_inject_Z.
  apply Z.leb_le. lia.
Qed.

Lemma min_Num (a b : Q) :
  Number.min (Number.Num a) (Number.Num b)
  = if Qle_bool a b then Number.Num a else Number.Num b.
Proof. reflexivity. Qed.

Lemma min_of_Z (a b : Z) :
  Number.min (Number.of_Z a) (Number.of_Z b) = Number.of_Z (Z.min a b).
Proof.
  unfold Number.min. change (Number.of_Z a) with (Number.Num (inject_Z a)).
  change (Number.of_Z b) with (Number.Num (inject_Z b)).
  cbv beta iota. fold (Number.of_Z a). fold (Number.of_Z b).
  rewrite leb_of_Z.
  destruct (Z.leb_spec a b); f_equal; lia.
Qed.

Lemma raw_score_nonneg (tw wc : nat) : (0 <= raw_score tw wc)%Q.
Proof.
  unfold raw_score, Qdiv.
  assert (N : forall n, (0 <= inject_Z (Z.of_nat n))%Q).
  { intro n. change 0%Q with (inject_Z 0). rewrite <- Zle_Qle. lia. }
  repeat apply Qmult_le_0_compat; try apply N; try discriminate.
  apply Qinv_le_0_compat, N.
Qed.

Lemma raw_score_mono (tw tw' wc : nat) :
  tw <= tw' -> (raw_score tw wc <= raw_score tw' wc)%Q.
Proof.
  intro H. unfold raw_score, Qdiv.
  assert (N : forall n, (0 <= inject_Z (Z.of_nat n))%Q).
  { intro n. change 0%Q with (inject_Z 0). rewrite <- Zle_Qle. lia. }
  repeat apply Qmult_le_compat_r; try discriminate.
  - rewrite <- Zle_Qle. lia.
  - apply Qinv_le_0_compat, N.
Qed.

Lemma div_of_nat (tw wc : nat) :
  wc <> 0 ->
  Number.div (Number.of_nat tw) (Number.of_nat wc)
  = Number.Num (inject_Z (Z.of_nat tw) / inject_Z (Z.of_nat wc))%Q.
Proof.
  intro H. unfold Number.of_nat, Number.of_Z, Number.div.
  rewrite (Qzero_bool_of_nat wc).
  destruct (Nat.eqb_spec wc 0); [contradiction|reflexivity].
Qed.

(** With a word the score is the rounded raw score, capped at 100. *)
Lemma calculateScore_words (a : AnalysisResult.t) :
  1 <= AnalysisResult.wordCount a ->
  calculateScore a
  = Number.of_Z
      (Z.min 100
         (Qfloor (raw_score (AnalysisResult.totalWeight a)
                            (AnalysisResult.wordCount a) + (1 # 2))%Q)).
Proof.
  intro H. unfold calculateScore. rewrite div_of_nat by lia.
  rewrite <- min_of_Z. reflexivity.
Qed.

Lemma div_of_nat_zero (tw : nat) :
  Number.div (Number.of_nat tw) (Number.of_nat 0)
  = if tw =? 0 then Number.NaN else Number.PosInf.
Proof.
  unfold Number.of_nat, Number.of_Z. cbv [Number.div].
  change (Number.Qzero_bool (inject_Z (Z.of_nat 0))) with true. cbv iota.
  rewrite Qzero_bool_of_nat, Qneg_bool_of_nat. reflexivity.
Qed.

(** Without a word the quotient is [0/0] or [x/0]. *)
Lemma calculateScore_no_words (a : AnalysisResult.t) :
  AnalysisResult.wordCount a = 0 ->
  calculateScore a
  = if AnalysisResult.totalWeight a =? 0 then Number.NaN else Number.of_Z 100.
Proof.
  intro H. unfold calculateScore. rewrite H, div_of_nat_zero.
  destruct (AnalysisResult.totalWeight a =? 0); reflexivity.
Qed.

Lemma round_floor_nonneg (x : Q) : (0 <= x)%Q -> (0 <= Qfloor (x + (1 # 2))%Q)%Z.
Proof.
  intro H. change 0%Z with (Qfloor 0). apply Qfloor_resp_le. lra.
Qed.

(** The score of an analysis with at least one word is an integer from
    0 to 100. *)
Lemma score_range (a : AnalysisResult.t) :
  1 <= AnalysisResult.wordCount a ->
  exists k : Z, (0 <= k <= 100)%Z /\ calculateScore a = Number.of_Z k.
Proof.
  intro H. rewrite (calculateScore_words a H).
  eexists; split; [|reflexivity].
  pose proof (round_floor_nonneg (raw_score_nonneg (AnalysisResult.totalWeight a)
                                     (AnalysisResult.wordCount a))).
  lia.
Qed.

(** For one word count, not zero, the score grows with the total
    weight. *)
Lemma score_mono (a b : AnalysisResult.t) :
  AnalysisResult.wordCount a = AnalysisResult.wordCount b ->
  1 <= AnalysisResult.wordCount a ->
  AnalysisResult.totalWeight a <= AnalysisResult.totalWeight b ->
  Number.leb (calculateScore a) (calculateScore b) = true.
Proof.
  intros E H L.
  rewrite (calculateScore_words a H), (calculateScore_words b) by lia.
  rewrite leb_of_Z. apply Z.leb_le. apply Z.min_le_compat_l.
  apply Qfloor_resp_le. rewrite <- E.
  pose proof (raw_score_mono (AnalysisResult.wordCount a) L). lra.
Qed.

Lemma spec_score_words (a : AnalysisResult.t) :
  1 <= AnalysisResult.wordCount a -> spec_score a = calculateScore a.
Proof.
  intro H. rewrite (calculateScore_words a H).
  unfold spec_score.
  replace (Nat.max (AnalysisResult.wordCount a) 1) with (AnalysisResult.wordCount a) by lia.
  rewrite div_of_nat by lia.
  change (Number.mul (Number.mul (Number.Num ?q) (Number.of_Z 100)) (Number.of_Z 5))
    with (Number.Num (raw_score (AnalysisResult.totalWeight a) (AnalysisResult.wordCount a))).
  pose proof (raw_score_nonneg (AnalysisResult.totalWeight a) (AnalysisResult.wordCount a)) as P.
  set (x := raw_score _ _) in *.
  assert (M : Number.max (Number.of_Z 0) (Number.Num x) = Number.Num x).
  { unfold Number.max, Number.of_Z, Number.leb.
    replace (Qle_bool (inject_Z 0) x) with true; [reflexivity|].
    symmetry. apply Qle_bool_iff. exact P. }
  rewrite M. change (Number.of_Z 100) with (Number.Num (inject_Z 100)).
  rewrite min_Num.
  destruct (Qle_bool (inject_Z 100) x) eqn:C; unfold Number.round.
  - apply Qle_bool_iff in C. f_equal.
    assert ((100 <= Qfloor (x + (1 # 2))%Q)%Z).
    { change 100%Z with (Qfloor (inject_Z 100)). apply Qfloor_resp_le. lra. }
    change (Qfloor (inject_Z 100 + (1 # 2))%Q) with 100%Z. lia.
  - apply Qle_bool_false in C. f_equal.
    assert ((Qfloor (x + (1 # 2))%Q <= 100)%Z).
    { change 100%Z with (Qfloor (inject_Z 100 + (1 # 2))%Q).
      apply Qfloor_resp_le. lra. }
    lia.
Qed.

(* ================================================================== *)
(** * The catalog *)
(* ================================================================== *)

(** Every literal of the catalog is in the syntax that [parse_regex]
    reads, and [PATTERNS] is what they compile to. *)
Lemma PATTERNS_compiled : catalog_of PATTERNS_literal = Some PATTERNS.
Proof. vm_compute. reflexivity. Qed.

(** Every pattern has the [g] flag, without which [matchAll] throws,
    and starts from [lastIndex] 0. *)
Lemma PATTERNS_global :
  forallb (fun e => forallb (fun p => global p && (lastIndex p =? 0))
                            (Category.patterns (snd e))) PATTERNS = true.
Proof. vm_compute. reflexivity. Qed.

Example parse_stands_as :
  parse_regex "\bstands?\s+as\b"
  = (Some (Seq WordB
         (Seq (Chr 115) (Seq (Chr 116) (Seq (Chr 97) (Seq (Chr 110) (Seq (Chr 100)
         (Seq (Opt (Chr 115))
         (Seq (Plus (Class false [CsSpace]))
         (Seq (Chr 97) (Seq (Chr 115) WordB)))))))))))%N.
Proof. reflexivity. Qed.

Example parse_ensuring :
  parse_regex ",\s*(that\s+)?[^,.]+[,.]"
  = (Some (Seq (Chr 44)
         (Seq (Star (Class false [CsSpace]))
         (Seq (Opt (Seq (Chr 116) (Seq (Chr 104) (Seq (Chr 97) (Seq (Chr 116)
                   (Plus (Class false [CsSpace])))))))
         (Seq (Plus (Class true [CsChar 44; CsChar 46]))
              (Class false [CsChar 44; CsChar 46]))))))%N.
Proof. reflexivity. Qed.

Example parse_alternation :
  parse_regex "I('d| would)"
  = (Some (Seq (Chr 73)
              (Alt (Seq (Chr 39) (Chr 100))
                   (Seq (Chr 32) (Seq (Chr 119) (Seq (Chr 111) (Seq (Chr 117)
                        (Seq (Chr 108) (Chr 100)))))))))%N.
Proof. reflexivity. Qed.

Example parse_whitespace_run : parse_regex "\s+" = Some whitespace_run.
Proof. reflexivity. Qed.

(** A lazy quantifier is outside of the syntax. *)
Example parse_unsupported : parse_regex "a+?" = None.
Proof. reflexivity. Qed.

(* ================================================================== *)
(** * The loops of [analyzeText] *)
(* ================================================================== *)

Lemma matchAll_leaves (text : list char) (p : RegExp) : snd (matchAll text p) = p.
Proof. reflexivity. Qed.

Lemma scan_patterns_from (text : list char) (ps : list RegExp) :
  forall (acc : list Match.t) (done : list RegExp),
    fold_left
      (fun (acc : list Match.t * list RegExp) pattern =>
         let '(categoryMatches, done) := acc in
         let '(found, pattern') := matchAll text pattern in
         (categoryMatches ++ map (record_match text) found, done ++ [pattern']))
      ps (acc, done)
    = (acc ++ flat_map (pattern_matches text) ps, done ++ ps).
Proof.
  induction ps as [|p ps IH]; intros acc done; simpl.
  - now rewrite !app_nil_r.
  - rewrite IH. unfold pattern_matches. simpl.
    now rewrite <- !app_assoc.
Qed.

Lemma scan_patterns_spec (text : list char) (c : Category.t) :
  scan_patterns text (Category.patterns c) = (category_matches text c, Category.patterns c).
Proof. unfold scan_patterns. now rewrite scan_patterns_from. Qed.

Lemma obj_set_fresh {A : Type} (obj : list (string * A)) (key : string) (v : A) :
  ~ In key (map fst obj) -> obj_set obj key v = obj ++ [(key, v)].
Proof.
  induction obj as [|[k x] obj IH]; simpl; intro H; [reflexivity|].
  destruct (String.eqb_spec k key) as [E|_].
  - exfalso. apply H. now left.
  - f_equal. apply IH. intro I. apply H. now right.
Qed.

Lemma entries_keys (text : list char) (P : list (string * Category.t)) (k : string) :
  In k (map fst (entries text P)) -> In k (map fst P).
Proof.
  unfold entries. rewrite map_map. simpl. intro H.
  apply in_map_iff in H. destruct H as [e [E I]].
  apply filter_In in I. apply in_map_iff. exists e. tauto.
Qed.

Lemma scan_category_spec (text : list char) (r : AnalysisResult.t)
  (done : list (string * Category.t)) (key : string) (c : Category.t) :
  ~ In key (map fst (AnalysisResult.patterns r)) ->
  scan_category text (r, done) (key, c)
  = ({| AnalysisResult.patterns := AnalysisResult.patterns r ++ entries text [(key, c)];
        AnalysisResult.matches := AnalysisResult.matches r ++ tagged text [(key, c)];
        AnalysisResult.totalWeight := AnalysisResult.totalWeight r + weights text [(key, c)];
        AnalysisResult.wordCount := AnalysisResult.wordCount r |},
     done ++ [(key, c)]).
Proof.
  intro F. unfold scan_category. rewrite scan_patterns_spec.
  unfold entries, tagged, weights, has_matches. simpl.
  destruct (0 <? List.length (category_matches text c)) eqn:E.
  - rewrite obj_set_fresh by exact F. simpl. rewrite app_nil_r, !Nat.add_0_r.
    destruct c; reflexivity.
  - apply Nat.ltb_ge in E.
    assert (Z : category_matches text c = []) by (destruct (category_matches text c); [reflexivity|simpl in E; lia]).
    rewrite Z. simpl. rewrite !app_nil_r, Nat.mul_0_r, !Nat.add_0_r.
    destruct c, r; reflexivity.
Qed.

Lemma entries_app (text : list char) (P Q : list (string * Category.t)) :
  entries text (P ++ Q) = entries text P ++ entries text Q.
Proof. unfold entries. now rewrite filter_app, map_app. Qed.

Lemma tagged_app (text : list char) (P Q : list (string * Category.t)) :
  tagged text (P ++ Q) = tagged text P ++ tagged text Q.
Proof. unfold tagged. now rewrite flat_map_app. Qed.

Lemma weights_app (text : list char) (P Q : list (string * Category.t)) :
  weights text (P ++ Q) = weights text P + weights text Q.
Proof. unfold weights. now rewrite map_app, list_sum_app. Qed.

Lemma scan_categories_from (text : list char) (P : list (string * Category.t)) :
  forall (r : AnalysisResult.t) (done : list (string * Category.t)),
    NoDup (map fst P) ->
    (forall k, In k (map fst P) -> ~ In k (map fst (AnalysisResult.patterns r))) ->
    fold_left (scan_category text) P (r, done)
    = ({| AnalysisResult.patterns := AnalysisResult.patterns r ++ entries text P;
          AnalysisResult.matches := AnalysisResult.matches r ++ tagged text P;
          AnalysisResult.totalWeight := AnalysisResult.totalWeight r + weights text P;
          AnalysisResult.wordCount := AnalysisResult.wordCount r |},
       done ++ P).
Proof.
  induction P as [|[key c] P IH]; intros r done ND F.
  - simpl. unfold entries, tagged, weights. simpl.
    rewrite !app_nil_r, Nat.add_0_r. destruct r; reflexivity.
  - cbn [fold_left]. rewrite scan_category_spec by (apply F; now left).
    inversion ND as [|k l NI ND' EQ]; subst.
    rewrite IH; [|assumption|].
    + cbn [AnalysisResult.patterns AnalysisResult.matches
           AnalysisResult.totalWeight AnalysisResult.wordCount].
      change ((key, c) :: P) with ([(key, c)] ++ P).
      rewrite entries_app, tagged_app, weights_app, <- !app_assoc, Nat.add_assoc.
      reflexivity.
    + cbn [AnalysisResult.patterns]. intros k Hk I.
      rewrite map_app in I. apply in_app_or in I. destruct I as [I|I].
      * apply (F k); [now right|assumption].
      * apply entries_keys in I. simpl in I. destruct I as [I|[]].
        simpl in NI. subst. contradiction.
Qed.

Lemma PATTERNS_keys : NoDup (map fst PATTERNS).
Proof.
  repeat (constructor; [simpl; intuition discriminate|]). constructor.
Qed.

(** The result of [analyzeText], field by field, and the catalog left
    as it was. *)
Lemma analyzeText_in_spec (text : list char) :
  analyzeText_in PATTERNS text
  = ({| AnalysisResult.patterns := entries text PATTERNS;
        AnalysisResult.matches := tagged text PATTERNS;
        AnalysisResult.totalWeight := weights text PATTERNS;
        AnalysisResult.wordCount := count_words text |},
     PATTERNS).
Proof.
  unfold analyzeText_in.
  rewrite scan_categories_from; [reflexivity|apply PATTERNS_keys|].
  intros k _ [].
Qed.

Lemma analyzeText_spec (text : list char) :
  analyzeText text
  = {| AnalysisResult.patterns := entries text PATTERNS;
       AnalysisResult.matches := tagged text PATTERNS;
       AnalysisResult.totalWeight := weights text PATTERNS;
       AnalysisResult.wordCount := count_words text |}.
Proof. unfold analyzeText. now rewrite analyzeText_in_spec. Qed.

(* ================================================================== *)
(** * The category breakdown *)
(* ================================================================== *)

Lemma in_entries (text : list char) (P : list (string * Category.t))
  (key : string) (cr : CategoryResult.t) :
  In (key, cr) (entries text P) <->
  exists c, In (key, c) P /\ 1 <= List.length (category_matches text c)
            /\ cr = category_result c (category_matches text c).
Proof.
  unfold entries. rewrite in_map_iff. split.
  - intros [[k c] [E I]]. apply filter_In in I. destruct I as [I M].
    unfold has_matches in M. apply Nat.ltb_lt in M. simpl in *.
    inversion E; subst. exists c. auto.
  - intros [c [I [M E]]]. exists (key, c). simpl. split; [now subst|].
    apply filter_In. split; [assumption|]. now apply Nat.ltb_lt.
Qed.

Lemma unique_key {A : Type} (P : list (string * A)) (key : string) (a b : A) :
  NoDup (map fst P) -> In (key, a) P -> In (key, b) P -> a = b.
Proof.
  induction P as [|[k x] P IH]; simpl; intros ND Ia Ib; [contradiction|].
  inversion ND as [|k' l NI ND' EQ]; subst.
  destruct Ia as [Ea|Ia], Ib as [Eb|Ib].
  - congruence.
  - inversion Ea; subst. exfalso. apply NI. apply in_map_iff. now exists (key, b).
  - inversion Eb; subst. exfalso. apply NI. apply in_map_iff. now exists (key, a).
  - now apply IH.
Qed.

Lemma weights_entries (text : list char) (P : list (string * Category.t)) :
  weights text P
  = list_sum
      (map (fun e => CategoryResult.weight (snd e) * CategoryResult.count (snd e))
           (entries text P)).
Proof.
  unfold weights, entries. induction P as [|[k c] P IH]; [reflexivity|].
  simpl. unfold has_matches at 1. simpl.
  destruct (category_matches text c) as [|m ms] eqn:E; simpl.
  - now rewrite Nat.mul_0_r.
  - rewrite IH, ?E. reflexivity.
Qed.

(** C5.  The result has an entry for a category exactly when the
    category has a match; the count of an entry is the length of its
    match list, which is not empty; and [totalWeight] is the sum over
    the entries of weight times count. *)
Theorem analysis_categories (text : list char) :
  let r := analyzeText text in
  (forall key c, In (key, c) PATTERNS ->
     ((exists cr, In (key, cr) (AnalysisResult.patterns r))
      <-> 1 <= List.length (category_matches text c))) /\
  (forall key cr, In (key, cr) (AnalysisResult.patterns r) ->
     CategoryResult.count cr = List.length (CategoryResult.matches cr) /\
     1 <= CategoryResult.count cr /\
     exists c, In (key, c) PATTERNS /\
               CategoryResult.matches cr = category_matches text c /\
               CategoryResult.weight cr = Category.weight c) /\
  AnalysisResult.totalWeight r
  = list_sum
      (map (fun e => CategoryResult.weight (snd e) * CategoryResult.count (snd e))
           (AnalysisResult.patterns r)).
Proof.
  cbv zeta. rewrite analyzeText_spec. simpl. repeat split.
  - intros [cr I]. apply in_entries in I. destruct I as [c' [I' [M _]]].
    now rewrite (unique_key _ _ _ _ PATTERNS_keys H I').
  - intro M. eexists. apply in_entries. exists c. eauto.
  - apply in_entries in H. destruct H as [c [_ [_ E]]]. now subst.
  - apply in_entries in H. destruct H as [c [_ [M E]]]. now subst.
  - apply in_entries in H. destruct H as [c [I [_ E]]]. exists c. now subst.
  - apply weights_entries.
Qed.

(** C6.  In the scenario text the categories Promotional Language,
    Inflated Significance and AI Vocabulary have matches; the score is
    100, which is at least 50, and the label is Very AI-like. *)
Theorem scenario_ai_text :
  let r := analyzeText aiText in
  (exists cr, obj_get (AnalysisResult.patterns r) "promotional" = Some cr
              /\ CategoryResult.name cr = "Promotional Language"%string
              /\ map Match.text (CategoryResult.matches cr)
                 = [str "groundbreaking"; str "commitment to"]) /\
  (exists cr, obj_get (AnalysisResult.patterns r) "inflated_significance" = Some cr
              /\ CategoryResult.name cr = "Inflated Significance"%string
              /\ map Match.text (CategoryResult.matches cr) = [str "serves as"]) /\
  (exists cr, obj_get (AnalysisResult.patterns r) "ai_vocabulary" = Some cr
              /\ CategoryResult.name cr = "AI Vocabulary"%string
              /\ map Match.text (CategoryResult.matches cr) = [str "testament"]) /\
  AnalysisResult.totalWeight r = 13 /\
  AnalysisResult.wordCount r = 12 /\
  calculateScore r = Number.of_Z 100 /\
  Number.leb (Number.of_Z 50) (calculateScore r) = true /\
  getScoreLabel (calculateScore r) = label_very_ai_like.
Proof.
  cbv zeta. remember (analyzeText aiText) as r eqn:E.
  vm_compute in E. subst r.
  repeat split; try (eexists; repeat split); vm_compute; reflexivity.
Qed.

Lemma analysis_categories_witness :
  exists cr, In ("promotional"%string, cr) (AnalysisResult.patterns (analyzeText aiText)).
Proof.
  pose (c := nth 2 (map snd PATTERNS) (Category.Build_t EmptyString EmptyString 0 [])).
  assert (I : In ("promotional"%string, c) PATTERNS).
  { vm_compute. right. right. left. reflexivity. }
  apply (proj2 (proj1 (analysis_categories aiText) _ c I)).
  vm_compute. lia.
Defined.

(** ** The assertions of the test suite on the analysis *)

Example test_human_text_scores_low :
  Number.leb (calculateScore (analyzeText humanText)) (Number.of_Z 30) = true
  /\ detected humanText = [].
Proof. split; vm_compute; reflexivity. Qed.

Example test_detects_promotional :
  detected (str "This vibrant groundbreaking innovation is stunning")
  = ["promotional"%string].
Proof. vm_compute. reflexivity. Qed.

Example test_detects_ai_vocabulary :
  detected (str "Let me delve into this pivotal landscape") = ["ai_vocabulary"%string].
Proof. vm_compute. reflexivity. Qed.

Example test_detects_sycophantic :
  detected (str "Great question! I would be happy to help you.")
  = ["sycophantic"%string].
Proof. vm_compute. reflexivity. Qed.

Example test_detects_vague_attribution :
  detected (str "Many experts believe this is widely considered important")
  = ["vague_attribution"%string].
Proof. vm_compute. reflexivity. Qed.

Example test_detects_inflated_significance :
  detected (str "This stands as a testament to the evolving landscape")
  = ["inflated_significance"%string; "ai_vocabulary"%string; "copula_avoidance"%string].
Proof. vm_compute. reflexivity. Qed.

Example test_clean_text :
  detected (str "I went to the store. I bought milk.") = [].
Proof. vm_compute. reflexivity. Qed.

(* ================================================================== *)
(** * The matcher *)
(* ================================================================== *)

Lemma is_space_enum (c : char) : is_space c = true -> In c all_spaces.
Proof.
  unfold is_space, in_range. rewrite !Bool.orb_true_iff, !Bool.andb_true_iff.
  rewrite !N.eqb_eq, !N.leb_le. intro H. unfold all_spaces.
  assert (E : (c = 9 \/ c = 10 \/ c = 11 \/ c = 12 \/ c = 13 \/ c = 32 \/ c = 160
               \/ c = 5760 \/ c = 8192 \/ c = 8193 \/ c = 8194 \/ c = 8195
               \/ c = 8196 \/ c = 8197 \/ c = 8198 \/ c = 8199 \/ c = 8200
               \/ c = 8201 \/ c = 8202 \/ c = 8232 \/ c = 8233 \/ c = 8239
               \/ c = 8287 \/ c = 12288 \/ c = 65279)%N) by lia.
  simpl. repeat (destruct E as [E|E]; [subst; tauto|]). subst. tauto.
Qed.

Lemma space_not_word (c : char) : is_space c = true -> is_word c = false.
Proof.
  intro H. apply is_space_enum in H. simpl in H.
  repeat (destruct H as [H|H]; [subst; reflexivity|]). contradiction.
Qed.

Lemma hd_error_In {A : Type} (l : list A) (x : A) : hd_error l = Some x -> In x l.
Proof. destruct l; simpl; [discriminate|]. intro H. left. congruence. Qed.

Lemma flat_map_nil {A B : Type} (f : A -> list B) (l : list A) :
  (forall x, In x l -> f x = []) -> flat_map f l = [].
Proof.
  induction l as [|x l IH]; simpl; intro H; [reflexivity|].
  rewrite (H x) by now left. apply IH. intros y I. apply H. now right.
Qed.

Section MatcherFacts.

Variable ic : bool.
Variable s : list char.

Lemma step_char_In (p : char -> bool) (i e : nat) :
  In e (step_char s p i) ->
  e = S i /\ exists c, nth_error s i = Some c /\ p c = true.
Proof.
  unfold step_char. destruct (nth_error s i) as [c|]; [|contradiction].
  destruct (p c) eqn:E; [|contradiction].
  intros [H|[]]. split; [now subst|]. now exists c.
Qed.

Lemma repeat_greedy_In (m : nat -> list nat) (fuel i e : nat) :
  In e (repeat_greedy m fuel i) ->
  e = i \/ exists j, In j (m i) /\ i < j /\
                     match fuel with
                     | O => False
                     | S fuel' => In e (repeat_greedy m fuel' j)
                     end.
Proof.
  destruct fuel as [|fuel']; simpl; intro H.
  - left. intuition.
  - apply in_app_or in H. destruct H as [H|[H|[]]]; [|now left].
    right. apply in_flat_map in H. destruct H as [j [I J]].
    exists j. destruct (Nat.ltb_spec i j); [auto|contradiction].
Qed.

Lemma repeat_greedy_ge (m : nat -> list nat) :
  forall fuel i e, In e (repeat_greedy m fuel i) -> i <= e.
Proof.
  induction fuel as [|fuel IH]; intros i e H;
    apply repeat_greedy_In in H; destruct H as [H|[j [_ [L H]]]];
    try lia; try contradiction.
  apply IH in H. lia.
Qed.

(** A match ends at or after its start. *)
Lemma ends_ge (r : regex) : forall i e, In e (ends ic s r i) -> i <= e.
Proof.
  induction r; intros i e H; simpl in H.
  - destruct H as [H|[]]. lia.
  - apply step_char_In in H. lia.
  - apply step_char_In in H. lia.
  - apply step_char_In in H. lia.
  - destruct (is_word_boundary s i); [|contradiction]. destruct H as [H|[]]. lia.
  - apply in_flat_map in H. destruct H as [j [I J]].
    apply IHr1 in I. apply IHr2 in J. lia.
  - apply in_app_or in H. destruct H as [H|H]; auto.
  - apply in_app_or in H. destruct H as [H|[H|[]]]; [|lia].
    apply filter_In in H. destruct H as [H _]. auto.
  - now apply repeat_greedy_ge in H.
  - apply in_flat_map in H. destruct H as [j [I J]].
    apply IHr in I. apply repeat_greedy_ge in J. lia.
Qed.

Lemma search_bounds (r : regex) :
  forall fuel i a e, search ic s r fuel i = Some (a, e) -> i <= a /\ a <= e.
Proof.
  induction fuel as [|fuel IH]; intros i a e; simpl;
    destruct (match_at ic s r i) as [e'|] eqn:M; intro H;
    try discriminate.
  - inversion H; subst. split; [lia|]. apply hd_error_In in M. now apply ends_ge in M.
  - inversion H; subst. split; [lia|]. apply hd_error_In in M. now apply ends_ge in M.
  - apply IH in H. lia.
Qed.

Lemma exec_bounds (r : regex) (lastIndex a e : nat) :
  exec ic s r lastIndex = Some (a, e) -> lastIndex <= a /\ a <= e.
Proof.
  unfold exec. destruct (List.length s <? lastIndex); [discriminate|].
  apply search_bounds.
Qed.

(** The matches of the iterator come at strictly increasing indices,
    none before [lastIndex]. *)
Lemma iterate_sorted (r : regex) :
  forall fuel lastIndex,
    Forall (fun m => lastIndex <= fst m) (iterate ic s r fuel lastIndex)
    /\ StronglySorted lt (map fst (iterate ic s r fuel lastIndex)).
Proof.
  induction fuel as [|fuel IH]; intro lastIndex; simpl.
  - split; constructor.
  - destruct (exec ic s r lastIndex) as [[a e]|] eqn:E; [|split; constructor].
    apply exec_bounds in E. destruct E as [La Le].
    destruct (IH (if e =? a then S e else e)) as [F Srt].
    assert (N : a < (if e =? a then S e else e)).
    { destruct (Nat.eqb_spec e a); lia. }
    split.
    + constructor; [exact La|].
      eapply Forall_impl; [|exact F]. simpl. intros m Hm. lia.
    + simpl. constructor; [exact Srt|].
      apply Forall_forall. intros x I. apply in_map_iff in I.
      destruct I as [m [Em Im]]. subst.
      rewrite Forall_forall in F. apply F in Im. lia.
Qed.

(** ** The fuel of the loops is enough *)

Lemma repeat_greedy_le (m : nat -> list nat) :
  (forall i e, In e (m i) -> e <= Nat.max i (List.length s)) ->
  forall fuel i e, In e (repeat_greedy m fuel i) -> e <= Nat.max i (List.length s).
Proof.
  intro Hm. induction fuel as [|fuel IH]; intros i e H;
    apply repeat_greedy_In in H; destruct H as [H|[j [I [L H]]]];
    try lia; try contradiction.
  apply IH in H. apply Hm in I. lia.
Qed.

(** A match ends inside the string. *)
Lemma ends_le (r : regex) :
  forall i e, In e (ends ic s r i) -> e <= Nat.max i (List.length s).
Proof.
  induction r; intros i e H; simpl in H.
  - destruct H as [H|[]]. lia.
  - apply step_char_In in H. destruct H as [-> [t [E _]]].
    assert (i < List.length s) by (apply nth_error_Some; congruence). lia.
  - apply step_char_In in H. destruct H as [-> [t [E _]]].
    assert (i < List.length s) by (apply nth_error_Some; congruence). lia.
  - apply step_char_In in H. destruct H as [-> [t [E _]]].
    assert (i < List.length s) by (apply nth_error_Some; congruence). lia.
  - destruct (is_word_boundary s i); [|contradiction]. destruct H as [H|[]]. lia.
  - apply in_flat_map in H. destruct H as [j [I J]].
    apply IHr1 in I. apply IHr2 in J. lia.
  - apply in_app_or in H. destruct H as [H|H]; auto.
  - apply in_app_or in H. destruct H as [H|[H|[]]]; [|lia].
    apply filter_In in H. destruct H as [H _]. auto.
  - now apply (repeat_greedy_le _ IHr) in H.
  - apply in_flat_map in H. destruct H as [j [I J]].
    apply IHr in I. apply (repeat_greedy_le _ IHr) in J. lia.
Qed.

Lemma flat_map_ext_In {A B : Type} (f g : A -> list B) (l : list A) :
  (forall x, In x l -> f x = g x) -> flat_map f l = flat_map g l.
Proof.
  induction l as [|x l IH]; simpl; intro H; [reflexivity|].
  rewrite (H x) by now left. f_equal. apply IH. intros y I. apply H. now right.
Qed.

(** More rounds than characters left change nothing in a repetition. *)
Lemma repeat_greedy_fuel (m : nat -> list nat) :
  (forall i e, In e (m i) -> e <= Nat.max i (List.length s)) ->
  forall fuel i, List.length s - i <= fuel ->
  forall k, repeat_greedy m (fuel + k) i = repeat_greedy m fuel i.
Proof.
  intro Hm. induction fuel as [|fuel IH]; intros i Hf k.
  - destruct k as [|k]; [reflexivity|]. simpl.
    rewrite flat_map_nil; [reflexivity|]. intros j I. apply Hm in I.
    destruct (Nat.ltb_spec i j); [lia|reflexivity].
  - simpl. f_equal. apply flat_map_ext_In. intros j I.
    destruct (Nat.ltb_spec i j); [|reflexivity]. apply IH. lia.
Qed.

Lemma star_fuel (r : regex) (i k : nat) :
  repeat_greedy (ends ic s r) (List.length s - i + k) i = ends ic s (Star r) i.
Proof. simpl. apply repeat_greedy_fuel; [apply ends_le|lia]. Qed.

(** More calls of [exec] than positions change nothing in the iterator
    of [matchAll]. *)
Lemma iterate_fuel (r : regex) :
  forall fuel lastIndex, List.length s + 2 <= fuel + lastIndex ->
  forall k, iterate ic s r (fuel + k) lastIndex = iterate ic s r fuel lastIndex.
Proof.
  induction fuel as [|fuel IH]; intros lastIndex Hf k.
  - assert (E : exec ic s r lastIndex = None).
    { unfold exec. destruct (Nat.ltb_spec (List.length s) lastIndex); [reflexivity|lia]. }
    destruct k; simpl; [reflexivity|now rewrite E].
  - simpl. destruct (exec ic s r lastIndex) as [[a e]|] eqn:E; [|reflexivity].
    f_equal. apply IH. apply exec_bounds in E.
    destruct (Nat.eqb_spec e a); lia.
Qed.

(** ** Strings of whitespace *)

Hypothesis blank : whitespace_only s = true.

Lemma blank_nth (i : nat) (c : char) : nth_error s i = Some c -> is_space c = true.
Proof.
  intro H. apply nth_error_In in H. unfold whitespace_only in blank.
  rewrite forallb_forall in blank. now apply blank.
Qed.

Lemma blank_word_at (i : nat) : word_at s i = false.
Proof.
  unfold word_at. destruct (nth_error s i) as [c|] eqn:E; [|reflexivity].
  apply space_not_word. eapply blank_nth, E.
Qed.

Lemma blank_boundary (i : nat) : is_word_boundary s i = false.
Proof.
  unfold is_word_boundary. destruct i; now rewrite !blank_word_at.
Qed.

Lemma blank_step_char (p : char -> bool) (i : nat) :
  forallb (fun t => negb (p t)) all_spaces = true -> step_char s p i = [].
Proof.
  intro H. unfold step_char. destruct (nth_error s i) as [c|] eqn:E; [|reflexivity].
  rewrite forallb_forall in H.
  rewrite (proj1 (Bool.negb_true_iff _) (H c (is_space_enum _ (blank_nth _ E)))).
  reflexivity.
Qed.

(** A regex that passes the test matches nowhere. *)
Lemma ends_blank (r : regex) :
  fails_on_blank ic r = true -> forall i, ends ic s r i = [].
Proof.
  induction r; simpl; intros F i; try discriminate.
  - now apply blank_step_char.
  - now apply blank_step_char.
  - now rewrite blank_boundary.
  - apply Bool.orb_true_iff in F. destruct F as [F|F].
    + now rewrite IHr1.
    + apply flat_map_nil. intros j _. now apply IHr2.
  - apply Bool.andb_true_iff in F. destruct F as [F1 F2].
    now rewrite IHr1, IHr2.
  - now rewrite IHr.
Qed.

Lemma search_blank (r : regex) :
  fails_on_blank ic r = true -> forall fuel i, search ic s r fuel i = None.
Proof.
  intros F. induction fuel as [|fuel IH]; intro i; simpl;
    unfold match_at; rewrite (ends_blank _ F); simpl; auto.
Qed.

Lemma iterate_blank (r : regex) (fuel lastIndex : nat) :
  fails_on_blank ic r = true -> iterate ic s r fuel lastIndex = [].
Proof.
  intro F. destruct fuel; simpl; [reflexivity|].
  unfold exec. rewrite (search_blank _ F).
  now destruct (List.length s <? lastIndex).
Qed.

End MatcherFacts.

(* ================================================================== *)
(** * The word count *)
(* ================================================================== *)

Section WordCount.

Variable s : list char.

Lemma ws_step (i : nat) :
  ends false s (Class false [CsSpace]) i
  = match nth_error s i with
    | Some c => if is_space c then [S i] else []
    | None => []
    end.
Proof.
  simpl. unfold step_char. destruct (nth_error s i) as [c|]; [|reflexivity].
  simpl. rewrite Bool.orb_false_r. reflexivity.
Qed.

Lemma ends_Plus (r : regex) (i : nat) :
  ends false s (Plus r) i
  = flat_map (fun j => repeat_greedy (ends false s r) (List.length s - j) j)
             (ends false s r i).
Proof. reflexivity. Qed.

Lemma ws_step_In (i j : nat) :
  In j (ends false s (Class false [CsSpace]) i) ->
  j = S i /\ exists c, nth_error s i = Some c /\ is_space c = true.
Proof.
  rewrite ws_step. destruct (nth_error s i) as [c|]; [|contradiction].
  destruct (is_space c) eqn:E; [|contradiction].
  intros [H|[]]. split; [now subst|]. now exists c.
Qed.

(** What a run of [\s] went over is whitespace. *)
Lemma ws_run_spaces :
  forall fuel i e,
    In e (repeat_greedy (ends false s (Class false [CsSpace])) fuel i) ->
    forall j, i <= j < e -> exists c, nth_error s j = Some c /\ is_space c = true.
Proof.
  induction fuel as [|fuel IH]; intros i e H j Hj;
    apply repeat_greedy_In in H; destruct H as [H|[j' [I [L H]]]];
    try lia; try contradiction.
  apply ws_step_In in I. destruct I as [E C]. subst j'.
  destruct (Nat.eq_dec j i) as [->|N]; [exact C|].
  apply (IH _ _ H). lia.
Qed.

Lemma ws_match_spaces (q e : nat) :
  match_at false s whitespace_run q = Some e ->
  q < e /\ forall j, q <= j < e -> exists c, nth_error s j = Some c /\ is_space c = true.
Proof.
  intro H. apply hd_error_In in H. unfold whitespace_run in H.
  cbn [ends] in H. apply in_flat_map in H. destruct H as [j' [I J]].
  apply ws_step_In in I. destruct I as [E C]. subst j'.
  pose proof (repeat_greedy_ge _ _ _ _ J) as G.
  split; [lia|]. intros j Hj.
  destruct (Nat.eq_dec j q) as [->|N]; [exact C|].
  eapply ws_run_spaces; [exact J|lia].
Qed.

Lemma slice_length (p q : nat) :
  List.length (slice s p q) = Nat.min (q - p) (List.length s - p).
Proof. unfold slice. now rewrite length_firstn, length_skipn. Qed.

(** More rounds than characters left change nothing in the loop of
    [split]. *)
Lemma split_loop_fuel :
  forall fuel p q, List.length s - q <= fuel ->
  forall k, split_loop false s whitespace_run (fuel + k) p q
            = split_loop false s whitespace_run fuel p q.
Proof.
  induction fuel as [|fuel IH]; intros p q Hf k.
  - destruct k as [|k]; [reflexivity|]. cbn [Nat.add split_loop].
    destruct (Nat.ltb_spec q (List.length s)); [lia|reflexivity].
  - cbn [Nat.add split_loop].
    destruct (Nat.ltb_spec q (List.length s)) as [Lq|]; [|reflexivity].
    destruct (match_at false s whitespace_run q) as [e0|] eqn:M;
      [|apply IH; lia].
    apply ws_match_spaces in M. destruct M as [G _].
    destruct (Nat.min e0 (List.length s) =? p); [apply IH; lia|].
    f_equal. apply IH. lia.
Qed.

(** A character that is not whitespace ends up in a segment that is
    not empty. *)
Lemma split_loop_word (k : nat) (c : char) :
  nth_error s k = Some c -> is_space c = false ->
  forall fuel p q,
    p <= k ->
    1 <= List.length
           (filter (fun w => 0 <? List.length w)
                   (split_loop false s whitespace_run fuel p q)).
Proof.
  intros K C.
  assert (KL : k < List.length s) by (apply nth_error_Some; congruence).
  assert (LAST : forall p, p <= k ->
            1 <= List.length (filter (fun w => 0 <? List.length w)
                                     [slice s p (List.length s)])).
  { intros p Hp. simpl. rewrite slice_length.
    destruct (Nat.ltb_spec 0 (Nat.min (List.length s - p) (List.length s - p)));
      simpl; lia. }
  induction fuel as [|fuel IH]; intros p q Hp; cbn [split_loop]; [now apply LAST|].
  destruct (q <? List.length s) eqn:Q; [|now apply LAST].
  destruct (match_at false s whitespace_run q) as [e0|] eqn:M; [|now apply IH].
  destruct (Nat.min e0 (List.length s) =? p); [now apply IH|].
  cbn [filter]. rewrite slice_length.
  destruct (Nat.ltb_spec 0 (Nat.min (q - p) (List.length s - p))) as [_|Z];
    [simpl; lia|].
  apply IH. apply ws_match_spaces in M. destruct M as [_ SP].
  destruct (Nat.le_gt_cases (Nat.min e0 (List.length s)) k) as [|G]; [assumption|].
  destruct (SP k) as [c' [K' C']]; [lia|]. congruence.
Qed.

(** A text with a character that is not whitespace has a word. *)
Lemma count_words_nonblank : whitespace_only s = false -> 1 <= count_words s.
Proof.
  intro H. unfold whitespace_only in H.
  assert (E : exists c, In c s /\ is_space c = false).
  { clear -H. induction s as [|c l IH]; simpl in H; [discriminate|].
    destruct (is_space c) eqn:C.
    - destruct (IH H) as [c' [I C']]. exists c'. split; [now right|assumption].
    - exists c. split; [now left|assumption]. }
  destruct E as [c [I C]]. apply In_nth_error in I. destruct I as [k K].
  unfold count_words, split. destruct s as [|c0 l] eqn:S; [destruct k; discriminate|].
  rewrite <- S in *. eapply split_loop_word; [exact K|exact C|lia].
Qed.

Hypothesis blank : whitespace_only s = true.

Lemma ws_run_blank :
  forall fuel i,
    i + fuel = List.length s ->
    hd_error (repeat_greedy (ends false s (Class false [CsSpace])) fuel i)
    = Some (List.length s).
Proof.
  induction fuel as [|fuel IH]; intros i H; cbn [repeat_greedy].
  - simpl. f_equal. lia.
  - rewrite ws_step.
    destruct (nth_error s i) as [c|] eqn:E.
    + rewrite (blank_nth _ blank _ E). cbn [flat_map].
      replace (i <? S i) with true by (symmetry; apply Nat.ltb_lt; lia).
      rewrite app_nil_r.
      assert (N : S i + fuel = List.length s) by lia.
      specialize (IH (S i) N).
      destruct (repeat_greedy _ fuel (S i)); [discriminate IH|exact IH].
    + apply nth_error_None in E. lia.
Qed.

End WordCount.

(** A text of whitespace has no word. *)
Lemma count_words_blank (s : list char) :
  whitespace_only s = true -> count_words s = 0.
Proof.
  intro blank. unfold count_words, split.
  destruct s as [|c l] eqn:S; [reflexivity|].
  rewrite <- S in *.
  assert (L : List.length s = Datatypes.S (List.length l)) by (now rewrite S).
  assert (M : match_at false s whitespace_run 0 = Some (List.length s)).
  { unfold match_at, whitespace_run. rewrite ends_Plus, ws_step.
    assert (E : nth_error s 0 = Some c) by (now rewrite S).
    rewrite E, (blank_nth _ blank _ E). cbn [flat_map].
    rewrite app_nil_r. apply ws_run_blank; [exact blank|lia]. }
  rewrite L at 1. cbn [Nat.mul Nat.add split_loop].
  rewrite M. rewrite Nat.min_id.
  replace (0 <? List.length s) with true by (symmetry; apply Nat.ltb_lt; lia).
  replace (List.length s =? 0) with false by (symmetry; apply Nat.eqb_neq; lia).
  assert (T : forall fuel, split_loop false s whitespace_run fuel (List.length s) (List.length s)
                           = [slice s (List.length s) (List.length s)]).
  { intros [|fuel]; cbn [split_loop]; [reflexivity|]. now rewrite Nat.ltb_irrefl. }
  rewrite T. cbn [filter]. rewrite !slice_length, !Nat.sub_diag. reflexivity.
Qed.

(* ================================================================== *)
(** * The input check of [main] *)
(* ================================================================== *)

Lemma trimStart_nil (s : list char) :
  trimStart s = [] <-> whitespace_only s = true.
Proof.
  unfold whitespace_only. induction s as [|c s IH]; simpl; [tauto|].
  destruct (is_space c); simpl; [exact IH|]. split; discriminate.
Qed.

Lemma trimStart_head (s : list char) (c : char) (l : list char) :
  trimStart s = c :: l -> is_space c = false.
Proof.
  induction s as [|d s IH]; simpl; [discriminate|].
  destruct (is_space d) eqn:D; [exact IH|]. intro H. congruence.
Qed.

Lemma whitespace_only_rev (s : list char) :
  whitespace_only (rev s) = whitespace_only s.
Proof.
  unfold whitespace_only.
  destruct (forallb is_space s) eqn:E.
  - rewrite forallb_forall in *. intros x I. apply E. now apply in_rev.
  - destruct (forallb is_space (rev s)) eqn:R; [|reflexivity].
    rewrite forallb_forall in R.
    assert (F : forallb is_space s = true).
    { apply forallb_forall. intros x I. apply R. now apply in_rev in I. }
    congruence.
Qed.

Lemma trim_nil (s : list char) : trim s = [] <-> whitespace_only s = true.
Proof.
  unfold trim. split.
  - intro H. apply (f_equal (@rev char)) in H. rewrite rev_involutive in H.
    simpl in H. apply trimStart_nil in H. rewrite whitespace_only_rev in H.
    destruct (trimStart s) as [|c l] eqn:E; [now apply trimStart_nil|].
    apply trimStart_head in E. simpl in H. rewrite E in H. discriminate.
  - intro H. apply trimStart_nil in H. now rewrite H.
Qed.

(** [main] turns away exactly the texts that are empty or all
    whitespace. *)
Lemma no_text_provided_blank (text : list char) :
  no_text_provided text = whitespace_only text.
Proof.
  unfold no_text_provided.
  destruct (whitespace_only text) eqn:W.
  - apply trim_nil in W. rewrite W. apply Bool.orb_true_r.
  - apply Bool.orb_false_iff. split; apply Nat.eqb_neq; intro L;
      apply length_zero_iff_nil in L.
    + subst. discriminate.
    + apply trim_nil in L. congruence.
Qed.

(* ================================================================== *)
(** * Texts of whitespace *)
(* ================================================================== *)

Lemma PATTERNS_fail_on_blank :
  forallb (fun e => forallb regexp_fails_on_blank (Category.patterns (snd e))) PATTERNS
  = true.
Proof. vm_compute. reflexivity. Qed.

Lemma blank_category_matches (text : list char) (key : string) (c : Category.t) :
  whitespace_only text = true -> In (key, c) PATTERNS -> category_matches text c = [].
Proof.
  intros B I. pose proof PATTERNS_fail_on_blank as F.
  rewrite forallb_forall in F. specialize (F _ I). simpl in F.
  rewrite forallb_forall in F.
  unfold category_matches. apply flat_map_nil. intros p Ip.
  unfold pattern_matches, matchAll. simpl.
  rewrite iterate_blank; [reflexivity|exact B|]. now apply F.
Qed.

Lemma no_matches_fields (text : list char) (P : list (string * Category.t)) :
  (forall key c, In (key, c) P -> category_matches text c = []) ->
  entries text P = [] /\ tagged text P = [] /\ weights text P = 0.
Proof.
  unfold entries, tagged, weights, has_matches.
  induction P as [|[k c] P IH]; intro H; [auto|].
  destruct IH as [E [T W]]; [intros k' c' I; apply (H k'); now right|].
  simpl. rewrite (H k c) by now left. simpl.
  rewrite Nat.mul_0_r. auto.
Qed.

(** The analysis of a text of whitespace. *)
Lemma analyzeText_blank (text : list char) :
  whitespace_only text = true ->
  analyzeText text
  = {| AnalysisResult.patterns := [];
       AnalysisResult.matches := [];
       AnalysisResult.totalWeight := 0;
       AnalysisResult.wordCount := 0 |}.
Proof.
  intro B. rewrite analyzeText_spec.
  destruct (no_matches_fields text PATTERNS) as [E [T W]].
  { intros key c I. eapply blank_category_matches; eassumption. }
  now rewrite E, T, W, count_words_blank.
Qed.

(* ================================================================== *)
(** * Range and formula of the score *)
(* ================================================================== *)

(** C1.  The code misses the claim on the empty text, which the
    exported [analyzeText] and [calculateScore] take as any other text:
    the score is [NaN], 0 divided by 0, and not an integer from 0 to
    100, against the comment [Score from 0-100] of [calculateScore]. *)
Lemma score_of_empty_text_not_in_range :
  calculateScore (analyzeText []) = Number.NaN
  /\ ~ (exists k : Z, (0 <= k <= 100)%Z
                      /\ calculateScore (analyzeText []) = Number.of_Z k).
Proof.
  split; [vm_compute; reflexivity|].
  intros [k [_ H]]. vm_compute in H. discriminate.
Qed.

(** X15.  The score of a text with a character that is not whitespace
    is an integer from 0 to 100. *)
Theorem score_in_range (text : list char) :
  whitespace_only text = false ->
  exists k : Z, (0 <= k <= 100)%Z
                /\ calculateScore (analyzeText text) = Number.of_Z k.
Proof.
  intro H. apply score_range. rewrite analyzeText_spec.
  cbn [AnalysisResult.wordCount]. now apply count_words_nonblank.
Qed.

Lemma score_in_range_witness :
  exists k : Z, (0 <= k <= 100)%Z
                /\ calculateScore (analyzeText aiText) = Number.of_Z k.
Proof. apply (score_in_range aiText). reflexivity. Defined.

(** C2.  The code misses the claim on a text of three spaces: it has
    no words and no matches, as the claim says, but [calculateScore]
    has no guard for a word count of 0, so that the score is [NaN] and
    not 0, and the label is the one of the top band and not Very
    Human. *)
Lemma score_of_blank_text_not_zero :
  let r := analyzeText (str "   ") in
  whitespace_only (str "   ") = true
  /\ AnalysisResult.wordCount r = 0
  /\ AnalysisResult.matches r = []
  /\ calculateScore r = Number.NaN
  /\ calculateScore r <> Number.of_Z 0
  /\ getScoreLabel (calculateScore r) = label_very_ai_like
  /\ getScoreLabel (calculateScore r) <> label_very_human.
Proof.
  cbv zeta. repeat split; try (vm_compute; reflexivity);
    vm_compute; discriminate.
Qed.

(** The same holds of every empty or whitespace-only text: the first
    check of [main] tells these texts, [analyzeText] gives word count
    0, no match, no category and total weight 0, and [calculateScore]
    divides 0 by 0. *)
Theorem blank_text_analysis (text : list char) :
  whitespace_only text = true ->
  let r := analyzeText text in
  no_text_provided text = true
  /\ AnalysisResult.wordCount r = 0
  /\ AnalysisResult.matches r = []
  /\ AnalysisResult.patterns r = []
  /\ AnalysisResult.totalWeight r = 0
  /\ calculateScore r = Number.NaN
  /\ getScoreLabel (calculateScore r) = label_very_ai_like.
Proof.
  intro B. cbv zeta. rewrite analyzeText_blank by exact B.
  rewrite no_text_provided_blank. repeat split. exact B.
Qed.

Lemma blank_text_analysis_witness :
  let r := analyzeText (str "  ") in
  no_text_provided (str "  ") = true
  /\ AnalysisResult.wordCount r = 0
  /\ AnalysisResult.matches r = []
  /\ AnalysisResult.patterns r = []
  /\ AnalysisResult.totalWeight r = 0
  /\ calculateScore r = Number.NaN
  /\ getScoreLabel (calculateScore r) = label_very_ai_like.
Proof. apply (blank_text_analysis (str "  ")). reflexivity. Defined.

(** C3.  The code misses the claim on the analysis of the empty text:
    it divides by the word count itself, 0 by 0, and returns [NaN],
    where the formula divides by [max(wordCount, 1)] and gives 0. *)
Lemma score_formula_differs_without_words :
  let a := {| AnalysisResult.patterns := [];
              AnalysisResult.matches := [];
              AnalysisResult.totalWeight := 0;
              AnalysisResult.wordCount := 0 |} in
  a = analyzeText []
  /\ calculateScore a = Number.NaN
  /\ spec_score a = Number.of_Z 0
  /\ calculateScore a <> spec_score a.
Proof.
  cbv zeta. repeat split; try (vm_compute; reflexivity).
  vm_compute. discriminate.
Qed.

Lemma spec_score_max (a : AnalysisResult.t) :
  spec_score a
  = calculateScore
      {| AnalysisResult.patterns := AnalysisResult.patterns a;
         AnalysisResult.matches := AnalysisResult.matches a;
         AnalysisResult.totalWeight := AnalysisResult.totalWeight a;
         AnalysisResult.wordCount := Nat.max (AnalysisResult.wordCount a) 1 |}.
Proof.
  rewrite <- spec_score_words by (simpl; lia).
  unfold spec_score. simpl.
  now replace (Nat.max (Nat.max (AnalysisResult.wordCount a) 1) 1)
    with (Nat.max (AnalysisResult.wordCount a) 1) by lia.
Qed.

(** On every other analysis, one whose total weight and word count
    are not both 0, [calculateScore] returns what the formula gives. *)
Theorem score_formula (a : AnalysisResult.t) :
  1 <= AnalysisResult.wordCount a \/ 1 <= AnalysisResult.totalWeight a ->
  calculateScore a = spec_score a.
Proof.
  destruct (Nat.eq_dec (AnalysisResult.wordCount a) 0) as [Z|N].
  - intros [H|H]; [lia|].
    rewrite (calculateScore_no_words a Z).
    destruct (Nat.eqb_spec (AnalysisResult.totalWeight a) 0) as [E|_]; [lia|].
    rewrite spec_score_max, calculateScore_words by (simpl; lia).
    cbn [AnalysisResult.totalWeight AnalysisResult.wordCount].
    rewrite Z. change (Nat.max 0 1) with 1. f_equal.
    assert ((100 <= Qfloor (raw_score (AnalysisResult.totalWeight a) 1 + (1 # 2))%Q)%Z).
    { change 100%Z with (Qfloor (inject_Z 100)).
      apply Qfloor_resp_le.
      assert (E : (inject_Z 100 <= raw_score 1 1)%Q) by (vm_compute; discriminate).
      pose proof (@raw_score_mono 1 (AnalysisResult.totalWeight a) 1 H). lra. }
    lia.
  - intros _. symmetry. apply spec_score_words. lia.
Qed.

Lemma score_formula_witness :
  calculateScore (analyzeText aiText) = spec_score (analyzeText aiText).
Proof. apply (score_formula (analyzeText aiText)). left. vm_compute. lia. Defined.

(* ================================================================== *)
(** * Context of a match *)
(* ================================================================== *)

Lemma record_match_context (text : list char) (ae : nat * nat) :
  Match.context (record_match text ae)
  = window text (Match.index (record_match text ae)) (Match.text (record_match text ae)).
Proof.
  destruct ae as [a e]. unfold record_match, window, getContext, contextSize_default.
  cbn [Match.context Match.index Match.text].
  set (i := Z.of_nat a). set (l := Z.of_nat (List.length (slice text a e))).
  set (n := Z.of_nat (List.length text)).
  replace (0 <? Z.max 0 (i - 40))%Z with (40 <? i)%Z
    by (destruct (Z.ltb_spec 40 i), (Z.ltb_spec 0 (Z.max 0 (i - 40))); lia).
  replace (Z.min n (i + l + 40) <? n)%Z with (i + l + 40 <? n)%Z
    by (destruct (Z.ltb_spec (i + l + 40) n), (Z.ltb_spec (Z.min n (i + l + 40)) n); lia).
  destruct (40 <? i)%Z, (i + l + 40 <? n)%Z;
    now rewrite ?app_nil_r, <- ?app_assoc.
Qed.

Lemma in_category_matches (text : list char) (c : Category.t) (m : Match.t) :
  In m (category_matches text c) ->
  exists p ae, In p (Category.patterns c) /\ In ae (fst (matchAll text p))
               /\ m = record_match text ae.
Proof.
  unfold category_matches, pattern_matches. intro H.
  apply in_flat_map in H. destruct H as [p [Ip H]].
  apply in_map_iff in H. destruct H as [ae [E I]].
  exists p, ae. auto.
Qed.

(** C8, as stated, fails on the scenario text.  The window of the match
    at index 5 would start 35 characters before the text: it is clipped
    at the start, and the context has no leading marker.  The window
    ends at 59, inside the text of 84 characters: it is not clipped at
    the end, and the context has the trailing marker. *)
Lemma context_marker_not_where_clipped :
  exists m,
    In m (AnalysisResult.matches (analyzeText aiText))
    /\ TaggedMatch.text m = str "groundbreaking"
    /\ TaggedMatch.index m = 5
    /\ TaggedMatch.context m
       = str "This groundbreaking innovation serves as a testament to our..."
    /\ clipped_at_start (TaggedMatch.index m) = true
    /\ starts_with ellipsis (TaggedMatch.context m) = false
    /\ clipped_at_end aiText (TaggedMatch.index m) (List.length (TaggedMatch.text m)) = false
    /\ ends_with ellipsis (TaggedMatch.context m) = true.
Proof.
  exists (nth 1 (AnalysisResult.matches (analyzeText aiText))
              {| TaggedMatch.text := []; TaggedMatch.index := 0;
                 TaggedMatch.context := []; TaggedMatch.category := EmptyString |}).
  split; [|vm_compute; repeat split].
  apply nth_In. vm_compute. lia.
Qed.

(** C8, amended.  The context of every recorded match is the slice of
    the text from 40 characters before the match to 40 after it, cut at
    the ends of the text; the leading marker is there exactly when the
    slice starts after the start of the text (index above 40), the
    trailing one exactly when it ends before the end of the text. *)
Theorem context_window (text : list char) :
  let r := analyzeText text in
  (forall m, In m (AnalysisResult.matches r) ->
     TaggedMatch.context m = window text (TaggedMatch.index m) (TaggedMatch.text m)) /\
  (forall key cr m, In (key, cr) (AnalysisResult.patterns r) ->
     In m (CategoryResult.matches cr) ->
     Match.context m = window text (Match.index m) (Match.text m)).
Proof.
  cbv zeta. rewrite analyzeText_spec.
  cbn [AnalysisResult.matches AnalysisResult.patterns]. split.
  - intros m H. unfold tagged in H. apply in_flat_map in H.
    destruct H as [[k c] [_ H]]. apply in_map_iff in H.
    destruct H as [m0 [E I]]. subst m. unfold tag.
    cbn [TaggedMatch.context TaggedMatch.index TaggedMatch.text].
    cbn [snd] in I.
    apply in_category_matches in I. destruct I as [p [ae [_ [_ ->]]]].
    apply record_match_context.
  - intros key cr m H I. apply in_entries in H.
    destruct H as [c [_ [_ ->]]]. unfold category_result in I.
    cbn [CategoryResult.matches] in I.
    apply in_category_matches in I. destruct I as [p [ae [_ [_ ->]]]].
    apply record_match_context.
Qed.

Lemma context_window_witness :
  exists m, In m (AnalysisResult.matches (analyzeText aiText))
            /\ TaggedMatch.context m
               = window aiText (TaggedMatch.index m) (TaggedMatch.text m).
Proof.
  exists (nth 2 (AnalysisResult.matches (analyzeText aiText))
              {| TaggedMatch.text := []; TaggedMatch.index := 0;
                 TaggedMatch.context := []; TaggedMatch.category := EmptyString |}).
  assert (I : In (nth 2 (AnalysisResult.matches (analyzeText aiText))
              {| TaggedMatch.text := []; TaggedMatch.index := 0;
                 TaggedMatch.context := []; TaggedMatch.category := EmptyString |})
              (AnalysisResult.matches (analyzeText aiText))).
  { apply nth_In. vm_compute. lia. }
  split; [exact I|]. exact (proj1 (context_window aiText) _ I).
Defined.

(* ================================================================== *)
(** * Determinism and order *)
(* ================================================================== *)

Lemma match_indices_sorted (text : list char) (p : RegExp) :
  StronglySorted lt (match_indices text p).
Proof. unfold match_indices, matchAll. simpl. apply iterate_sorted. Qed.

Lemma category_matches_indices (text : list char) (c : Category.t) :
  map Match.index (category_matches text c)
  = flat_map (match_indices text) (Category.patterns c).
Proof.
  unfold category_matches. induction (Category.patterns c) as [|p ps IH]; [reflexivity|].
  simpl. rewrite map_app, IH. f_equal.
  unfold pattern_matches, match_indices. rewrite map_map.
  apply map_ext. now intros [a e].
Qed.

(** C9, as stated, fails on the order inside a category: in this text
    the matches of Promotional Language are recorded at index 14, then
    at index 0, the pattern of the first one coming earlier in the
    catalog. *)
Lemma category_matches_not_by_position :
  exists cr,
    obj_get (AnalysisResult.patterns (analyzeText (str "commitment to groundbreaking")))
            "promotional" = Some cr
    /\ map Match.text (CategoryResult.matches cr)
       = [str "groundbreaking"; str "commitment to"]
    /\ map Match.index (CategoryResult.matches cr) = [14; 0]
    /\ ~ Sorted le (map Match.index (CategoryResult.matches cr)).
Proof.
  eexists. split; [vm_compute; reflexivity|]. repeat split.
  simpl. intro H. inversion H as [|a l _ R]; subst.
  inversion R as [|b l' L]; subst. lia.
Qed.

(** C9, amended.  A second run of [analyzeText] on the same text gives
    the same result, the catalog being left as it was; the categories
    of the result come in catalog order; inside a category the matches
    come pattern by pattern in the order of the catalog and, for one
    pattern, by strictly increasing position. *)
Theorem analysis_deterministic (text : list char) :
  let run1 := analyzeText_in PATTERNS text in
  let run2 := analyzeText_in (snd run1) text in
  fst run2 = fst run1 /\
  snd run1 = PATTERNS /\
  map fst (AnalysisResult.patterns (fst run1))
  = map fst (filter (has_matches text) PATTERNS) /\
  forall key cr, In (key, cr) (AnalysisResult.patterns (fst run1)) ->
    exists c, In (key, c) PATTERNS /\
      map Match.index (CategoryResult.matches cr)
      = flat_map (match_indices text) (Category.patterns c) /\
      Forall (fun p => StronglySorted lt (match_indices text p)) (Category.patterns c).
Proof.
  cbv zeta. rewrite analyzeText_in_spec. cbn [fst snd].
  rewrite analyzeText_in_spec. cbn [fst snd AnalysisResult.patterns].
  repeat split.
  - unfold entries. now rewrite map_map.
  - intros key cr H. apply in_entries in H. destruct H as [c [I [_ ->]]].
    exists c. repeat split; [assumption|apply category_matches_indices|].
    apply Forall_forall. intros p _. apply match_indices_sorted.
Qed.

Lemma analysis_deterministic_witness :
  exists c, In ("promotional"%string, c) PATTERNS /\
    [5; 60] = flat_map (match_indices aiText) (Category.patterns c) /\
    Forall (fun p => StronglySorted lt (match_indices aiText p)) (Category.patterns c).
Proof.
  assert (I : In ("promotional"%string,
                  category_result
                    (nth 2 (map snd PATTERNS) (Category.Build_t EmptyString EmptyString 0 []))
                    (category_matches aiText
                       (nth 2 (map snd PATTERNS) (Category.Build_t EmptyString EmptyString 0 []))))
                 (AnalysisResult.patterns (fst (analyzeText_in PATTERNS aiText)))).
  { vm_compute. right. left. reflexivity. }
  exact (proj2 (proj2 (proj2 (analysis_deterministic aiText))) _ _ I).
Defined.

(* ================================================================== *)
(** * More matches, same word count *)
(* ================================================================== *)

Lemma weights_mono (text text' : list char) (P : list (string * Category.t)) :
  (forall key c, In (key, c) P ->
     List.length (category_matches text c) <= List.length (category_matches text' c)) ->
  weights text P <= weights text' P.
Proof.
  unfold weights. induction P as [|[k c] P IH]; intro H; simpl; [lia|].
  assert (L := H k c (or_introl eq_refl)).
  assert (R : forall key c0, In (key, c0) P ->
     List.length (category_matches text c0) <= List.length (category_matches text' c0))
    by (intros key c0 I; apply (H key); now right).
  specialize (IH R). simpl in *. nia.
Qed.

Lemma counts_le_check (text text' : list char) (P : list (string * Category.t)) :
  forallb (fun e => List.length (category_matches text (snd e))
                    <=? List.length (category_matches text' (snd e))) P = true ->
  forall key c, In (key, c) P ->
    List.length (category_matches text c) <= List.length (category_matches text' c).
Proof.
  intros H key c I. rewrite forallb_forall in H.
  apply Nat.leb_le. exact (H _ I).
Qed.

(** Letters put directly behind the last word append no occurrence:
    the pattern [\bvibrant\b] matches in "is vibrant" and not in "is
    vibrantvibrant", where the word boundary that the match ended on is
    gone.  Text is appended behind a separator. *)
Lemma glued_letters_are_no_occurrence :
  let text := str "is vibrant" in
  let occurrence := str "vibrant" in
  exists p c,
    rx "\bvibrant\b" "gi" = Some p
    /\ obj_get PATTERNS "promotional" = Some c
    /\ In p (Category.patterns c)
    /\ fst (matchAll text p) = [(3, 10)]
    /\ fst (matchAll occurrence p) = [(0, 7)]
    /\ AnalysisResult.wordCount (analyzeText text) = 2
    /\ AnalysisResult.wordCount (analyzeText (text ++ occurrence)) = 2
    /\ AnalysisResult.totalWeight (analyzeText text) = 3
    /\ AnalysisResult.totalWeight (analyzeText (text ++ occurrence)) = 0
    /\ calculateScore (analyzeText text) = Number.of_Z 100
    /\ calculateScore (analyzeText (text ++ occurrence)) = Number.of_Z 0.
Proof.
  cbv zeta. eexists. eexists.
  split; [vm_compute; reflexivity|].
  split; [vm_compute; reflexivity|].
  split; [simpl; right; left; reflexivity|].
  repeat split; vm_compute; reflexivity.
Qed.

(** When every category has at least as many matches in [text'] as in
    [text], the total weight of [text'] is at least that of [text]; and
    if both texts have the same number of words, not zero, the score of
    [text'] is at least that of [text]. *)
Theorem more_matches_no_lower_score (text text' : list char) :
  (forall key c, In (key, c) PATTERNS ->
     List.length (category_matches text c) <= List.length (category_matches text' c)) ->
  AnalysisResult.totalWeight (analyzeText text)
  <= AnalysisResult.totalWeight (analyzeText text')
  /\ (AnalysisResult.wordCount (analyzeText text)
      = AnalysisResult.wordCount (analyzeText text') ->
      1 <= AnalysisResult.wordCount (analyzeText text) ->
      Number.leb (calculateScore (analyzeText text))
                 (calculateScore (analyzeText text')) = true).
Proof.
  intro H.
  assert (W : AnalysisResult.totalWeight (analyzeText text)
              <= AnalysisResult.totalWeight (analyzeText text')).
  { rewrite !analyzeText_spec. simpl. now apply weights_mono. }
  split; [exact W|]. intros E N. now apply score_mono.
Qed.

Lemma more_matches_no_lower_score_witness :
  AnalysisResult.totalWeight (analyzeText (str "x vibrant"))
  <= AnalysisResult.totalWeight (analyzeText (str "vibrant vibrant"))
  /\ Number.leb (calculateScore (analyzeText (str "x vibrant")))
                (calculateScore (analyzeText (str "vibrant vibrant"))) = true.
Proof.
  assert (H : forall key c, In (key, c) PATTERNS ->
     List.length (category_matches (str "x vibrant") c)
     <= List.length (category_matches (str "vibrant vibrant") c)).
  { apply counts_le_check. vm_compute. reflexivity. }
  destruct (more_matches_no_lower_score (str "x vibrant") (str "vibrant vibrant") H)
    as [W S].
  split; [exact W|]. apply S; vm_compute; [reflexivity|lia].
Defined.

(* ================================================================== *)
(** * Further properties: the matches *)
(* ================================================================== *)

Section MatchShape.

Variable ic : bool.
Variable s : list char.

Lemma ends_min_length (r : regex) :
  forall i e, In e (ends ic s r i) -> i + min_length r <= e.
Proof.
  induction r; intros i e H; simpl.
  - apply ends_ge in H. lia.
  - simpl in H. apply step_char_In in H. lia.
  - simpl in H. apply step_char_In in H. lia.
  - simpl in H. apply step_char_In in H. lia.
  - apply ends_ge in H. lia.
  - simpl in H. apply in_flat_map in H. destruct H as [j [I J]].
    apply IHr1 in I. apply IHr2 in J. lia.
  - simpl in H. apply in_app_or in H.
    destruct H as [H|H]; [apply IHr1 in H|apply IHr2 in H]; lia.
  - apply ends_ge in H. lia.
  - apply ends_ge in H. lia.
  - simpl in H. apply in_flat_map in H. destruct H as [j [I J]].
    apply IHr in I. apply repeat_greedy_ge in J. lia.
Qed.

Lemma search_upper (r : regex) :
  forall fuel i a e, search ic s r fuel i = Some (a, e) -> a <= i + fuel.
Proof.
  induction fuel as [|fuel IH]; intros i a e; simpl;
    destruct (match_at ic s r i) as [e'|]; intro H; try discriminate;
    try (inversion H; subst; lia).
  apply IH in H. lia.
Qed.

Lemma search_match (r : regex) :
  forall fuel i a e, search ic s r fuel i = Some (a, e) -> match_at ic s r a = Some e.
Proof.
  induction fuel as [|fuel IH]; intros i a e; simpl;
    destruct (match_at ic s r i) as [e'|] eqn:M; intro H;
    try discriminate; try (inversion H; subst; exact M).
  now apply IH in H.
Qed.

(** A match of [exec] lies inside the string. *)
Lemma exec_inside (r : regex) (lastIndex a e : nat) :
  exec ic s r lastIndex = Some (a, e) ->
  lastIndex <= a /\ a + min_length r <= e /\ e <= List.length s.
Proof.
  unfold exec. destruct (Nat.ltb_spec (List.length s) lastIndex) as [L|L];
    [discriminate|].
  intro H. pose proof (search_bounds _ _ _ _ _ H) as [B _].
  pose proof (search_upper _ _ _ H) as U.
  pose proof (search_match _ _ _ H) as M.
  apply hd_error_In in M.
  pose proof (ends_min_length _ _ _ M). pose proof (ends_le _ _ _ _ _ M). lia.
Qed.

(** The matches of the iterator lie inside the string and, when the
    regex cannot match the empty string, do not overlap. *)
Lemma iterate_inside (r : regex) :
  forall fuel lastIndex,
    Forall (fun m => lastIndex <= fst m /\ fst m + min_length r <= snd m
                     /\ snd m <= List.length s)
           (iterate ic s r fuel lastIndex).
Proof.
  induction fuel as [|fuel IH]; intro lastIndex; simpl; [constructor|].
  destruct (exec ic s r lastIndex) as [[a e]|] eqn:E; [|constructor].
  pose proof (exec_inside _ _ E) as [B [M U]].
  constructor; [simpl; auto|].
  eapply Forall_impl; [|apply IH]. simpl. intros m [L R]. split; [|exact R].
  destruct (Nat.eqb_spec e a); lia.
Qed.

Lemma iterate_disjoint (r : regex) :
  forall fuel lastIndex,
    StronglySorted (fun m m' => snd m <= fst m') (iterate ic s r fuel lastIndex).
Proof.
  induction fuel as [|fuel IH]; intro lastIndex; simpl; [constructor|].
  destruct (exec ic s r lastIndex) as [[a e]|] eqn:E; [|constructor].
  constructor; [apply IH|].
  eapply Forall_impl; [|apply iterate_inside]. simpl. intros m [L _].
  destruct (Nat.eqb_spec e a); lia.
Qed.

End MatchShape.

Lemma PATTERNS_never_empty :
  forallb (fun p => 1 <=? min_length (source p)) all_patterns = true.
Proof. vm_compute. reflexivity. Qed.

Lemma in_all_patterns (key : string) (c : Category.t) (p : RegExp) :
  In (key, c) PATTERNS -> In p (Category.patterns c) -> In p all_patterns.
Proof.
  intros I J. unfold all_patterns. apply in_flat_map. exists (key, c). auto.
Qed.

Lemma slice_inside (s : list char) (a e : nat) :
  a <= e -> e <= List.length s -> List.length (slice s a e) = e - a.
Proof. intros. rewrite slice_length. lia. Qed.

(** What [analyzeText] records for a pattern that cannot match the empty
    string: substrings of the text that are not empty, one after the
    other without overlap. *)
Lemma pattern_matches_shape (text : list char) (p : RegExp) :
  1 <= min_length (source p) ->
  Forall (fun m => 1 <= List.length (Match.text m)
                   /\ Match.index m + List.length (Match.text m) <= List.length text
                   /\ Match.text m
                      = slice text (Match.index m)
                              (Match.index m + List.length (Match.text m)))
         (pattern_matches text p)
  /\ StronglySorted no_overlap (pattern_matches text p).
Proof.
  intro N. unfold pattern_matches, matchAll. cbn [fst].
  set (l := iterate _ _ _ _ _).
  assert (F : Forall (fun m => fst m + 1 <= snd m /\ snd m <= List.length text) l).
  { eapply Forall_impl; [|apply iterate_inside]. simpl. intros m [_ [A B]]. lia. }
  assert (D : StronglySorted (fun m m' => snd m <= fst m') l) by apply iterate_disjoint.
  clearbody l. split.
  - induction F as [|[a e] l [A B] F IH]; simpl; constructor.
    + cbn [Match.text Match.index fst snd] in *. rewrite slice_inside by lia.
      repeat split; try lia. f_equal. lia.
    + apply IH. now inversion D.
  - induction D as [|[a e] l D IH H]; simpl; constructor.
    + apply IH. now inversion F.
    + inversion F as [|x y [A B] F']; subst.
      rewrite Forall_forall in *. intros m I. apply in_map_iff in I.
      destruct I as [[a' e'] [<- I]]. specialize (H _ I).
      unfold no_overlap. cbn [Match.text Match.index record_match fst snd] in *.
      rewrite slice_inside by lia. lia.
Qed.

(** X1.  Every match that [analyzeText] records is a substring of the
    text that is not empty: its [text] is the slice of the input at
    [index], of a length of at least 1, and ends inside the input. *)
Theorem recorded_matches_are_substrings (text : list char) :
  let r := analyzeText text in
  (forall key cr m,
     In (key, cr) (AnalysisResult.patterns r) -> In m (CategoryResult.matches cr) ->
     1 <= List.length (Match.text m)
     /\ Match.index m + List.length (Match.text m) <= List.length text
     /\ Match.text m
        = slice text (Match.index m) (Match.index m + List.length (Match.text m))) /\
  (forall m,
     In m (AnalysisResult.matches r) ->
     1 <= List.length (TaggedMatch.text m)
     /\ TaggedMatch.index m + List.length (TaggedMatch.text m) <= List.length text
     /\ TaggedMatch.text m
        = slice text (TaggedMatch.index m)
                (TaggedMatch.index m + List.length (TaggedMatch.text m))).
Proof.
  assert (G : forall key c m, In (key, c) PATTERNS -> In m (category_matches text c) ->
     1 <= List.length (Match.text m)
     /\ Match.index m + List.length (Match.text m) <= List.length text
     /\ Match.text m
        = slice text (Match.index m) (Match.index m + List.length (Match.text m))).
  { intros key c m I J. unfold category_matches in J. apply in_flat_map in J.
    destruct J as [p [Ip Jm]].
    pose proof PATTERNS_never_empty as E. rewrite forallb_forall in E.
    specialize (E p (@in_all_patterns _ _ _ I Ip)). apply Nat.leb_le in E.
    destruct (@pattern_matches_shape text p E) as [F _].
    rewrite Forall_forall in F. now apply F. }
  cbv zeta. rewrite analyzeText_spec.
  cbn [AnalysisResult.matches AnalysisResult.patterns]. split.
  - intros key cr m H I. apply in_entries in H. destruct H as [c [Ic [_ ->]]].
    unfold category_result in I. cbn [CategoryResult.matches] in I. eauto.
  - intros m H. unfold tagged in H. apply in_flat_map in H.
    destruct H as [[k c] [Ic H]]. apply in_map_iff in H.
    destruct H as [m0 [<- I]]. unfold tag.
    cbn [TaggedMatch.text TaggedMatch.index snd] in *. eauto.
Qed.

Lemma recorded_matches_are_substrings_witness :
  exists m, In m (AnalysisResult.matches (analyzeText aiText))
            /\ 1 <= List.length (TaggedMatch.text m)
            /\ TaggedMatch.index m + List.length (TaggedMatch.text m)
               <= List.length aiText.
Proof.
  pose (m := hd {| TaggedMatch.text := []; TaggedMatch.index := 0;
                   TaggedMatch.context := []; TaggedMatch.category := EmptyString |}
                (AnalysisResult.matches (analyzeText aiText))).
  assert (I : In m (AnalysisResult.matches (analyzeText aiText)))
    by (vm_compute; left; reflexivity).
  exists m. split; [exact I|].
  destruct (proj2 (recorded_matches_are_substrings aiText) m I) as [A [B _]].
  split; [exact A|exact B].
Defined.

(** X2.  The matches of one pattern of the catalog come one after the
    other without overlap, and the match list of a category is the
    chain of the lists of its patterns. *)
Theorem pattern_matches_do_not_overlap (text : list char) :
  forall key c, In (key, c) PATTERNS ->
    (forall p, In p (Category.patterns c) ->
       StronglySorted no_overlap (pattern_matches text p)) /\
    (forall cr, In (key, cr) (AnalysisResult.patterns (analyzeText text)) ->
       CategoryResult.matches cr
       = flat_map (pattern_matches text) (Category.patterns c)).
Proof.
  intros key c I. split.
  - intros p Ip.
    pose proof PATTERNS_never_empty as E. rewrite forallb_forall in E.
    specialize (E p (@in_all_patterns _ _ _ I Ip)). apply Nat.leb_le in E.
    apply (@pattern_matches_shape text p E).
  - intros cr H. rewrite analyzeText_spec in H.
    cbn [AnalysisResult.patterns] in H. apply in_entries in H.
    destruct H as [c' [I' [_ ->]]].
    rewrite (@unique_key _ _ _ _ _ PATTERNS_keys I I'). reflexivity.
Qed.

Lemma pattern_matches_do_not_overlap_witness :
  StronglySorted no_overlap
    (pattern_matches (str "a vibrant, Vibrant place")
       (nth 1 (Category.patterns
                 (nth 2 (map snd PATTERNS) (Category.Build_t EmptyString EmptyString 0 [])))
            (Build_RegExp Empty false false 0))).
Proof.
  pose (c := nth 2 (map snd PATTERNS) (Category.Build_t EmptyString EmptyString 0 [])).
  assert (I : In ("promotional"%string, c) PATTERNS).
  { vm_compute. right. right. left. reflexivity. }
  apply (proj1 (@pattern_matches_do_not_overlap (str "a vibrant, Vibrant place") _ _ I)).
  vm_compute. right. left. reflexivity.
Defined.

(* ================================================================== *)
(** * Further properties: the two views of the result *)
(* ================================================================== *)

Lemma entries_counts (text : list char) (P : list (string * Category.t)) :
  Forall (fun e => CategoryResult.count (snd e)
                   = List.length (CategoryResult.matches (snd e)))
         (entries text P).
Proof.
  apply Forall_forall. intros [k cr] I. apply in_entries in I.
  destruct I as [c [_ [_ ->]]]. reflexivity.
Qed.

Lemma tagged_entries (text : list char) (P : list (string * Category.t)) :
  tagged text P
  = flat_map (fun e => map (tag_with (CategoryResult.name (snd e)))
                           (CategoryResult.matches (snd e)))
             (entries text P).
Proof.
  unfold tagged, entries. induction P as [|[k c] P IH]; [reflexivity|].
  cbn [flat_map filter]. unfold has_matches at 1. cbn [snd].
  destruct (category_matches text c) as [|m ms] eqn:E.
  - simpl. exact IH.
  - cbn [Nat.ltb Nat.leb List.length map flat_map]. rewrite IH.
    cbn [snd category_result CategoryResult.name CategoryResult.matches].
    rewrite E. reflexivity.
Qed.

(** X3.  The flat list [matches] of a result is the chain of the match
    lists of its categories, in the order of [patterns], each match
    with the name of its category; so the number of matches that the
    reports print is the sum of the counts of the categories. *)
Theorem flat_matches_follow_categories (text : list char) :
  let r := analyzeText text in
  AnalysisResult.matches r
  = flat_map (fun e => map (tag_with (CategoryResult.name (snd e)))
                           (CategoryResult.matches (snd e)))
             (AnalysisResult.patterns r)
  /\ List.length (AnalysisResult.matches r)
     = list_sum (map (fun e => CategoryResult.count (snd e)) (AnalysisResult.patterns r)).
Proof.
  cbv zeta. rewrite analyzeText_spec.
  cbn [AnalysisResult.matches AnalysisResult.patterns].
  rewrite tagged_entries. split; [reflexivity|].
  generalize (entries_counts text PATTERNS).
  induction (entries text PATTERNS) as [|[k cr] l IH]; intro C; [reflexivity|].
  cbn [flat_map map list_sum fold_right snd].
  rewrite length_app, length_map, IH.
  - inversion C as [|x y Hc C']; subst. cbn [snd] in Hc. rewrite Hc.
    reflexivity.
  - now inversion C.
Qed.

(* ================================================================== *)
(** * Further properties: more words *)
(* ================================================================== *)

Lemma of_nat_pos (n : nat) : 1 <= n -> Z.of_nat n = Z.pos (Pos.of_nat n).
Proof.
  intro H. rewrite <- (Nat2Pos.id n) at 1 by lia. apply positive_nat_Z.
Qed.

Lemma raw_score_fraction (tw wc : nat) :
  1 <= wc ->
  (raw_score tw wc + (1 # 2)
   == (1000 * Z.of_nat tw + Z.of_nat wc) # (2 * Pos.of_nat wc))%Q.
Proof.
  intro H. unfold raw_score.
  pose proof (of_nat_pos H) as P.
  rewrite P at 1. rewrite <- Qmake_Qdiv.
  unfold Qeq, Qplus, Qmult, inject_Z. cbn [Qnum Qden].
  rewrite P. rewrite !Pos2Z.inj_mul. ring.
Qed.

Lemma round_raw_score (tw wc : nat) :
  1 <= wc ->
  Qfloor (raw_score tw wc + (1 # 2))%Q
  = ((1000 * Z.of_nat tw + Z.of_nat wc) / (2 * Z.of_nat wc))%Z.
Proof.
  intro H. rewrite (Qfloor_comp _ _ (raw_score_fraction tw H)).
  unfold Qfloor. rewrite Pos2Z.inj_mul, <- (of_nat_pos H). reflexivity.
Qed.

(** The score in the exact arithmetic of the model. *)
Lemma score_integer (a : AnalysisResult.t) :
  1 <= AnalysisResult.wordCount a ->
  calculateScore a
  = Number.of_Z
      (Z.min 100
         ((1000 * Z.of_nat (AnalysisResult.totalWeight a)
           + Z.of_nat (AnalysisResult.wordCount a))
          / (2 * Z.of_nat (AnalysisResult.wordCount a)))).
Proof.
  intro H. now rewrite (calculateScore_words a H), round_raw_score by exact H.
Qed.

(** X5.  More words around the same matches never raise the score: for
    one total weight, the score of the analysis with more words is at
    most the score of the one with fewer. *)
Theorem more_words_no_higher_score (a b : AnalysisResult.t) :
  AnalysisResult.totalWeight a = AnalysisResult.totalWeight b ->
  1 <= AnalysisResult.wordCount a ->
  AnalysisResult.wordCount a <= AnalysisResult.wordCount b ->
  Number.leb (calculateScore b) (calculateScore a) = true.
Proof.
  intros E Ha L.
  assert (Hb : 1 <= AnalysisResult.wordCount b) by lia.
  rewrite (score_integer a Ha), (score_integer b Hb).
  rewrite leb_of_Z. apply Z.leb_le. rewrite <- E.
  set (tw := Z.of_nat (AnalysisResult.totalWeight a)).
  set (w := Z.of_nat (AnalysisResult.wordCount a)).
  set (w' := Z.of_nat (AnalysisResult.wordCount b)).
  assert (Hw : (1 <= w <= w')%Z) by (unfold w, w'; lia).
  assert (Ht : (0 <= tw)%Z) by (unfold tw; lia).
  apply Z.min_le_compat_l.
  apply Z.div_le_lower_bound; [lia|].
  pose proof (Z.div_mod (1000 * tw + w') (2 * w')) as D.
  pose proof (Z.mod_pos_bound (1000 * tw + w') (2 * w')) as B.
  set (q := ((1000 * tw + w') / (2 * w'))%Z) in *.
  set (m := ((1000 * tw + w') mod (2 * w'))%Z) in *.
  assert (D' : (1000 * tw + w' = 2 * w' * q + m)%Z) by (apply D; lia).
  assert (B' : (0 <= m < 2 * w')%Z) by (apply B; lia).
  assert (Q : (0 <= q)%Z) by (apply Z.div_pos; lia).
  clear D B. destruct (Z.eq_dec q 0) as [->|N]; [lia|].
  assert (K : (w' * (2 * q - 1) <= 1000 * tw)%Z) by nia.
  assert (K' : (w * (2 * q - 1) <= w' * (2 * q - 1))%Z) by (apply Z.mul_le_mono_nonneg_r; lia).
  nia.
Qed.

Lemma more_words_no_higher_score_witness :
  Number.leb (calculateScore (analyzeText (str "a vibrant thing b c d e f g h i j k l m n o p q r s")))
             (calculateScore (analyzeText (str "a vibrant thing"))) = true.
Proof.
  apply more_words_no_higher_score; vm_compute; try reflexivity; lia.
Defined.

(* ================================================================== *)
(** * Further properties: weights, and texts without a match *)
(* ================================================================== *)

Lemma PATTERNS_weights :
  forallb (fun e => (1 <=? Category.weight (snd e)) && (Category.weight (snd e) <=? 3))
          PATTERNS = true.
Proof. vm_compute. reflexivity. Qed.

Lemma tagged_length (text : list char) (P : list (string * Category.t)) :
  List.length (tagged text P)
  = list_sum (map (fun e => List.length (category_matches text (snd e))) P).
Proof.
  unfold tagged. induction P as [|e P IH]; [reflexivity|].
  cbn [flat_map map list_sum fold_right]. rewrite length_app, length_map, IH.
  reflexivity.
Qed.

Lemma weights_bounds (text : list char) (P : list (string * Category.t)) :
  forallb (fun e => (1 <=? Category.weight (snd e)) && (Category.weight (snd e) <=? 3))
          P = true ->
  List.length (tagged text P) <= weights text P
  /\ weights text P <= 3 * List.length (tagged text P).
Proof.
  rewrite tagged_length. unfold weights.
  induction P as [|e P IH]; intro H; [simpl; lia|].
  cbn [forallb] in H. apply Bool.andb_true_iff in H. destruct H as [W H].
  apply Bool.andb_true_iff in W. destruct W as [W1 W3].
  apply Nat.leb_le in W1. apply Nat.leb_le in W3.
  destruct (IH H) as [I1 I2]. cbn [map list_sum fold_right].
  fold (list_sum (map (fun e0 : string * Category.t =>
                         List.length (category_matches text (snd e0))) P)).
  fold (list_sum (map (fun e0 : string * Category.t =>
                         Category.weight (snd e0)
                         * List.length (category_matches text (snd e0))) P)).
  set (n := List.length (category_matches text (snd e))).
  set (w := Category.weight (snd e)) in *.
  nia.
Qed.

(** X6.  Every match adds between 1 and 3 to the total weight: the
    total weight lies between the number of matches and three times
    that number. *)
Theorem total_weight_bounds (text : list char) :
  let r := analyzeText text in
  List.length (AnalysisResult.matches r) <= AnalysisResult.totalWeight r
  /\ AnalysisResult.totalWeight r <= 3 * List.length (AnalysisResult.matches r).
Proof.
  cbv zeta. rewrite analyzeText_spec.
  cbn [AnalysisResult.matches AnalysisResult.totalWeight].
  apply weights_bounds, PATTERNS_weights.
Qed.

(** X7.  A text has no category in its result exactly when it has no
    match, and exactly when its total weight is 0; such a text, if it
    has a word, scores 0 and is labelled Very Human. *)
Theorem text_without_match (text : list char) :
  let r := analyzeText text in
  (AnalysisResult.patterns r = [] <-> AnalysisResult.matches r = []) /\
  (AnalysisResult.totalWeight r = 0 <-> AnalysisResult.matches r = []) /\
  (AnalysisResult.matches r = [] -> whitespace_only text = false ->
   calculateScore r = Number.of_Z 0
   /\ getScoreLabel (calculateScore r) = label_very_human).
Proof.
  cbv zeta. rewrite analyzeText_spec.
  cbn [AnalysisResult.matches AnalysisResult.patterns
       AnalysisResult.totalWeight AnalysisResult.wordCount].
  pose proof (weights_bounds text PATTERNS PATTERNS_weights) as [B1 B2].
  assert (TW : weights text PATTERNS = 0 <-> tagged text PATTERNS = []).
  { split; intro H.
    - apply length_zero_iff_nil. lia.
    - rewrite H in B2. simpl in B2. lia. }
  split; [|split; [exact TW|]].
  - rewrite tagged_entries. split; intro H.
    + now rewrite H.
    + destruct (entries text PATTERNS) as [|[k cr] l] eqn:E; [reflexivity|].
      exfalso.
      assert (I : In (k, cr) (entries text PATTERNS)) by (rewrite E; now left).
      apply in_entries in I. destruct I as [c [_ [N ->]]].
      cbn [flat_map snd category_result CategoryResult.matches] in H.
      apply app_eq_nil in H. destruct H as [H _].
      apply (f_equal (@List.length _)) in H. rewrite length_map in H.
      simpl in H. lia.
  - intros H W. apply TW in H.
    set (r := {| AnalysisResult.patterns := entries text PATTERNS;
                 AnalysisResult.matches := tagged text PATTERNS;
                 AnalysisResult.totalWeight := weights text PATTERNS;
                 AnalysisResult.wordCount := count_words text |}).
    assert (Hw : 1 <= AnalysisResult.wordCount r)
      by (now apply count_words_nonblank).
    assert (S0 : calculateScore r = Number.of_Z 0).
    { rewrite (score_integer r Hw). unfold r.
      cbn [AnalysisResult.totalWeight AnalysisResult.wordCount].
      rewrite H. f_equal. rewrite Z.mul_0_r, Z.add_0_l.
      unfold r in Hw. cbn [AnalysisResult.wordCount] in Hw.
      rewrite Z.div_small; lia. }
    split; [exact S0|]. rewrite S0. reflexivity.
Qed.

Lemma text_without_match_witness :
  calculateScore (analyzeText humanText) = Number.of_Z 0
  /\ getScoreLabel (calculateScore (analyzeText humanText)) = label_very_human.
Proof.
  apply (proj2 (proj2 (text_without_match humanText))); vm_compute; reflexivity.
Defined.

(* ================================================================== *)
(** * Further properties: looking a category up *)
(* ================================================================== *)

Lemma obj_get_absent {A : Type} (obj : list (string * A)) (key : string) :
  ~ In key (map fst obj) -> obj_get obj key = None.
Proof.
  induction obj as [|[k x] obj IH]; simpl; intro H; [reflexivity|].
  destruct (String.eqb_spec k key) as [E|_]; [exfalso; apply H; now left|].
  apply IH. intro I. apply H. now right.
Qed.

Lemma obj_get_entries (text : list char) (P : list (string * Category.t)) (key : string) :
  NoDup (map fst P) ->
  obj_get (entries text P) key
  = match obj_get P key with
    | Some c =>
        if 0 <? List.length (category_matches text c)
        then Some (category_result c (category_matches text c))
        else None
    | None => None
    end.
Proof.
  induction P as [|[k c] P IH]; intro ND; [reflexivity|].
  inversion ND as [|x l NI ND' E]; subst.
  unfold entries. cbn [filter obj_get]. unfold has_matches at 1. cbn [snd].
  destruct (String.eqb_spec k key) as [->|N].
  - destruct (0 <? List.length (category_matches text c)).
    + cbn [map obj_get fst]. now rewrite String.eqb_refl.
    + apply obj_get_absent. intro I. apply NI. eapply entries_keys. exact I.
  - destruct (0 <? List.length (category_matches text c)).
    + cbn [map obj_get fst]. destruct (String.eqb_spec k key); [contradiction|].
      now apply IH.
    + now apply IH.
Qed.

Lemma obj_get_In {A : Type} (obj : list (string * A)) (key : string) (v : A) :
  obj_get obj key = Some v -> In (key, v) obj.
Proof.
  induction obj as [|[k x] obj IH]; cbn [obj_get]; [discriminate|].
  destruct (String.eqb_spec k key) as [->|N].
  - intros [= ->]. now left.
  - intro H. right. now apply IH.
Qed.

(** No key of the catalog is the name of a property of
    [Object.prototype]. *)
Lemma PATTERNS_own_keys :
  forallb (fun e => negb (existsb (String.eqb (fst e)) Object_prototype)) PATTERNS = true.
Proof. vm_compute. reflexivity. Qed.

(** X8.  [patterns[key]] of a result is the entry of the category of
    the catalog with that key when the category has a match, and is
    undefined when it has none; for a [key] that is not one of the
    catalog it is the property of [Object.prototype] of that name when
    there is one, [constructor] or [toString] say, and undefined
    otherwise. *)
Theorem category_lookup (text : list char) (key : string) :
  get_property (AnalysisResult.patterns (analyzeText text)) key
  = match obj_get PATTERNS key with
    | Some c =>
        if 0 <? List.length (category_matches text c)
        then Own {| CategoryResult.name := Category.name c;
                    CategoryResult.description := Category.description c;
                    CategoryResult.matches := category_matches text c;
                    CategoryResult.weight := Category.weight c;
                    CategoryResult.count := List.length (category_matches text c) |}
        else Undefined
    | None =>
        if existsb (String.eqb key) Object_prototype then Inherited else Undefined
    end.
Proof.
  unfold get_property. rewrite analyzeText_spec. cbn [AnalysisResult.patterns].
  rewrite (@obj_get_entries text PATTERNS key PATTERNS_keys).
  destruct (obj_get PATTERNS key) as [c|] eqn:E; [|reflexivity].
  destruct (0 <? List.length (category_matches text c)); [reflexivity|].
  apply obj_get_In in E. pose proof PATTERNS_own_keys as O.
  rewrite forallb_forall in O. specialize (O _ E). cbn [fst] in O.
  apply negb_true_iff in O. now rewrite O.
Qed.

(* ================================================================== *)
(** * Further properties: what the word count counts *)
(* ================================================================== *)

Lemma skipn_nth {A : Type} (l : list A) (i : nat) (x : A) :
  nth_error l i = Some x -> skipn i l = x :: skipn (S i) l.
Proof.
  revert i. induction l as [|y l IH]; intros [|i]; simpl; try discriminate.
  - intro H. now inversion H.
  - intro H. now apply IH.
Qed.

Lemma skipn_past {A : Type} (l : list A) (i : nat) :
  nth_error l i = None -> skipn i l = [].
Proof. intro H. apply skipn_all2. now apply nth_error_None. Qed.

Lemma span_spaces_le (s : list char) : span_spaces s <= List.length s.
Proof.
  induction s as [|c s IH]; simpl; [lia|]. destruct (is_space c); simpl; lia.
Qed.

Lemma count_runs_skip (s : list char) :
  forall n, n <= span_spaces s -> count_runs false (skipn n s) = count_runs false s.
Proof.
  induction s as [|c s IH]; intros [|n] H; try reflexivity.
  simpl in *. destruct (is_space c); [|lia]. apply IH. lia.
Qed.

Section Runs.

Variable s : list char.

(** The greedy run of [\s] from [i] goes to the end of the whitespace
    there. *)
Lemma ws_run_hd :
  forall fuel i, List.length s - i <= fuel ->
    hd_error (repeat_greedy (ends false s (Class false [CsSpace])) fuel i)
    = Some (i + span_spaces (skipn i s)).
Proof.
  induction fuel as [|fuel IH]; intros i H; cbn [repeat_greedy].
  - rewrite skipn_all2 by lia. simpl. f_equal. lia.
  - rewrite ws_step. destruct (nth_error s i) as [c|] eqn:E.
    + rewrite (skipn_nth _ _ E). cbn [span_spaces].
      destruct (is_space c).
      * cbn [flat_map]. replace (i <? S i) with true by (symmetry; apply Nat.ltb_lt; lia).
        rewrite app_nil_r.
        assert (L : List.length s - S i <= fuel) by lia.
        specialize (IH (S i) L).
        destruct (repeat_greedy _ fuel (S i)); [discriminate IH|].
        simpl in *. rewrite IH. f_equal. lia.
      * simpl. f_equal. lia.
    + rewrite (skipn_past _ _ E). simpl. f_equal. lia.
Qed.

Lemma ws_match_at (q : nat) :
  match_at false s whitespace_run q
  = match nth_error s q with
    | Some c =>
        if is_space c then Some (S q + span_spaces (skipn (S q) s)) else None
    | None => None
    end.
Proof.
  unfold match_at, whitespace_run. rewrite ends_Plus, ws_step.
  destruct (nth_error s q) as [c|]; [|reflexivity].
  destruct (is_space c); [|reflexivity].
  cbn [flat_map]. rewrite app_nil_r. apply ws_run_hd. lia.
Qed.

(** The segments of [split] that are not empty, counted from a state of
    its loop in which [p..q] is free of whitespace. *)
Lemma split_loop_runs :
  forall fuel p q,
    List.length s - q <= fuel -> p <= q -> q <= List.length s ->
    List.length
      (filter (fun w => 0 <? List.length w)
              (split_loop false s whitespace_run fuel p q))
    = (if p <? q then 1 else 0) + count_runs (p <? q) (skipn q s).
Proof.
  induction fuel as [|fuel IH]; intros p q Hf Hp Hq.
  - assert (q = List.length s) by lia. subst q.
    cbn [split_loop filter]. rewrite slice_length, skipn_all.
    destruct (Nat.ltb_spec p (List.length s)) as [L|L].
    + replace (0 <? Nat.min (List.length s - p) (List.length s - p)) with true
        by (symmetry; apply Nat.ltb_lt; lia). reflexivity.
    + replace (0 <? Nat.min (List.length s - p) (List.length s - p)) with false
        by (symmetry; apply Nat.ltb_ge; lia). reflexivity.
  - cbn [split_loop]. destruct (Nat.ltb_spec q (List.length s)) as [L|L].
    + rewrite ws_match_at.
      destruct (nth_error s q) as [c|] eqn:E;
        [|apply nth_error_None in E; lia].
      rewrite (skipn_nth _ _ E). cbn [count_runs].
      destruct (is_space c) eqn:C.
      * pose proof (span_spaces_le (skipn (S q) s)) as SL.
        rewrite length_skipn in SL.
        set (e := S q + span_spaces (skipn (S q) s)) in *.
        assert (He : e <= List.length s) by (unfold e; lia).
        rewrite Nat.min_l by exact He.
        destruct (Nat.eqb_spec e p) as [Ee|_]; [unfold e in Ee; lia|].
        cbn [filter]. rewrite slice_length.
        assert (IHe := IH e e). rewrite Nat.ltb_irrefl in IHe. cbn [Nat.add] in IHe.
        assert (K : count_runs false (skipn e s) = count_runs false (skipn (S q) s)).
        { unfold e. rewrite Nat.add_comm, <- skipn_skipn. apply count_runs_skip. lia. }
        rewrite K in IHe.
        destruct (Nat.ltb_spec p q) as [Lp|Lp].
        -- replace (0 <? Nat.min (q - p) (List.length s - p)) with true
             by (symmetry; apply Nat.ltb_lt; lia).
           cbn [List.length]. rewrite IHe by (unfold e; lia). reflexivity.
        -- replace (0 <? Nat.min (q - p) (List.length s - p)) with false
             by (symmetry; apply Nat.ltb_ge; lia).
           rewrite IHe by (unfold e; lia). reflexivity.
      * rewrite IH by lia.
        replace (p <? S q) with true by (symmetry; apply Nat.ltb_lt; lia).
        destruct (p <? q); reflexivity.
    + assert (q = List.length s) by lia. subst q.
      cbn [filter]. rewrite slice_length, skipn_all.
      destruct (Nat.ltb_spec p (List.length s)) as [L'|L'].
      * replace (0 <? Nat.min (List.length s - p) (List.length s - p)) with true
          by (symmetry; apply Nat.ltb_lt; lia). reflexivity.
      * replace (0 <? Nat.min (List.length s - p) (List.length s - p)) with false
          by (symmetry; apply Nat.ltb_ge; lia). reflexivity.
Qed.

End Runs.

Lemma count_runs_app (a b : list char) (w : bool) :
  count_runs true b = count_runs false b ->
  count_runs w (a ++ b) = count_runs w a + count_runs false b.
Proof.
  intro H. revert w. induction a as [|x a IH]; intro w; simpl.
  - destruct w; [exact H|reflexivity].
  - destruct (is_space x); rewrite IH; lia.
Qed.

Lemma count_words_runs (t : list char) : count_words t = count_runs false t.
Proof.
  unfold count_words, split. destruct t as [|c t'] eqn:E; [reflexivity|].
  rewrite <- E. rewrite split_loop_runs by lia.
  rewrite Nat.ltb_irrefl. reflexivity.
Qed.

(** X9.  The word count of a text is the number of its maximal runs of
    characters that are not whitespace; so two texts joined where the
    second one starts with whitespace have the words of both. *)
Theorem word_count_counts_runs (text : list char) :
  AnalysisResult.wordCount (analyzeText text) = count_runs false text
  /\ forall rest c, is_space c = true ->
       AnalysisResult.wordCount (analyzeText (text ++ c :: rest))
       = AnalysisResult.wordCount (analyzeText text)
         + AnalysisResult.wordCount (analyzeText (c :: rest)).
Proof.
  rewrite !analyzeText_spec. cbn [AnalysisResult.wordCount].
  split; [apply count_words_runs|].
  intros rest c C. rewrite !analyzeText_spec. cbn [AnalysisResult.wordCount].
  rewrite !count_words_runs. apply count_runs_app. simpl. now rewrite C.
Qed.

Lemma word_count_counts_runs_witness :
  AnalysisResult.wordCount (analyzeText (str "It costs" ++ 32%N :: str "fifty dollars."))
  = AnalysisResult.wordCount (analyzeText (str "It costs"))
    + AnalysisResult.wordCount (analyzeText (32%N :: str "fifty dollars.")).
Proof.
  apply (proj2 (word_count_counts_runs (str "It costs"))). reflexivity.
Defined.

(* ================================================================== *)
(** * Further properties: the context holds the match *)
(* ================================================================== *)

Lemma slice_app_mid (pre mid post : list char) (x l : nat) :
  x + l <= List.length mid ->
  slice (pre ++ mid ++ post) (List.length pre + x) (List.length pre + x + l)
  = slice mid x (x + l).
Proof.
  intro H. unfold slice.
  replace (List.length pre + x + l - (List.length pre + x)) with l by lia.
  replace (x + l - x) with l by lia.
  rewrite skipn_app, skipn_all2 by lia.
  replace (List.length pre + x - List.length pre) with x by lia.
  cbn [app]. rewrite skipn_app.
  replace (x - List.length mid) with 0 by lia. cbn [skipn].
  rewrite firstn_app, length_skipn.
  replace (l - (List.length mid - x)) with 0 by lia.
  cbn [firstn]. now rewrite app_nil_r.
Qed.

Lemma slice_slice (t : list char) (st en x l : nat) :
  st + x + l <= en ->
  slice (slice t st en) x (x + l) = slice t (st + x) (st + x + l).
Proof.
  intro H. unfold slice.
  replace (x + l - x) with l by lia.
  replace (st + x + l - (st + x)) with l by lia.
  rewrite skipn_firstn_comm, firstn_firstn, skipn_skipn.
  replace (Nat.min l (en - st - x)) with l by lia.
  now rewrite (Nat.add_comm x st).
Qed.

(** [getContext] as front marker, slice and back marker. *)
Lemma getContext_parts (text : list char) (index matchLength cs : nat) :
  getContext text index matchLength (Z.of_nat cs)
  = (if cs <? index then str "..." else [])
    ++ slice text (index - cs) (Nat.min (List.length text) (index + matchLength + cs))
    ++ (if index + matchLength + cs <? List.length text then str "..." else []).
Proof.
  unfold getContext.
  replace (Z.to_nat (Z.max 0 (Z.of_nat index - Z.of_nat cs))) with (index - cs) by lia.
  replace (Z.to_nat (Z.min (Z.of_nat (List.length text))
                           (Z.of_nat index + Z.of_nat matchLength + Z.of_nat cs)))
    with (Nat.min (List.length text) (index + matchLength + cs)) by lia.
  replace (0 <? Z.max 0 (Z.of_nat index - Z.of_nat cs))%Z with (cs <? index)
    by (destruct (Nat.ltb_spec cs index),
                 (Z.ltb_spec 0 (Z.max 0 (Z.of_nat index - Z.of_nat cs))); lia).
  replace (Z.min (Z.of_nat (List.length text))
                 (Z.of_nat index + Z.of_nat matchLength + Z.of_nat cs)
           <? Z.of_nat (List.length text))%Z
    with (index + matchLength + cs <? List.length text)
    by (destruct (Nat.ltb_spec (index + matchLength + cs) (List.length text)),
                 (Z.ltb_spec (Z.min (Z.of_nat (List.length text))
                                    (Z.of_nat index + Z.of_nat matchLength + Z.of_nat cs))
                             (Z.of_nat (List.length text))); lia).
  destruct (cs <? index), (index + matchLength + cs <? List.length text);
    now rewrite ?app_nil_r, <- ?app_assoc.
Qed.

(** For a match inside the text, the context holds the match, after
    the front marker and at most [cs] characters, and is at most the
    match, [cs] characters on each side and the two markers long. *)
Lemma getContext_holds_match (text : list char) (index matchLength cs : nat) :
  index + matchLength <= List.length text ->
  let context := getContext text index matchLength (Z.of_nat cs) in
  let offset := if cs <? index then 3 + cs else index in
  slice context offset (offset + matchLength)
  = slice text index (index + matchLength)
  /\ List.length context <= matchLength + 2 * cs + 6.
Proof.
  intro H. cbv zeta. rewrite getContext_parts.
  set (mid := slice text (index - cs) (Nat.min (List.length text) (index + matchLength + cs))).
  assert (Lm : List.length mid
               = Nat.min (List.length text) (index + matchLength + cs) - (index - cs)).
  { unfold mid. rewrite slice_length. lia. }
  split.
  - destruct (Nat.ltb_spec cs index) as [L|L].
    + change (3 + cs) with (List.length (str "...") + cs).
      rewrite slice_app_mid by lia.
      unfold mid. rewrite slice_slice by lia. f_equal; lia.
    + change index with (List.length (@nil char) + index) at 1 2.
      rewrite slice_app_mid by lia.
      unfold mid. rewrite slice_slice by lia. f_equal; lia.
  - rewrite !length_app, Lm.
    destruct (cs <? index), (index + matchLength + cs <? List.length text);
      simpl; lia.
Qed.

(** X10.  The context of every recorded match holds the matched text:
    at offset 43 when the match starts after index 40, at the index of
    the match otherwise; and the context is at most 86 characters
    longer than the match. *)
Theorem context_holds_match (text : list char) :
  forall m, In m (AnalysisResult.matches (analyzeText text)) ->
    let offset := if 40 <? TaggedMatch.index m then 43 else TaggedMatch.index m in
    slice (TaggedMatch.context m) offset (offset + List.length (TaggedMatch.text m))
    = TaggedMatch.text m
    /\ List.length (TaggedMatch.context m) <= List.length (TaggedMatch.text m) + 86.
Proof.
  intros m H. rewrite analyzeText_spec in H. cbn [AnalysisResult.matches] in H.
  unfold tagged in H. apply in_flat_map in H. destruct H as [[k c] [Ic H]].
  apply in_map_iff in H. destruct H as [m0 [<- I]]. cbn [snd] in I.
  unfold category_matches in I. apply in_flat_map in I. destruct I as [p [Ip I]].
  pose proof PATTERNS_never_empty as E. rewrite forallb_forall in E.
  specialize (E p (@in_all_patterns _ _ _ Ic Ip)). apply Nat.leb_le in E.
  destruct (@pattern_matches_shape text p E) as [F _].
  rewrite Forall_forall in F. destruct (F _ I) as [_ [B T]].
  unfold pattern_matches in I. apply in_map_iff in I.
  destruct I as [[a e] [<- _]].
  unfold tag. cbn [TaggedMatch.context TaggedMatch.index TaggedMatch.text
                   record_match Match.context Match.index Match.text] in *.
  change contextSize_default with (Z.of_nat 40).
  destruct (getContext_holds_match text a (List.length (slice text a e)) 40 B)
    as [S L].
  cbv zeta in *. split; [|lia].
  change (3 + 40) with 43 in S. rewrite S. symmetry. exact T.
Qed.

Lemma context_holds_match_witness :
  exists m, In m (AnalysisResult.matches (analyzeText aiText))
            /\ slice (TaggedMatch.context m) 43 (43 + List.length (TaggedMatch.text m))
               = TaggedMatch.text m.
Proof.
  pose (m := nth 2 (AnalysisResult.matches (analyzeText aiText))
              {| TaggedMatch.text := []; TaggedMatch.index := 0;
                 TaggedMatch.context := []; TaggedMatch.category := EmptyString |}).
  assert (I : In m (AnalysisResult.matches (analyzeText aiText))).
  { apply nth_In. vm_compute. lia. }
  exists m. split; [exact I|].
  exact (proj1 (context_holds_match aiText m I)).
Defined.

(* ================================================================== *)
(** * Further properties: the case of letters *)
(* ================================================================== *)

Lemma lower_letters (c : char) :
  in_range 97 122 c = true -> In c (map N.of_nat (List.seq 97 26)).
Proof.
  unfold in_range. intro H. apply andb_true_iff in H. destruct H as [A B].
  apply N.leb_le in A. apply N.leb_le in B.
  apply in_map_iff. exists (N.to_nat c). split; [apply N2Nat.id|].
  apply in_seq. lia.
Qed.

(** [\s], [\w] and the line terminators do not tell the case of a
    letter. *)
Lemma canonicalize_class (c : char) :
  is_space (canonicalize true c) = is_space c
  /\ is_word (canonicalize true c) = is_word c
  /\ is_line_terminator (canonicalize true c) = is_line_terminator c.
Proof.
  unfold canonicalize. cbn [andb].
  destruct (in_range 97 122 c) eqn:E; [|repeat split].
  apply lower_letters in E. revert c E. apply Forall_forall.
  vm_compute. repeat constructor.
Qed.

Lemma repeat_greedy_ext (m m' : nat -> list nat) :
  (forall i, m i = m' i) ->
  forall fuel i, repeat_greedy m fuel i = repeat_greedy m' fuel i.
Proof.
  intros H fuel. induction fuel as [|fuel IH]; intro i; [reflexivity|].
  cbn [repeat_greedy]. rewrite H. f_equal. apply flat_map_ext. intro j.
  now rewrite IH.
Qed.

Section LetterCase.

Variables s s' : list char.
Hypothesis same : same_letters s s'.

Lemma same_length : List.length s = List.length s'.
Proof.
  unfold same_letters in same.
  rewrite <- (length_map (canonicalize true) s), same. apply length_map.
Qed.

Lemma same_nth (i : nat) :
  option_map (canonicalize true) (nth_error s i)
  = option_map (canonicalize true) (nth_error s' i).
Proof.
  unfold same_letters in same. now rewrite <- !nth_error_map, same.
Qed.

Lemma same_step (p : char -> bool) (i : nat) :
  (forall c, p (canonicalize true c) = p c) ->
  step_char s p i = step_char s' p i.
Proof.
  intro P. unfold step_char. pose proof (same_nth i) as N.
  destruct (nth_error s i) as [c|], (nth_error s' i) as [c'|];
    try discriminate; [|reflexivity].
  injection N as N. now rewrite <- (P c), N, P.
Qed.

Lemma same_step_canon (p : char -> bool) (i : nat) :
  step_char s (fun t => p (canonicalize true t)) i
  = step_char s' (fun t => p (canonicalize true t)) i.
Proof.
  unfold step_char. pose proof (same_nth i) as N.
  destruct (nth_error s i) as [c|], (nth_error s' i) as [c'|];
    try discriminate; [|reflexivity].
  injection N as N. now rewrite N.
Qed.

Lemma same_word_at (i : nat) : word_at s i = word_at s' i.
Proof.
  unfold word_at. pose proof (same_nth i) as N.
  destruct (nth_error s i) as [c|], (nth_error s' i) as [c'|];
    try discriminate; [|reflexivity].
  injection N as N.
  now rewrite <- (proj1 (proj2 (canonicalize_class c))), N,
              (proj1 (proj2 (canonicalize_class c'))).
Qed.

(** A regex with the [i] flag matches alike in two texts that differ in
    the case of letters only. *)
Lemma same_ends (r : regex) : forall i, ends true s r i = ends true s' r i.
Proof.
  induction r as [|c| |neg items| |r1 IH1 r2 IH2|r1 IH1 r2 IH2|r1 IH1|r1 IH1|r1 IH1];
    intro i; cbn [ends].
  - reflexivity.
  - apply (same_step_canon (fun t => N.eqb t (canonicalize true c))).
  - apply same_step. intro c. now rewrite (proj2 (proj2 (canonicalize_class c))).
  - unfold step_char. pose proof (same_nth i) as N.
    destruct (nth_error s i) as [c|], (nth_error s' i) as [c'|];
      try discriminate; [|reflexivity].
    injection N as N.
    replace (existsb (cset_mem true c) items) with (existsb (cset_mem true c') items);
      [reflexivity|].
    induction items as [|it items IH]; [reflexivity|].
    cbn [existsb]. rewrite IH. f_equal.
    destruct it as [a| |]; cbn [cset_mem].
    + now rewrite N.
    + now rewrite <- (proj1 (canonicalize_class c)), N, (proj1 (canonicalize_class c')).
    + now rewrite <- (proj1 (proj2 (canonicalize_class c))), N,
                  (proj1 (proj2 (canonicalize_class c'))).
  - unfold is_word_boundary. rewrite same_word_at.
    destruct i as [|j]; [reflexivity|]. now rewrite same_word_at.
  - rewrite IH1. apply flat_map_ext. intro j. apply IH2.
  - now rewrite IH1, IH2.
  - now rewrite IH1.
  - rewrite same_length. apply repeat_greedy_ext. exact IH1.
  - rewrite IH1. apply flat_map_ext. intro j. rewrite same_length.
    apply repeat_greedy_ext. exact IH1.
Qed.

Lemma same_search (r : regex) :
  forall fuel i, search true s r fuel i = search true s' r fuel i.
Proof.
  induction fuel as [|fuel IH]; intro i; cbn [search]; unfold match_at;
    rewrite same_ends; [reflexivity|].
  destruct (hd_error (ends true s' r i)); [reflexivity|apply IH].
Qed.

Lemma same_iterate (r : regex) :
  forall fuel i, iterate true s r fuel i = iterate true s' r fuel i.
Proof.
  induction fuel as [|fuel IH]; intro i; cbn [iterate]; [reflexivity|].
  unfold exec. rewrite same_length, same_search.
  destruct (List.length s' <? i); [reflexivity|].
  destruct (search true s' r (List.length s' - i) i) as [[a e]|]; [|reflexivity].
  now rewrite IH.
Qed.

Lemma same_slice (a b : nat) : same_letters (slice s a b) (slice s' a b).
Proof.
  unfold same_letters, slice in *. now rewrite <- !firstn_map, <- !skipn_map, same.
Qed.

Lemma same_count_runs : forall w, count_runs w s = count_runs w s'.
Proof.
  unfold same_letters in same. revert s' same.
  induction s as [|c t IH]; intros [|c' t'] E w; try discriminate; [reflexivity|].
  cbn [map] in E. injection E as Ec Et. cbn [count_runs].
  rewrite <- (proj1 (canonicalize_class c)), Ec, (proj1 (canonicalize_class c')).
  destruct (is_space c'); [apply IH; exact Et|].
  f_equal. apply IH; exact Et.
Qed.

End LetterCase.

(** X11.  Two texts that differ only in the case of ASCII letters have
    the same word count, and a pattern with the [i] flag has its matches
    at the same indices in both, the matched texts differing in the case
    of letters only. *)
Theorem letter_case_ignored (text text' : list char) :
  same_letters text text' ->
  AnalysisResult.wordCount (analyzeText text)
  = AnalysisResult.wordCount (analyzeText text')
  /\ forall p, ignoreCase p = true ->
       map Match.index (pattern_matches text p)
       = map Match.index (pattern_matches text' p)
       /\ Forall2 same_letters (map Match.text (pattern_matches text p))
                               (map Match.text (pattern_matches text' p)).
Proof.
  intro H. split.
  - rewrite !analyzeText_spec. cbn [AnalysisResult.wordCount].
    rewrite !count_words_runs. now apply same_count_runs.
  - intros p I. unfold pattern_matches, matchAll. cbn [fst]. rewrite I.
    rewrite (same_length H), (same_iterate H).
    generalize (iterate true text' (source p) (List.length text' + 2) (lastIndex p)).
    intro l. rewrite !map_map. split.
    + apply map_ext. now intros [a e].
    + induction l as [|[a e] l IH]; cbn [map]; constructor; [|exact IH].
      cbn [record_match Match.text]. now apply same_slice.
Qed.

Lemma letter_case_ignored_witness :
  same_letters (str "A Testament") (str "a testament")
  /\ AnalysisResult.wordCount (analyzeText (str "A Testament"))
     = AnalysisResult.wordCount (analyzeText (str "a testament")).
Proof.
  assert (H : same_letters (str "A Testament") (str "a testament"))
    by (vm_compute; reflexivity).
  split; [exact H|].
  exact (proj1 (@letter_case_ignored (str "A Testament") (str "a testament") H)).
Defined.

(* ================================================================== *)
(** * Further properties: no occurrence is passed over *)
(* ================================================================== *)

Section Leftmost.

Variable ic : bool.
Variable s : list char.

(** [search] stops at the first index at which the regex matches. *)
Lemma search_leftmost (r : regex) :
  forall fuel i,
    match search ic s r fuel i with
    | Some (a, _) => forall j, i <= j < a -> match_at ic s r j = None
    | None => forall j, i <= j <= i + fuel -> match_at ic s r j = None
    end.
Proof.
  induction fuel as [|fuel IH]; intro i; cbn [search];
    destruct (match_at ic s r i) as [e|] eqn:M; try (intros j J; lia).
  - intros j J. now replace j with i by lia.
  - specialize (IH (S i)).
    destruct (search ic s r fuel (S i)) as [[a e]|]; intros j J;
      (destruct (Nat.eq_dec j i) as [->|D]; [exact M|apply IH; lia]).
Qed.

(** The iterator passes over no match of a regex that cannot match the
    empty string, but for one that starts inside the match before. *)
Lemma iterate_complete (r : regex) :
  1 <= min_length r ->
  forall fuel lastIndex j e,
    List.length s + 1 <= fuel + lastIndex ->
    lastIndex <= j <= List.length s ->
    match_at ic s r j = Some e ->
    exists m, In m (iterate ic s r fuel lastIndex) /\ fst m <= j < snd m.
Proof.
  intro N. induction fuel as [|fuel IH]; intros li j e F J M; [lia|].
  cbn [iterate].
  destruct (exec ic s r li) as [[a e']|] eqn:E.
  - pose proof (@exec_inside ic s r li a e' E) as [B [L U]].
    assert (A : a <= j).
    { unfold exec in E. destruct (Nat.ltb_spec (List.length s) li); [discriminate|].
      pose proof (search_leftmost r (List.length s - li) li) as S.
      rewrite E in S. destruct (Nat.le_gt_cases a j) as [K|K]; [exact K|].
      rewrite S in M by lia. discriminate. }
    destruct (Nat.lt_ge_cases j e') as [K|K].
    + exists (a, e'). split; [now left|]. cbn [fst snd]. lia.
    + destruct (Nat.eqb_spec e' a) as [Q|Q]; [lia|].
      destruct (IH e' j e) as [m [I R]]; try lia; [exact M|].
      exists m. split; [now right|exact R].
  - unfold exec in E. destruct (Nat.ltb_spec (List.length s) li); [lia|].
    pose proof (search_leftmost r (List.length s - li) li) as S.
    rewrite E in S. rewrite S in M by lia. discriminate.
Qed.

End Leftmost.

Lemma PATTERNS_from_start :
  forallb (fun p => lastIndex p =? 0) all_patterns = true.
Proof. vm_compute. reflexivity. Qed.

(** X12.  No occurrence of a pattern of the catalog is passed over: an
    index of the text at which the pattern matches lies in a recorded
    match of that pattern, from its index to before its end. *)
Theorem no_occurrence_missed (text : list char) (p : RegExp) (i : nat) :
  In p all_patterns ->
  i <= List.length text ->
  occurs_at text p i = true ->
  exists m, In m (pattern_matches text p)
            /\ Match.index m <= i < Match.index m + List.length (Match.text m).
Proof.
  intros P L O.
  pose proof PATTERNS_never_empty as E. rewrite forallb_forall in E.
  specialize (E p P). apply Nat.leb_le in E.
  pose proof PATTERNS_from_start as Z. rewrite forallb_forall in Z.
  specialize (Z p P). apply Nat.eqb_eq in Z.
  unfold occurs_at in O.
  destruct (match_at (ignoreCase p) text (source p) i) as [e|] eqn:M; [|discriminate].
  destruct (@iterate_complete (ignoreCase p) text (source p) E
              (List.length text + 2) (lastIndex p) i e) as [[a e'] [I R]];
    try lia; [exact M|].
  cbn [fst snd] in R.
  exists (record_match text (a, e')). split.
  - unfold pattern_matches, matchAll. cbn [fst]. now apply in_map.
  - pose proof (@iterate_inside (ignoreCase p) text (source p)
                  (List.length text + 2) (lastIndex p)) as F.
    rewrite Forall_forall in F. specialize (F _ I). cbn [fst snd] in F.
    cbn [record_match Match.index Match.text].
    rewrite slice_inside by lia. lia.
Qed.

Lemma no_occurrence_missed_witness :
  exists m, In m (pattern_matches (str "It stands as proof") (hd (Build_RegExp Empty false false 0) all_patterns))
            /\ Match.index m <= 3 < Match.index m + List.length (Match.text m).
Proof.
  apply no_occurrence_missed.
  - vm_compute. left. reflexivity.
  - vm_compute. lia.
  - vm_compute. reflexivity.
Defined.

(* ================================================================== *)
(** * Further properties: the score line *)
(* ================================================================== *)

Lemma digits_of_uint (d : Decimal.uint) :
  forallb is_digit (str (DecimalString.NilEmpty.string_of_uint d)) = true.
Proof. induction d; simpl; auto. Qed.

Lemma decimal_digits (n : nat) : forallb is_digit (decimal n) = true.
Proof.
  unfold decimal, DecimalString.NilZero.string_of_uint.
  destruct (Nat.to_uint n) eqn:E; try reflexivity; rewrite <- E; apply digits_of_uint.
Qed.

Lemma decimal_not_empty (n : nat) : decimal n <> [].
Proof.
  unfold decimal, DecimalString.NilZero.string_of_uint.
  destruct (Nat.to_uint n); discriminate.
Qed.

Lemma leading_digits_all (s : list char) :
  forallb is_digit s = true ->
  leading_digits 10 s = map (fun c => (c - 48)%N) s.
Proof.
  induction s as [|c s IH]; [reflexivity|]. cbn [forallb map leading_digits].
  intro H. apply andb_true_iff in H. destruct H as [C H].
  unfold digit_value. unfold is_digit in C. rewrite C.
  unfold in_range in C. apply andb_true_iff in C. destruct C as [A B].
  apply N.leb_le in A. apply N.leb_le in B.
  destruct (N.ltb_spec (c - 48) 10) as [L|L]; [|lia].
  now rewrite IH.
Qed.

Lemma digits_value_uint (d : Decimal.uint) :
  forall acc,
    fold_left (fun acc d => 10 * acc + d)%N
      (map (fun c => (c - 48)%N) (str (DecimalString.NilEmpty.string_of_uint d)))
      acc
    = N.of_nat (Nat.of_uint_acc d (N.to_nat acc)).
Proof.
  induction d; intro acc; cbn [DecimalString.NilEmpty.string_of_uint str
    list_ascii_of_string map fold_left Nat.of_uint_acc];
    [now rewrite N2Nat.id|..];
    unfold str in IHd; rewrite IHd; f_equal; f_equal;
    rewrite Nat.tail_mul_spec; simpl N_of_ascii; lia.
Qed.

(** [parseInt] reads the decimal digits of a number back. *)
Lemma parseInt_decimal (n : nat) : parseInt (decimal n) = Number.of_nat n.
Proof.
  pose proof (decimal_digits n) as D. pose proof (@decimal_not_empty n) as E.
  unfold parseInt.
  assert (T : trimStart (decimal n) = decimal n).
  { destruct (decimal n) as [|c s]; [reflexivity|]. cbn [trimStart].
    cbn [forallb] in D. apply andb_true_iff in D. destruct D as [C _].
    replace (is_space c) with false; [reflexivity|].
    unfold is_digit, in_range in C. apply andb_true_iff in C. destruct C as [A B].
    apply N.leb_le in A. apply N.leb_le in B.
    assert (I : In c (map N.of_nat (List.seq 48 10))).
    { apply in_map_iff. exists (N.to_nat c). split; [apply N2Nat.id|].
      apply in_seq. lia. }
    clear - I. revert c I. apply Forall_forall. vm_compute. repeat constructor. }
  rewrite T.
  assert (V : digits_value 10 (leading_digits 10 (decimal n)) = N.of_nat n).
  { rewrite (leading_digits_all _ D). unfold digits_value, decimal,
      DecimalString.NilZero.string_of_uint.
    rewrite <- (DecimalNat.Unsigned.of_to n) at 2. unfold Nat.of_uint.
    destruct (Nat.to_uint n) eqn:U; try (rewrite <- U; apply digits_value_uint).
    reflexivity. }
  assert (L : leading_digits 10 (decimal n) <> []).
  { rewrite (leading_digits_all _ D). destruct (decimal n); [congruence|discriminate]. }
  destruct (decimal n) as [|c s] eqn:Dn; [congruence|].
  cbn [forallb] in D. apply andb_true_iff in D. destruct D as [C D].
  assert (C' := C). unfold is_digit, in_range in C'.
  apply andb_true_iff in C'. destruct C' as [A B].
  apply N.leb_le in A. apply N.leb_le in B.
  assert (S1 : match c :: s with
               | 45%N :: s' => (true, s')
               | 43%N :: s' => (false, s')
               | _ => (false, c :: s)
               end = (false, c :: s)).
  { destruct c as [|p]; [reflexivity|].
    do 6 (destruct p as [p|p|]; try reflexivity); lia. }
  rewrite S1.
  assert (S2 : match c :: s with
               | 48%N :: 120%N :: s' => (16%N, s')
               | 48%N :: 88%N :: s' => (16%N, s')
               | _ => (10%N, c :: s)
               end = (10%N, c :: s)).
  { destruct s as [|c2 s2].
    - destruct c as [|p]; [reflexivity|].
      do 6 (destruct p as [p|p|]; try reflexivity).
    - cbn [forallb] in D. apply andb_true_iff in D. destruct D as [C2 _].
      unfold is_digit, in_range in C2.
      apply andb_true_iff in C2. destruct C2 as [A2 B2].
      apply N.leb_le in A2. apply N.leb_le in B2.
      destruct c as [|p]; [reflexivity|].
      do 6 (destruct p as [p|p|]; try reflexivity).
      destruct c2 as [|p2]; [reflexivity|].
      do 7 (destruct p2 as [p2|p2|]; try reflexivity); lia. }
  rewrite S2.
  destruct (leading_digits 10 (c :: s)) as [|d ds] eqn:Ld; [congruence|].
  rewrite V. unfold Number.of_nat. now rewrite nat_N_Z.
Qed.

Lemma split_on_none (sep : char) (s : list char) :
  forallb (fun c => negb (N.eqb c sep)) s = true -> split_on sep s = [s].
Proof.
  induction s as [|c s IH]; [reflexivity|]. cbn [forallb split_on].
  intro H. apply andb_true_iff in H. destruct H as [C H].
  apply negb_true_iff in C. now rewrite C, IH.
Qed.

Lemma split_on_app (sep : char) (a b : list char) :
  forallb (fun c => negb (N.eqb c sep)) a = true ->
  split_on sep (a ++ sep :: b) = a :: split_on sep b.
Proof.
  induction a as [|c a IH]; cbn [forallb split_on app].
  - now rewrite N.eqb_refl.
  - intro H. apply andb_true_iff in H. destruct H as [C H].
    apply negb_true_iff in C. now rewrite C, IH.
Qed.

Lemma no_tab_decimal (n : nat) (rest : list char) :
  forallb (fun c => negb (N.eqb c 9)) rest = true ->
  forallb (fun c => negb (N.eqb c 9)) (decimal n ++ rest) = true.
Proof.
  intro H. rewrite forallb_app. apply andb_true_iff. split; [|exact H]. clear H.
  pose proof (decimal_digits n) as D. rewrite forallb_forall in *.
  intros c I. specialize (D c I). unfold is_digit, in_range in D.
  apply andb_true_iff in D. destruct D as [A B]. apply N.leb_le in A.
  apply negb_true_iff. apply N.eqb_neq. lia.
Qed.

Lemma no_tab_label (x : Number.number) :
  forallb (fun c => negb (N.eqb c 9)) (js (getScoreLabel x)) = true.
Proof.
  unfold getScoreLabel.
  repeat match goal with
         | |- context [if ?b then _ else _] => destruct b
         end; vm_compute; reflexivity.
Qed.

(** The score is NaN or one of the integers from 0 to 100. *)
Lemma score_values (a : AnalysisResult.t) :
  (calculateScore a = Number.NaN
   /\ AnalysisResult.wordCount a = 0 /\ AnalysisResult.totalWeight a = 0)
  \/ (exists k, k <= 100 /\ calculateScore a = Number.of_nat k
                /\ (1 <= AnalysisResult.wordCount a
                    \/ 1 <= AnalysisResult.totalWeight a)).
Proof.
  destruct (Nat.eq_dec (AnalysisResult.wordCount a) 0) as [Z|N].
  - rewrite (calculateScore_no_words a Z).
    destruct (Nat.eqb_spec (AnalysisResult.totalWeight a) 0) as [E|E].
    + left. auto.
    + right. exists 100. repeat split; [lia|]. right. lia.
  - destruct (@score_range a) as [k [K E]]; [lia|].
    right. exists (Z.to_nat k). repeat split; [lia| |left; lia].
    rewrite E. unfold Number.of_nat. now rewrite Z2Nat.id by lia.
Qed.

Lemma number_to_string_nat (k : nat) :
  k <= 100 -> number_to_string (Number.of_nat k) = Some (decimal k).
Proof.
  intro H. unfold number_to_string, Number.of_nat, Number.of_Z.
  rewrite Qfloor_Z.
  replace (Qeq_bool (inject_Z (Z.of_nat k)) (inject_Z (Z.of_nat k))) with true
    by (symmetry; apply Qeq_bool_iff; reflexivity).
  destruct (Z.ltb_spec (Z.abs (Z.of_nat k)) (10 ^ 21)) as [L|L]; [|lia].
  destruct (Z.ltb_spec (Z.of_nat k) 0) as [M|M]; [lia|].
  cbn [andb app]. now rewrite Zabs2Nat.id.
Qed.

(** X14.  [formatScore] gives a line of four fields between tabs: the
    score, the label, the word count followed by [ words], and the
    number of matches followed by [ patterns].  [parseInt] of the first
    field is the score again, NaN exactly when the analysis has no
    words and no weight. *)
Theorem score_line_reads_back (a : AnalysisResult.t) :
  exists line score_string,
    formatScore a = Some line
    /\ split_on 9%N line
       = [score_string;
          js (getScoreLabel (calculateScore a));
          decimal (AnalysisResult.wordCount a) ++ str " words";
          decimal (List.length (AnalysisResult.matches a)) ++ str " patterns"]
    /\ parseInt score_string = calculateScore a
    /\ (isNaN (parseInt score_string) = true
        <-> AnalysisResult.wordCount a = 0 /\ AnalysisResult.totalWeight a = 0).
Proof.
  assert (S : forall s, forallb (fun c => negb (N.eqb c 9)) s = true ->
    split_on 9%N
      (s ++ tab ++ js (getScoreLabel (calculateScore a)) ++ tab
       ++ decimal (AnalysisResult.wordCount a) ++ str " words" ++ tab
       ++ decimal (List.length (AnalysisResult.matches a)) ++ str " patterns")
    = [s; js (getScoreLabel (calculateScore a));
       decimal (AnalysisResult.wordCount a) ++ str " words";
       decimal (List.length (AnalysisResult.matches a)) ++ str " patterns"]).
  { intros s H. unfold tab. cbn [app].
    rewrite split_on_app by exact H.
    rewrite split_on_app by apply no_tab_label.
    rewrite app_assoc. rewrite split_on_app by (now apply no_tab_decimal).
    rewrite split_on_none by (now apply no_tab_decimal). reflexivity. }
  unfold formatScore.
  destruct (score_values a) as [[E [W T]]|[k [K [E P]]]]; rewrite E.
  - exists (str "NaN" ++ tab ++ js (getScoreLabel Number.NaN) ++ tab
            ++ decimal (AnalysisResult.wordCount a) ++ str " words" ++ tab
            ++ decimal (List.length (AnalysisResult.matches a)) ++ str " patterns"),
           (str "NaN").
    rewrite E in S. repeat split; auto.
  - rewrite (number_to_string_nat K).
    exists (decimal k ++ tab ++ js (getScoreLabel (Number.of_nat k)) ++ tab
            ++ decimal (AnalysisResult.wordCount a) ++ str " words" ++ tab
            ++ decimal (List.length (AnalysisResult.matches a)) ++ str " patterns"),
           (decimal k).
    rewrite E in S. rewrite parseInt_decimal.
    split; [reflexivity|]. split; [apply S; rewrite <- (app_nil_r (decimal k)); now apply no_tab_decimal|].
    split; [reflexivity|]. cbn [isNaN Number.of_nat Number.of_Z]. split; [discriminate|lia].
Qed.

(** The assertions of the test of the score command. *)
Example test_score_command :
  exists output,
    formatScore (analyzeText aiText) = Some output
    /\ existsb (N.eqb 9) output = true
    /\ isNaN (parseInt (hd [] (split_on 9%N output))) = false.
Proof.
  eexists. split; [vm_compute; reflexivity|]. split; vm_compute; reflexivity.
Qed.

(* ================================================================== *)
(** * Text appended after a separator *)
(* ================================================================== *)

Lemma keep_app (n : nat) (a b : list nat) : keep n (a ++ b) = keep n a ++ keep n b.
Proof. apply filter_app. Qed.

Lemma keep_above (n : nat) (l : list nat) :
  (forall e, In e l -> n < e) -> keep n l = [].
Proof.
  induction l as [|x l IH]; intro H; [reflexivity|]. unfold keep in *. cbn [filter].
  destruct (Nat.leb_spec x n) as [L|L].
  - specialize (H x (or_introl eq_refl)). lia.
  - apply IH. intros e I. apply H. now right.
Qed.

Lemma keep_flat_map (n : nat) (g' g : nat -> list nat) (l : list nat) :
  (forall j, j <= n -> keep n (g' j) = g j) ->
  (forall j e, In e (g' j) -> j <= e) ->
  keep n (flat_map g' l) = flat_map g (keep n l).
Proof.
  intros H G. induction l as [|x l IH]; [reflexivity|].
  cbn [flat_map]. rewrite keep_app, IH. unfold keep at 3. cbn [filter].
  destruct (Nat.leb_spec x n) as [L|L].
  - cbn [flat_map]. now rewrite H.
  - rewrite keep_above; [reflexivity|]. intros e I. apply G in I. lia.
Qed.

Lemma keep_filter (n : nat) (f : nat -> bool) (l : list nat) :
  keep n (filter f l) = filter f (keep n l).
Proof.
  unfold keep. induction l as [|x l IH]; [reflexivity|]. cbn [filter].
  destruct (f x) eqn:F, (x <=? n) eqn:L; cbn [filter]; rewrite ?F, ?L, IH; reflexivity.
Qed.

Lemma keep_repeat_greedy (n : nat) (m' m : nat -> list nat) :
  (forall i, i <= n -> keep n (m' i) = m i) ->
  (forall i e, In e (m' i) -> i <= e) ->
  forall fuel i, i <= n ->
    keep n (repeat_greedy m' fuel i) = repeat_greedy m fuel i.
Proof.
  intros H G. induction fuel as [|fuel IH]; intros i L; cbn [repeat_greedy].
  - unfold keep. cbn [filter]. destruct (Nat.leb_spec i n); [reflexivity|lia].
  - rewrite keep_app.
    rewrite (@keep_flat_map n _ (fun j => if i <? j then repeat_greedy m fuel j else [])).
    + rewrite (H i L). f_equal. unfold keep. cbn [filter].
      destruct (Nat.leb_spec i n); [reflexivity|lia].
    + intros j J. destruct (i <? j); [now apply IH|reflexivity].
    + intros j e I. destruct (i <? j); [|contradiction].
      now apply repeat_greedy_ge in I.
Qed.

Section Appended.

Variable ic : bool.
Variables s suffix : list char.
Variable c : char.
Hypothesis separated : is_word c = false.

Lemma nth_error_appended (i : nat) :
  i < List.length s -> nth_error (s ++ c :: suffix) i = nth_error s i.
Proof. intro H. now apply nth_error_app1. Qed.

Lemma nth_error_separator : nth_error (s ++ c :: suffix) (List.length s) = Some c.
Proof. rewrite nth_error_app2 by lia. now rewrite Nat.sub_diag. Qed.

Lemma word_at_appended (i : nat) :
  i <= List.length s -> word_at (s ++ c :: suffix) i = word_at s i.
Proof.
  intro H. unfold word_at. destruct (Nat.eq_dec i (List.length s)) as [->|N].
  - rewrite nth_error_separator, separated.
    now replace (nth_error s (List.length s)) with (@None char)
      by (symmetry; apply nth_error_None; lia).
  - now rewrite nth_error_appended by lia.
Qed.

Lemma step_char_appended (p : char -> bool) (i : nat) :
  i <= List.length s ->
  keep (List.length s) (step_char (s ++ c :: suffix) p i) = step_char s p i.
Proof.
  intro H. unfold step_char. destruct (Nat.eq_dec i (List.length s)) as [->|N].
  - rewrite nth_error_separator.
    replace (nth_error s (List.length s)) with (@None char)
      by (symmetry; apply nth_error_None; lia).
    destruct (p c); [|reflexivity]. unfold keep. cbn [filter].
    destruct (Nat.leb_spec (S (List.length s)) (List.length s)); [lia|reflexivity].
  - rewrite nth_error_appended by lia.
    destruct (nth_error s i) as [t|]; [|reflexivity].
    destruct (p t); [|reflexivity]. unfold keep. cbn [filter].
    destruct (Nat.leb_spec (S i) (List.length s)); [reflexivity|lia].
Qed.

(** The matches of a regex that end in the text are the same with and
    without the appended part, in the same order of preference. *)
Lemma ends_appended (r : regex) :
  forall i, i <= List.length s ->
    keep (List.length s) (ends ic (s ++ c :: suffix) r i) = ends ic s r i.
Proof.
  assert (K : forall i, i <= List.length s -> keep (List.length s) [i] = [i]).
  { intros i L. unfold keep. cbn [filter].
    destruct (Nat.leb_spec i (List.length s)); [reflexivity|lia]. }
  assert (F : forall i, List.length (s ++ c :: suffix) - i
                        = List.length s - i + (List.length (s ++ c :: suffix) - i
                                               - (List.length s - i))).
  { intro i. rewrite length_app. cbn [List.length]. lia. }
  induction r as [|a| |neg items| |r1 IH1 r2 IH2|r1 IH1 r2 IH2|r1 IH1|r1 IH1|r1 IH1];
    intros i L; cbn [ends].
  - now apply K.
  - now apply step_char_appended.
  - now apply step_char_appended.
  - now apply step_char_appended.
  - unfold is_word_boundary. rewrite word_at_appended by exact L.
    destruct i as [|j].
    + destruct (xorb false (word_at s 0)); [now apply K|reflexivity].
    + rewrite word_at_appended by lia.
      destruct (xorb (word_at s j) (word_at s (S j))); [now apply K|reflexivity].
  - rewrite (@keep_flat_map _ _ (ends ic s r2)).
    + now rewrite IH1.
    + exact IH2.
    + intros j e. apply ends_ge.
  - now rewrite keep_app, IH1, IH2.
  - now rewrite keep_app, keep_filter, IH1, K.
  - rewrite (@keep_repeat_greedy _ _ (ends ic s r1)); [|exact IH1| |exact L].
    + rewrite F. apply star_fuel.
    + intros j e. apply ends_ge.
  - rewrite (@keep_flat_map _ _
               (fun j => repeat_greedy (ends ic s r1) (List.length s - j) j)).
    + now rewrite IH1.
    + intros j J.
      rewrite (@keep_repeat_greedy _ _ (ends ic s r1)); [|exact IH1| |exact J].
      * rewrite F. apply star_fuel.
      * intros k e. apply ends_ge.
    + intros j e. apply repeat_greedy_ge.
Qed.

Lemma In_appended (r : regex) (i e : nat) :
  i <= List.length s -> In e (ends ic s r i) -> In e (ends ic (s ++ c :: suffix) r i).
Proof.
  intros L H. rewrite <- ends_appended in H by exact L.
  apply filter_In in H. tauto.
Qed.

(** What matches at an index of the text still matches there, with the
    same end or with one in the appended part. *)
Lemma match_at_appended (r : regex) (i : nat) :
  i <= List.length s ->
  match match_at ic (s ++ c :: suffix) r i with
  | Some e' => match_at ic s r i = Some e' \/ List.length s < e'
  | None => match_at ic s r i = None
  end.
Proof.
  intro L. unfold match_at. rewrite <- (ends_appended r L).
  destruct (ends ic (s ++ c :: suffix) r i) as [|e' l]; [reflexivity|].
  unfold keep. cbn [filter hd_error].
  destruct (Nat.leb_spec e' (List.length s)); [now left|now right].
Qed.

End Appended.

Section Exec.

Variable ic : bool.
Variable s : list char.

(** [exec] gives the leftmost index from [lastIndex] on at which the
    regex matches, and the end of the match there. *)
Lemma exec_leftmost (r : regex) (lastIndex a e : nat) :
  exec ic s r lastIndex = Some (a, e) ->
  lastIndex <= a <= List.length s
  /\ match_at ic s r a = Some e
  /\ forall j, lastIndex <= j < a -> match_at ic s r j = None.
Proof.
  unfold exec. destruct (Nat.ltb_spec (List.length s) lastIndex) as [L|L];
    [discriminate|].
  intro H. pose proof H as B. apply search_bounds in B. destruct B as [B _].
  pose proof H as U. apply search_upper in U.
  pose proof H as M. apply search_match in M.
  pose proof (search_leftmost ic s r (List.length s - lastIndex) lastIndex) as F.
  rewrite H in F. repeat split; try lia; assumption.
Qed.

Lemma exec_none (r : regex) (lastIndex : nat) :
  exec ic s r lastIndex = None ->
  forall j, lastIndex <= j <= List.length s -> match_at ic s r j = None.
Proof.
  unfold exec. destruct (Nat.ltb_spec (List.length s) lastIndex) as [L|L];
    [intros _ j J; lia|].
  intros H j J.
  pose proof (search_leftmost ic s r (List.length s - lastIndex) lastIndex) as F.
  rewrite H in F. apply F. lia.
Qed.

Lemma exec_found (r : regex) (lastIndex j e : nat) :
  lastIndex <= j <= List.length s ->
  match_at ic s r j = Some e ->
  exists a e0, exec ic s r lastIndex = Some (a, e0) /\ a <= j.
Proof.
  intros J M. destruct (exec ic s r lastIndex) as [[a e0]|] eqn:E.
  - exists a, e0. split; [reflexivity|].
    pose proof E as F. apply exec_leftmost in F. destruct F as [_ [_ F]].
    destruct (Nat.le_gt_cases a j) as [L|L]; [exact L|].
    rewrite F in M by lia. discriminate.
  - pose proof E as F. apply exec_none with (j := j) in F; [|exact J].
    congruence.
Qed.

End Exec.

Section AppendedScan.

Variable ic : bool.
Variables s suffix : list char.
Variable c : char.
Hypothesis separated : is_word c = false.

(** The iterator of [matchAll] finds at least as many matches after
    text is appended. *)
Lemma iterate_appended (r : regex) :
  1 <= min_length r ->
  swallow_free ic r ->
  forall fuel lastIndex fuel',
    List.length s + 2 <= fuel + lastIndex ->
    List.length (s ++ c :: suffix) + 2 <= fuel' + lastIndex ->
    List.length (iterate ic s r fuel lastIndex)
    <= List.length (iterate ic (s ++ c :: suffix) r fuel' lastIndex).
Proof.
  intros N W. induction fuel as [|fuel IH]; intros li fuel' F F'; [cbn; lia|].
  cbn [iterate].
  destruct (exec ic s r li) as [[a e]|] eqn:E; [|cbn; lia].
  pose proof E as X. apply exec_leftmost in X. destruct X as [[La Ua] [M Lm]].
  pose proof E as X. apply exec_inside in X. destruct X as [_ [Ne Ue]].
  destruct (Nat.eqb_spec e a) as [Q|_]; [lia|].
  assert (M' : exists e2, match_at ic (s ++ c :: suffix) r a = Some e2).
  { pose proof (@match_at_appended ic s suffix c separated r a Ua) as P.
    destruct (match_at ic (s ++ c :: suffix) r a) as [e2|]; [now exists e2|].
    congruence. }
  destruct M' as [e2 M'].
  assert (Ls : List.length (s ++ c :: suffix) = List.length s + S (List.length suffix))
    by (rewrite length_app; reflexivity).
  destruct (@exec_found ic (s ++ c :: suffix) r li a e2) as [a' [e' [E' A']]];
    [lia|exact M'|].
  destruct fuel' as [|fuel']; [lia|]. cbn [iterate]. rewrite E'.
  pose proof E' as X. apply exec_leftmost in X. destruct X as [[La' _] [Ma' _]].
  pose proof E' as X. apply exec_inside in X. destruct X as [_ [Ne' _]].
  destruct (Nat.eqb_spec e' a') as [Q|_]; [lia|].
  destruct (Nat.le_gt_cases e' (List.length s)) as [In|Out].
  - pose proof (@match_at_appended ic s suffix c separated r a' ltac:(lia)) as P.
    rewrite Ma' in P. destruct P as [P|P]; [|lia].
    assert (a' = a).
    { destruct (Nat.eq_dec a' a) as [->|D]; [reflexivity|].
      rewrite Lm in P by lia. discriminate. }
    subst a'. assert (e' = e) by congruence. subst e'.
    cbn [List.length]. apply le_n_S. apply IH; lia.
  - assert (Z : iterate ic s r fuel e = []).
    { destruct fuel; [reflexivity|]. cbn [iterate].
      now rewrite (W s suffix c li a e a' e' separated E E' Out). }
    rewrite Z. cbn [List.length]. lia.
Qed.

End AppendedScan.

(* ================================================================== *)
(** * Marked characters in a match *)
(* ================================================================== *)

Lemma firstn_add {A : Type} (a b : nat) (l : list A) :
  firstn (a + b) l = firstn a l ++ firstn b (skipn a l).
Proof.
  revert l. induction a as [|a IH]; intro l; [reflexivity|].
  destruct l as [|x l]; cbn [Nat.add firstn skipn app].
  - now rewrite firstn_nil.
  - now rewrite IH.
Qed.

Lemma slice_split (s : list char) (i j e : nat) :
  i <= j <= e -> slice s i e = slice s i j ++ slice s j e.
Proof.
  intros [L R]. unfold slice.
  replace (e - i) with ((j - i) + (e - j)) by lia.
  rewrite firstn_add, skipn_skipn.
  now replace (j - i + i) with j by lia.
Qed.

Lemma canonicalize_false (t : char) : canonicalize false t = t.
Proof. reflexivity. Qed.

Lemma canonicalize_space (ic : bool) (t : char) :
  is_space (canonicalize ic t) = is_space t.
Proof. destruct ic; [apply canonicalize_class|reflexivity]. Qed.

Lemma canonicalize_word (ic : bool) (t : char) :
  is_word (canonicalize ic t) = is_word t.
Proof. destruct ic; [apply canonicalize_class|reflexivity]. Qed.

(** Two characters that the matcher takes for the same are marked
    alike. *)
Lemma marks_canon (ic : bool) (M : marker) (t a : char) :
  canonicalize ic t = canonicalize ic a -> marks ic M t = marks ic M a.
Proof.
  intro H. destruct M as [|l]; cbn [marks].
  - now rewrite <- (canonicalize_space ic t), H, canonicalize_space.
  - now rewrite H.
Qed.

Lemma item_must_sound (ic : bool) (M : marker) (t : char) (item : cset) :
  cset_mem ic t item = true -> item_must ic M item = true -> marks ic M t = true.
Proof.
  destruct M as [|l], item as [a| |]; cbn [cset_mem item_must]; intros H I;
    try discriminate.
  - apply N.eqb_eq in H. now rewrite (@marks_canon ic NonSpace t a) by congruence.
  - cbn [marks]. destruct (is_space t) eqn:S; [|reflexivity].
    apply space_not_word in S. congruence.
  - apply N.eqb_eq in H. cbn [marks]. now rewrite <- H.
Qed.

Lemma item_may_sound (ic : bool) (M : marker) (t : char) (item : cset) :
  cset_mem ic t item = true -> marks ic M t = true -> item_may ic M item = true.
Proof.
  destruct M as [|l], item as [a| |]; cbn [cset_mem item_may marks]; intros H I.
  - apply N.eqb_eq in H.
    now rewrite <- (canonicalize_space ic a), H, canonicalize_space.
  - rewrite H in I. discriminate.
  - reflexivity.
  - apply N.eqb_eq in H. now rewrite H.
  - apply existsb_exists in I. destruct I as [x [X E]]. apply N.eqb_eq in E.
    apply existsb_exists. exists x. split; [exact X|].
    now rewrite <- E, canonicalize_space.
  - apply existsb_exists in I. destruct I as [x [X E]]. apply N.eqb_eq in E.
    apply existsb_exists. exists x. split; [exact X|].
    now rewrite <- E, canonicalize_word.
Qed.

Lemma covers_sound (ic : bool) (M : marker) (t : char) (items : list cset) :
  covers ic M items = true -> marks ic M t = true ->
  existsb (cset_mem ic t) items = true.
Proof.
  destruct M as [|l]; cbn [covers marks]; [discriminate|]. intros C I.
  apply existsb_exists in I. destruct I as [x [X E]]. apply N.eqb_eq in E.
  rewrite forallb_forall in C. specialize (C x X).
  apply existsb_exists in C. destruct C as [item [J K]].
  apply existsb_exists. exists item. split; [exact J|].
  destruct item as [a| |]; try discriminate. cbn [cset_mem].
  apply N.eqb_eq in K. apply N.eqb_eq. congruence.
Qed.

Section Marks.

Variable ic : bool.
Variable s : list char.
Variable M : marker.

(** The marked characters of [s] from [i] to before [e]. *)
Lemma marked_split (i j e : nat) :
  i <= j <= e ->
  count_marks ic M (slice s i e)
  = count_marks ic M (slice s i j) + count_marks ic M (slice s j e).
Proof.
  intro H. unfold count_marks.
  now rewrite (slice_split s H), filter_app, length_app.
Qed.

Lemma marked_none (i : nat) : count_marks ic M (slice s i i) = 0.
Proof. unfold count_marks, slice. now rewrite Nat.sub_diag. Qed.

Lemma marked_one (i : nat) (t : char) :
  nth_error s i = Some t ->
  count_marks ic M (slice s i (S i)) = if marks ic M t then 1 else 0.
Proof.
  intro H. unfold count_marks, slice. rewrite (skipn_nth _ _ H).
  replace (S i - i) with 1 by lia. cbn [firstn filter].
  destruct (marks ic M t); reflexivity.
Qed.

Lemma marked_inside (i k e : nat) (t : char) :
  i <= k < e -> nth_error s k = Some t -> marks ic M t = true ->
  1 <= count_marks ic M (slice s i e).
Proof.
  intros H N T.
  rewrite (@marked_split i k e) by lia. rewrite (@marked_split k (S k) e) by lia.
  rewrite (@marked_one k t N), T. lia.
Qed.

Lemma repeat_unmarked (m : nat -> list nat) :
  (forall i e, In e (m i) -> count_marks ic M (slice s i e) = 0) ->
  forall fuel i e, In e (repeat_greedy m fuel i) ->
    count_marks ic M (slice s i e) = 0.
Proof.
  intro H. induction fuel as [|fuel IH]; intros i e I;
    apply repeat_greedy_In in I; destruct I as [->|[j [J [L I]]]];
    try apply marked_none; try contradiction.
  pose proof (repeat_greedy_ge _ _ _ _ I) as G.
  rewrite (@marked_split i j e) by lia. rewrite (H _ _ J), (IH _ _ I). reflexivity.
Qed.

(** The bounds of [min_marks] and [max_marks] hold of every match. *)
Lemma marks_bounds (r : regex) :
  forall i e, In e (ends ic s r i) ->
    min_marks ic M r <= count_marks ic M (slice s i e)
    /\ forall k, max_marks ic M r = Some k -> count_marks ic M (slice s i e) <= k.
Proof.
  induction r as [|a| |neg items| |r1 IH1 r2 IH2|r1 IH1 r2 IH2|r1 IH1|r1 IH1|r1 IH1];
    intros i e H; cbn [ends] in H; cbn [min_marks max_marks].
  - destruct H as [<-|[]]. rewrite marked_none. split; [lia|]. intros; lia.
  - apply step_char_In in H. destruct H as [-> [t [N P]]]. apply N.eqb_eq in P.
    rewrite (@marked_one i t N), (@marks_canon ic M t a P).
    split; [lia|]. intros k [= <-]. lia.
  - apply step_char_In in H. destruct H as [-> [t [N P]]].
    rewrite (@marked_one i t N). split; [lia|]. intros k [= <-].
    destruct (marks ic M t); lia.
  - apply step_char_In in H. destruct H as [-> [t [N P]]].
    rewrite (@marked_one i t N). destruct neg; cbn [xorb] in P.
    + split; [lia|]. intros k [= <-].
      destruct (covers ic M items) eqn:C; [|destruct (marks ic M t); lia].
      destruct (marks ic M t) eqn:T; [|lia].
      rewrite (@covers_sound ic M t items C T) in P. discriminate.
    + apply existsb_exists in P. destruct P as [item [J K]]. split.
      * destruct (forallb (item_must ic M) items) eqn:F; [|lia].
        rewrite forallb_forall in F.
        now rewrite (@item_must_sound ic M t item K (F _ J)).
      * intros k [= <-]. destruct (marks ic M t) eqn:T; [|lia].
        replace (existsb (item_may ic M) items) with true; [lia|].
        symmetry. apply existsb_exists. exists item. split; [exact J|].
        now apply (@item_may_sound ic M t item K).
  - destruct (is_word_boundary s i); [|contradiction]. destruct H as [<-|[]].
    rewrite marked_none. split; [lia|]. intros; lia.
  - apply in_flat_map in H. destruct H as [j [J H]].
    pose proof (ends_ge _ _ _ _ _ J). pose proof (ends_ge _ _ _ _ _ H).
    rewrite (@marked_split i j e) by lia.
    destruct (IH1 _ _ J) as [A1 B1]. destruct (IH2 _ _ H) as [A2 B2].
    split; [lia|]. intros k K.
    destruct (max_marks ic M r1) as [k1|], (max_marks ic M r2) as [k2|];
      try discriminate.
    injection K as <-. specialize (B1 _ eq_refl). specialize (B2 _ eq_refl). lia.
  - apply in_app_or in H. destruct H as [H|H].
    + destruct (IH1 _ _ H) as [A1 B1]. split; [lia|]. intros k K.
      destruct (max_marks ic M r1) as [k1|], (max_marks ic M r2) as [k2|];
        try discriminate.
      injection K as <-. specialize (B1 _ eq_refl). lia.
    + destruct (IH2 _ _ H) as [A2 B2]. split; [lia|]. intros k K.
      destruct (max_marks ic M r1) as [k1|], (max_marks ic M r2) as [k2|];
        try discriminate.
      injection K as <-. specialize (B2 _ eq_refl). lia.
  - apply in_app_or in H. destruct H as [H|[<-|[]]].
    + apply filter_In in H. destruct H as [H _].
      destruct (IH1 _ _ H) as [A1 B1]. split; [lia|exact B1].
    + rewrite marked_none. split; [lia|]. intros; lia.
  - split; [lia|]. intros k K.
    destruct (max_marks ic M r1) as [[|k1]|]; try discriminate.
    injection K as <-.
    rewrite (@repeat_unmarked (ends ic s r1)) with (fuel := List.length s - i);
      [lia| |exact H].
    intros j f F. destruct (IH1 _ _ F) as [_ B]. specialize (B _ eq_refl). lia.
  - apply in_flat_map in H. destruct H as [j [J H]].
    pose proof (ends_ge _ _ _ _ _ J). pose proof (repeat_greedy_ge _ _ _ _ H).
    rewrite (@marked_split i j e) by lia.
    destruct (IH1 _ _ J) as [A1 B1]. split; [lia|]. intros k K.
    destruct (max_marks ic M r1) as [[|k1]|]; try discriminate.
    injection K as <-. specialize (B1 _ eq_refl).
    rewrite (@repeat_unmarked (ends ic s r1)) with (fuel := List.length s - j) (i := j);
      [lia| |exact H].
    intros j' f F. destruct (IH1 _ _ F) as [_ B]. specialize (B _ eq_refl). lia.
Qed.

(** A match has no room for two matches one after the other. *)
Lemma no_room (r : regex) (a' e' a e b f : nat) :
  no_room_for_two ic M r = true ->
  In e' (ends ic s r a') -> In e (ends ic s r a) -> In f (ends ic s r b) ->
  a' <= a -> e <= b -> f <= e' -> False.
Proof.
  unfold no_room_for_two. destruct (max_marks ic M r) as [k|] eqn:K; [|discriminate].
  intros C P1 P2 P3 L1 L2 L3. apply Nat.ltb_lt in C.
  pose proof (ends_ge _ _ _ _ _ P2). pose proof (ends_ge _ _ _ _ _ P3).
  destruct (marks_bounds _ _ _ P1) as [_ B1]. specialize (B1 _ K).
  destruct (marks_bounds _ _ _ P2) as [A2 _].
  destruct (marks_bounds _ _ _ P3) as [A3 _].
  rewrite (@marked_split a' a e') in B1 by lia.
  rewrite (@marked_split a e e') in B1 by lia.
  rewrite (@marked_split e b e') in B1 by lia.
  rewrite (@marked_split b f e') in B1 by lia.
  lia.
Qed.

Lemma zero_width_sound (r : regex) :
  zero_width r = true -> forall i e, In e (ends ic s r i) -> e = i.
Proof.
  induction r; cbn [zero_width]; try discriminate; intros Z i e H; cbn [ends] in H.
  - destruct H as [<-|[]]. reflexivity.
  - destruct (is_word_boundary s i); [|contradiction]. destruct H as [<-|[]]. reflexivity.
  - apply andb_true_iff in Z. destruct Z as [Z1 Z2].
    apply in_flat_map in H. destruct H as [j [J H]].
    apply (IHr1 Z1) in J. apply (IHr2 Z2) in H. congruence.
Qed.

Lemma first_marked_sound (r : regex) :
  first_marked ic M r = true ->
  forall i e, In e (ends ic s r i) ->
    i < e /\ exists t, nth_error s i = Some t /\ marks ic M t = true.
Proof.
  induction r; cbn [first_marked]; try discriminate; intros F i e H; cbn [ends] in H.
  - apply step_char_In in H. destruct H as [-> [t [N P]]]. apply N.eqb_eq in P.
    split; [lia|]. exists t. split; [exact N|].
    now rewrite (@marks_canon ic M t c P).
  - apply in_flat_map in H. destruct H as [j [J H]].
    pose proof (ends_ge _ _ _ _ _ J). pose proof (ends_ge _ _ _ _ _ H).
    apply orb_true_iff in F. destruct F as [F|F].
    + destruct (IHr1 F _ _ J) as [L T]. split; [lia|exact T].
    + apply andb_true_iff in F. destruct F as [Z F].
      apply (zero_width_sound _ Z) in J. subst j. now apply IHr2.
  - apply andb_true_iff in F. destruct F as [F1 F2].
    apply in_app_or in H. destruct H as [H|H]; [now apply IHr1|now apply IHr2].
  - apply in_flat_map in H. destruct H as [j [J H]].
    pose proof (repeat_greedy_ge _ _ _ _ H).
    destruct (IHr F _ _ J) as [L T]. split; [lia|exact T].
Qed.

Lemma last_marked_sound (r : regex) :
  last_marked ic M r = true ->
  forall i e, In e (ends ic s r i) ->
    i < e /\ exists t, nth_error s (e - 1) = Some t /\ marks ic M t = true.
Proof.
  induction r; cbn [last_marked]; try discriminate; intros F i e H; cbn [ends] in H.
  - apply step_char_In in H. destruct H as [-> [t [N P]]]. apply N.eqb_eq in P.
    split; [lia|]. exists t. replace (S i - 1) with i by lia. split; [exact N|].
    now rewrite (@marks_canon ic M t c P).
  - apply in_flat_map in H. destruct H as [j [J H]].
    pose proof (ends_ge _ _ _ _ _ J). pose proof (ends_ge _ _ _ _ _ H).
    apply orb_true_iff in F. destruct F as [F|F].
    + destruct (IHr2 F _ _ H) as [L T]. split; [lia|exact T].
    + apply andb_true_iff in F. destruct F as [Z F].
      apply (zero_width_sound _ Z) in H. subst e. now apply IHr1.
  - apply andb_true_iff in F. destruct F as [F1 F2].
    apply in_app_or in H. destruct H as [H|H]; [now apply IHr1|now apply IHr2].
Qed.

(** Of two matches of a regex whose matches all have the same number of
    marked characters and end with one, the one that starts later does
    not end earlier; likewise for the starts when they start with
    one. *)
Lemma exact_last (r : regex) (a' x a x1 : nat) :
  exact_marks ic M r = true -> last_marked ic M r = true ->
  In x (ends ic s r a') -> In x1 (ends ic s r a) -> a' <= a -> x <= x1.
Proof.
  unfold exact_marks. destruct (max_marks ic M r) as [k|] eqn:K; [|discriminate].
  intros E L P P1 A. apply Nat.eqb_eq in E.
  destruct (Nat.le_gt_cases x x1) as [G|G]; [exact G|exfalso].
  pose proof (ends_ge _ _ _ _ _ P1).
  destruct (marks_bounds _ _ _ P) as [_ B]. specialize (B _ K).
  destruct (marks_bounds _ _ _ P1) as [A1 _].
  destruct (last_marked_sound _ L _ _ P) as [Lx [t [N T]]].
  rewrite (@marked_split a' a x) in B by lia.
  rewrite (@marked_split a x1 x) in B by lia.
  pose proof (@marked_inside x1 (x - 1) x t ltac:(lia) N T). lia.
Qed.

Lemma exact_first (r : regex) (y e' z f : nat) :
  exact_marks ic M r = true -> first_marked ic M r = true ->
  In e' (ends ic s r y) -> In f (ends ic s r z) -> f <= e' -> z <= y.
Proof.
  unfold exact_marks. destruct (max_marks ic M r) as [k|] eqn:K; [|discriminate].
  intros E L P P1 A. apply Nat.eqb_eq in E.
  destruct (Nat.le_gt_cases z y) as [G|G]; [exact G|exfalso].
  pose proof (ends_ge _ _ _ _ _ P1).
  destruct (marks_bounds _ _ _ P) as [_ B]. specialize (B _ K).
  destruct (marks_bounds _ _ _ P1) as [A1 _].
  destruct (first_marked_sound _ L _ _ P) as [Lx [t [N T]]].
  rewrite (@marked_split y z e') in B by lia.
  rewrite (@marked_split z f e') in B by lia.
  pose proof (@marked_inside y y z t ltac:(lia) N T). lia.
Qed.

End Marks.

(* ================================================================== *)
(** * Matches that stay when text is appended *)
(* ================================================================== *)

Lemma hd_error_flat_map {A B : Type} (g : A -> list B) (l : list A) (e : B) :
  hd_error (flat_map g l) = Some e -> exists x, In x l /\ hd_error (g x) = Some e.
Proof.
  induction l as [|x l IH]; cbn [flat_map]; [discriminate|].
  destruct (g x) as [|y t] eqn:G; cbn [app hd_error].
  - intro H. destruct (IH H) as [x' [I E]]. exists x'. split; [now right|exact E].
  - intro H. exists x. split; [now left|]. now rewrite G.
Qed.

Lemma flat_map_flat_map {A B C : Type} (f : A -> list B) (g : B -> list C) (l : list A) :
  flat_map g (flat_map f l) = flat_map (fun x => flat_map g (f x)) l.
Proof.
  induction l as [|x l IH]; [reflexivity|].
  cbn [flat_map]. now rewrite flat_map_app, IH.
Qed.

Section DotStar.

Variable ic : bool.
Variable s : list char.

(** [.*] runs over characters that are not line terminators. *)
Lemma dot_run_In :
  forall fuel x y, In y (repeat_greedy (ends ic s Dot) fuel x) ->
    forall k, x <= k < y ->
      exists t, nth_error s k = Some t /\ is_line_terminator t = false.
Proof.
  induction fuel as [|fuel IH]; intros x y H k K;
    apply repeat_greedy_In in H; destruct H as [->|[j [J [L H]]]];
    try lia; try contradiction.
  cbn [ends] in J. apply step_char_In in J. destruct J as [-> [t [N P]]].
  destruct (Nat.eq_dec k x) as [->|D].
  - exists t. split; [exact N|]. now apply negb_true_iff in P.
  - apply (IH _ _ H). lia.
Qed.

Lemma dot_run_intro :
  forall fuel x y, x <= y -> y - x <= fuel ->
    (forall k, x <= k < y ->
       exists t, nth_error s k = Some t /\ is_line_terminator t = false) ->
    In y (repeat_greedy (ends ic s Dot) fuel x).
Proof.
  induction fuel as [|fuel IH]; intros x y L F H.
  - left. lia.
  - cbn [repeat_greedy]. apply in_or_app.
    destruct (Nat.eq_dec x y) as [->|D]; [right; now left|left].
    destruct (H x ltac:(lia)) as [t [N P]].
    cbn [ends]. unfold step_char. rewrite N, P. cbn [negb flat_map].
    destruct (Nat.ltb_spec x (S x)); [|lia]. rewrite app_nil_r.
    apply IH; [lia|lia|]. intros k K. apply H. lia.
Qed.

Lemma dot_round (fuel x : nat) :
  repeat_greedy (ends ic s Dot) (S fuel) x
  = match nth_error s x with
    | Some t => if negb (is_line_terminator t)
                then repeat_greedy (ends ic s Dot) fuel (S x) else []
    | None => []
    end ++ [x].
Proof.
  cbn [repeat_greedy ends]. unfold step_char. f_equal.
  destruct (nth_error s x) as [t|]; [|reflexivity].
  destruct (negb (is_line_terminator t)); [|reflexivity].
  cbn [flat_map]. destruct (Nat.ltb_spec x (S x)); [|lia]. apply app_nil_r.
Qed.

(** The longest run of [.*] after which the rest matches is taken. *)
Lemma dot_run_first (g : nat -> list nat) :
  (forall j e, In e (g j) -> j <= e) ->
  forall fuel x e z,
    hd_error (flat_map g (repeat_greedy (ends ic s Dot) fuel x)) = Some e ->
    In z (repeat_greedy (ends ic s Dot) fuel x) -> g z <> [] -> z <= e.
Proof.
  intro G. induction fuel as [|fuel IH]; intros x e z H I Z.
  - destruct I as [<-|[]]. apply hd_error_In in H. cbn [repeat_greedy flat_map] in H.
    rewrite app_nil_r in H. now apply G.
  - rewrite dot_round in H, I. rewrite flat_map_app in H.
    apply in_app_or in I. destruct I as [I|[<-|[]]].
    + destruct (nth_error s x) as [t|]; [|contradiction].
      destruct (negb (is_line_terminator t)); [|contradiction].
      apply (IH (S x)); [|exact I|exact Z].
      destruct (flat_map g (repeat_greedy (ends ic s Dot) fuel (S x))) as [|e0 l] eqn:E.
      * exfalso. destruct (g z) as [|e1 l1] eqn:Gz; [congruence|].
        assert (X : In e1 (flat_map g (repeat_greedy (ends ic s Dot) fuel (S x)))).
        { apply in_flat_map. exists z. split; [exact I|]. rewrite Gz. now left. }
        rewrite E in X. contradiction.
      * exact H.
    + apply hd_error_In in H. apply in_app_or in H. destruct H as [H|H].
      * apply in_flat_map in H. destruct H as [j [J H]]. apply G in H.
        destruct (nth_error s x) as [t|]; [|contradiction].
        destruct (negb (is_line_terminator t)); [|contradiction].
        apply repeat_greedy_ge in J. lia.
      * cbn [flat_map] in H. rewrite app_nil_r in H. now apply G.
Qed.

Lemma split_dot_star_ends (r A B : regex) :
  split_dot_star r = Some (A, B) ->
  forall i, ends ic s r i
            = flat_map (fun x => flat_map (ends ic s B) (ends ic s (Star Dot) x))
                       (ends ic s A i).
Proof.
  revert A B. induction r as [| | | | |r1 _ r2 IH| | | |]; intros A B H;
    cbn [split_dot_star] in H; try discriminate.
  destruct (is_dot_star r1) eqn:D.
  - injection H as <- <-. intro i.
    assert (r1 = Star Dot).
    { destruct r1 as [| | | | | | | |r0|]; try discriminate.
      destruct r0; try discriminate. reflexivity. }
    subst r1. cbn [ends flat_map]. now rewrite app_nil_r.
  - destruct (split_dot_star r2) as [[A0 B0]|]; [|discriminate].
    injection H as <- <-. intro i. cbn [ends].
    rewrite flat_map_flat_map. apply flat_map_ext. intro j.
    apply (IH A0 B0 eq_refl j).
Qed.

End DotStar.

(** A match in the longer text starts no later than the first match of
    the text. *)
Lemma appended_start (ic : bool) (s suffix : list char) (c : char) (r : regex)
  (lastIndex a e a' e' : nat) :
  is_word c = false ->
  exec ic s r lastIndex = Some (a, e) ->
  exec ic (s ++ c :: suffix) r lastIndex = Some (a', e') ->
  a' <= a /\ a <= List.length s
  /\ In e (ends ic (s ++ c :: suffix) r a)
  /\ In e' (ends ic (s ++ c :: suffix) r a').
Proof.
  intros C E E'.
  apply exec_leftmost in E. destruct E as [[La Ua] [M _]].
  apply exec_leftmost in E'. destruct E' as [_ [M' L']].
  apply hd_error_In in M. apply hd_error_In in M'.
  pose proof (@In_appended ic s suffix c C r a e Ua M) as I.
  repeat split; try assumption.
  destruct (Nat.le_gt_cases a' a) as [G|G]; [exact G|].
  specialize (L' a ltac:(lia)). unfold match_at in L'.
  destruct (ends ic (s ++ c :: suffix) r a); [contradiction|discriminate].
Qed.

Lemma bounded_swallow_free (ic : bool) (M : marker) (r : regex) :
  no_room_for_two ic M r = true -> swallow_free ic r.
Proof.
  intros N s suffix c li a e a' e' C E E' Out.
  destruct (exec ic s r e) as [[b f]|] eqn:E2; [exfalso|reflexivity].
  destruct (@appended_start ic s suffix c r li a e a' e' C E E') as [A [Ua [P P']]].
  pose proof E2 as X. apply exec_leftmost in X. destruct X as [[Lb Ub] [Mb _]].
  pose proof E2 as X. apply exec_inside in X. destruct X as [_ [_ Uf]].
  apply hd_error_In in Mb.
  pose proof (@In_appended ic s suffix c C r b f Ub Mb) as Pb.
  apply (@no_room ic (s ++ c :: suffix) M r a' e' a e b f N P' P Pb); lia.
Qed.

Lemma dot_star_swallow_free (ic : bool) (MA MB : marker) (r A B : regex) :
  split_dot_star r = Some (A, B) ->
  exact_marks ic MA A = true -> last_marked ic MA A = true ->
  exact_marks ic MB B = true -> first_marked ic MB B = true ->
  swallow_free ic r.
Proof.
  intros S EA LA EB FB s suffix c li a e a' e' C E E' Out.
  destruct (exec ic s r e) as [[b f]|] eqn:E2; [exfalso|reflexivity].
  destruct (@appended_start ic s suffix c r li a e a' e' C E E') as [A' [Ua [_ P']]].
  pose proof E as X. apply exec_leftmost in X. destruct X as [_ [Ma _]].
  pose proof E2 as X. apply exec_leftmost in X. destruct X as [[Lb Ub] [Mb _]].
  pose proof E2 as X. apply exec_inside in X. destruct X as [_ [_ Uf]].
  apply hd_error_In in Mb.
  (* the match in the longer text *)
  rewrite (split_dot_star_ends ic (s ++ c :: suffix) _ S) in P'.
  apply in_flat_map in P'. destruct P' as [x [Px P']].
  apply in_flat_map in P'. destruct P' as [y [Py Pe']].
  (* the second match of the text *)
  rewrite (split_dot_star_ends ic s _ S) in Mb.
  apply in_flat_map in Mb. destruct Mb as [x2 [Px2 Mb]].
  apply in_flat_map in Mb. destruct Mb as [z [Pz Pf]].
  destruct (@last_marked_sound ic s MA A LA b x2 Px2) as [Lx2 _].
  pose proof Pz as Gz. apply ends_ge in Gz.
  pose proof Pf as Gf. apply ends_ge in Gf.
  (* the first match of the text *)
  unfold match_at in Ma. rewrite (split_dot_star_ends ic s _ S) in Ma.
  apply hd_error_flat_map in Ma. destruct Ma as [x1 [Px1 Ma]].
  assert (X1 : x1 <= e).
  { apply hd_error_In in Ma. apply in_flat_map in Ma. destruct Ma as [j [J Je]].
    apply ends_ge in J. apply ends_ge in Je. lia. }
  pose proof Px1 as Gx1. apply ends_ge in Gx1.
  (* both parts of the longer match lie around the run of the text *)
  assert (Xx : x <= x1).
  { apply (@exact_last ic (s ++ c :: suffix) MA A a' x a x1 EA LA Px); [|exact A'].
    apply In_appended; [exact C|lia|exact Px1]. }
  assert (Zy : z <= y).
  { apply (@exact_first ic (s ++ c :: suffix) MB B y e' z f EB FB Pe'); [|lia].
    apply In_appended; [exact C|lia|exact Pf]. }
  (* so the run of the first match reaches the second match *)
  assert (R : In z (repeat_greedy (ends ic s Dot) (List.length s - x1) x1)).
  { apply dot_run_intro; [lia|lia|].
    intros k K.
    change (In y (repeat_greedy (ends ic (s ++ c :: suffix) Dot)
                    (List.length (s ++ c :: suffix) - x) x)) in Py.
    destruct (@dot_run_In ic (s ++ c :: suffix) _ x y Py k ltac:(lia)) as [t [N T]].
    exists t. split; [|exact T].
    now rewrite <- (@nth_error_appended s suffix c k) by lia. }
  assert (Z : z <= e).
  { change (hd_error (flat_map (ends ic s B)
                        (repeat_greedy (ends ic s Dot) (List.length s - x1) x1))
            = Some e) in Ma.
    apply (@dot_run_first ic s (ends ic s B) (fun j e0 => @ends_ge ic s B j e0)
             (List.length s - x1) x1 e z Ma R).
    intro N. rewrite N in Pf. contradiction. }
  lia.
Qed.

Lemma append_stable_sound (p : RegExp) :
  append_stable p = true -> swallow_free (ignoreCase p) (source p).
Proof.
  unfold append_stable, dot_star_stable. intro H.
  apply orb_true_iff in H. destruct H as [H|H].
  - apply existsb_exists in H. destruct H as [M [_ N]].
    exact (@bounded_swallow_free (ignoreCase p) M (source p) N).
  - destruct (split_dot_star (source p)) as [[A B]|] eqn:S; [|discriminate].
    apply andb_true_iff in H. destruct H as [HA HB].
    apply existsb_exists in HA. destruct HA as [MA [_ HA]].
    apply existsb_exists in HB. destruct HB as [MB [_ HB]].
    apply andb_true_iff in HA. destruct HA as [EA LA].
    apply andb_true_iff in HB. destruct HB as [EB FB].
    exact (@dot_star_swallow_free (ignoreCase p) MA MB (source p) A B S EA LA EB FB).
Qed.

Lemma PATTERNS_append_stable : forallb append_stable all_patterns = true.
Proof. vm_compute. reflexivity. Qed.

(** A pattern of the catalog has at least as many matches after text is
    appended behind a character that is not a word character. *)
Lemma pattern_matches_appended (text suffix : list char) (c : char) (p : RegExp) :
  is_word c = false -> In p all_patterns ->
  List.length (pattern_matches text p)
  <= List.length (pattern_matches (text ++ c :: suffix) p).
Proof.
  intros C I. unfold pattern_matches, matchAll. cbn [fst]. rewrite !length_map.
  pose proof PATTERNS_never_empty as E. rewrite forallb_forall in E.
  specialize (E p I). apply Nat.leb_le in E.
  pose proof PATTERNS_append_stable as S. rewrite forallb_forall in S.
  specialize (S p I). apply append_stable_sound in S.
  apply iterate_appended; try assumption; lia.
Qed.

Lemma flat_map_length_le {A B : Type} (f g : A -> list B) (l : list A) :
  (forall x, In x l -> List.length (f x) <= List.length (g x)) ->
  List.length (flat_map f l) <= List.length (flat_map g l).
Proof.
  induction l as [|x l IH]; intro H; [cbn; lia|].
  cbn [flat_map]. rewrite !length_app.
  specialize (H x (or_introl eq_refl)) as Hx.
  assert (List.length (flat_map f l) <= List.length (flat_map g l))
    by (apply IH; intros y Y; apply H; now right).
  lia.
Qed.

Lemma category_matches_appended (text suffix : list char) (c : char)
  (key : string) (cat : Category.t) :
  is_word c = false -> In (key, cat) PATTERNS ->
  List.length (category_matches text cat)
  <= List.length (category_matches (text ++ c :: suffix) cat).
Proof.
  intros C I. unfold category_matches. apply flat_map_length_le.
  intros p P. apply pattern_matches_appended; [exact C|].
  exact (@in_all_patterns key cat p I P).
Qed.


